(** * Frame decoder orchestration (lib/jxl/dec_frame.cc)

    A shallow embedding of the state machine of [FrameDecoder]: frame
    initialisation, the section scheduler [ProcessSections], [Flush],
    [FinalizeFrame], and the bookkeeping queries [HasEverything] and
    [References], together with the pass policy of [DecodeFrame] and the
    JPEG quantisation tables of [ProcessACGlobal].  Further parts follow
    the main model: the section windows and the status loop of
    [DecodeFrame], [GetReaderForSection], and the parameter generator of
    the lossless round-trip test (lib/jxl/modular_test.cc).

    Conventions.
    - Members keep their C++ names, trailing underscore included.
    - Counters that index vectors (group ids, section ids, pass counts) are
      [nat]; they are bounded by vector lengths, far below any machine
      limit.  Quantities on which the code performs machine arithmetic that
      can wrap ([uint32_t] increments, the [uint64_t] TOC sum) are [N] or
      [Z] with the wrap-around written out.
    - Sub-decoders (entropy coder, modular decoder, render pipeline) are
      outside this file.  Every call into them is an oracle whose [Status]
      is supplied by an environment record; the environment may differ
      from one call of the orchestrator to the next.  The record also
      holds the JPEG data that [ProcessACGlobal] reads.
    - [JXL_ASSERT]/[JXL_CHECK] abort the process; an aborted call has no
      resulting state ([Aborted]). *)

From Stdlib Require Import ZArith NArith Ascii.
From stdpp Require Import base tactics option list strings pretty.

Local Open Scope string_scope.
Local Open Scope nat_scope.
Local Open Scope list_scope.

(** ** Status values (lib/jxl/base/status.h)

    A [Status] is OK, a non-fatal "not enough bytes", or a fatal error.
    [JXL_FAILURE(msg)] is the fatal error carrying [msg]; a bare [false]
    converted to [Status] is the fatal error with the empty message. *)

Inductive Status :=
| StatusOk
| StatusNotEnoughBytes
| StatusError (msg : string).

Definition IsFatalError (s : Status) : bool :=
  match s with StatusError _ => true | _ => false end.

(** [operator bool] of [Status]. *)
Definition ok (s : Status) : bool :=
  match s with StatusOk => true | _ => false end.

Definition JXL_FAILURE (msg : string) : Status := StatusError msg.

Definition StatusOfBool (b : bool) : Status :=
  if b then StatusOk else StatusError "".

(** ** Frame header (the fields the orchestrator reads) *)

Inductive FrameEncoding := kVarDCT | kModular.
Inductive FrameType := kRegularFrame | kDCFrame | kReferenceOnly | kSkipProgressive.
Inductive BlendMode := kReplace | kAdd | kBlend | kAlphaWeightedAddAboveThreshold | kMul.

Definition FrameEncoding_eqb (a b : FrameEncoding) : bool :=
  match a, b with kVarDCT, kVarDCT | kModular, kModular => true | _, _ => false end.

Definition FrameType_eqb (a b : FrameType) : bool :=
  match a, b with
  | kRegularFrame, kRegularFrame | kDCFrame, kDCFrame
  | kReferenceOnly, kReferenceOnly | kSkipProgressive, kSkipProgressive => true
  | _, _ => false
  end.

Definition BlendMode_eqb (a b : BlendMode) : bool :=
  match a, b with
  | kReplace, kReplace | kAdd, kAdd | kBlend, kBlend
  | kAlphaWeightedAddAboveThreshold, kAlphaWeightedAddAboveThreshold
  | kMul, kMul => true
  | _, _ => false
  end.

(** Bits of [FrameHeader::flags]; the enum is declared in frame_header.h,
    the values are those fixed by the bitstream format. *)
Module Flags.
Definition kNoise : Z := 1.
Definition kPatches : Z := 2.
Definition kSplines : Z := 16.
Definition kUseDcFrame : Z := 32.
Definition kSkipAdaptiveDCSmoothing : Z := 128.
End Flags.

(** [flags & bit] used as a condition. *)
Definition has_flag (flags bit : Z) : bool := negb (Z.land flags bit =? 0)%Z.

Record BlendingInfo := {
  mode : BlendMode;
  source : Z                       (* uint32_t, a reference slot 0..3 *)
}.

Record Passes := {
  num_passes : nat;                (* uint32_t, 1..kMaxNumPasses *)
  num_downsample : nat;            (* uint32_t *)
  downsample : list N;             (* uint32_t[] *)
  last_pass : list N               (* uint32_t[] *)
}.

Record FrameHeader := {
  encoding : FrameEncoding;
  frame_type : FrameType;
  flags : Z;                       (* uint64_t *)
  dc_level : N;                    (* uint32_t *)
  custom_size_or_origin : bool;
  blending_info : BlendingInfo;
  extra_channel_blending_info : list BlendingInfo;
  passes : Passes;
  is_last : bool;
  animation_duration : N;          (* animation_frame.duration *)
  nonserialized_is_preview : bool;
  chroma_Is444 : bool;             (* chroma_subsampling.Is444() *)
  CanBeReferenced : bool;          (* result of the header's predicate *)
  save_as_reference : nat;
  save_before_color_transform : bool
}.

(** The two assignments and the [|=] of the DC-frame fallback in
    [InitFrame]. *)
Definition assume_dc_frame (h : FrameHeader) : FrameHeader :=
  {| encoding := kVarDCT;
     frame_type := frame_type h;
     flags := Z.lor (flags h) Flags.kUseDcFrame;
     dc_level := 0;
     custom_size_or_origin := custom_size_or_origin h;
     blending_info := blending_info h;
     extra_channel_blending_info := extra_channel_blending_info h;
     passes := passes h;
     is_last := is_last h;
     animation_duration := animation_duration h;
     nonserialized_is_preview := nonserialized_is_preview h;
     chroma_Is444 := chroma_Is444 h;
     CanBeReferenced := CanBeReferenced h;
     save_as_reference := save_as_reference h;
     save_before_color_transform := save_before_color_transform h |}.

Definition set_is_preview (b : bool) (h : FrameHeader) : FrameHeader :=
  {| encoding := encoding h;
     frame_type := frame_type h;
     flags := flags h;
     dc_level := dc_level h;
     custom_size_or_origin := custom_size_or_origin h;
     blending_info := blending_info h;
     extra_channel_blending_info := extra_channel_blending_info h;
     passes := passes h;
     is_last := is_last h;
     animation_duration := animation_duration h;
     nonserialized_is_preview := b;
     chroma_Is444 := chroma_Is444 h;
     CanBeReferenced := CanBeReferenced h;
     save_as_reference := save_as_reference h;
     save_before_color_transform := save_before_color_transform h |}.

(** Frame dimensions derived from the header ([ToFrameDimensions]). *)
Record FrameDimensions := {
  xsize : nat;
  ysize : nat;
  num_groups : nat;
  num_dc_groups : nat
}.

(** A reference slot as [FinalizeFrame] leaves it. *)
Record ReferenceFrame := {
  ib_is_in_xyb : bool;
  has_frame : bool
}.

(** ** Frame decoder state *)

Record FrameDecoder := {
  frame_header_ : FrameHeader;
  frame_dim_ : FrameDimensions;
  (* the output bundle and the shared decoder state, as far as read here *)
  decoded_IsJPEG : bool;           (* decoded_->IsJPEG() *)
  decoded_has_extra_channels : bool; (* !decoded_->metadata()->extra_channel_info.empty() *)
  epf_iters : nat;                 (* shared_storage.frame_header.loop_filter.epf_iters *)
  reference_frames : list ReferenceFrame;
  (* options *)
  allow_partial_frames_ : bool;
  allow_partial_dc_global_ : bool;
  pause_at_progressive_ : bool;
  (* TOC *)
  section_offsets_ : list N;
  section_sizes_ : list N;
  (* progress *)
  decoded_dc_global_ : bool;
  decoded_ac_global_ : bool;
  finalized_dc_ : bool;
  is_finalized_ : bool;
  allocated_ : bool;
  decoded_dc_groups_ : list bool;
  decoded_passes_per_ac_group_ : list nat;
  processed_section_ : list bool;
  num_sections_done_ : nat;
  max_passes_ : nat;
  num_renders_ : nat
}.

(** Member assignments: [set_f v d] is [d] after [f = v]. *)

Definition set_epf_iters (v : nat) (d : FrameDecoder) : FrameDecoder :=
  {| frame_header_ := frame_header_ d;
     frame_dim_ := frame_dim_ d;
     decoded_IsJPEG := decoded_IsJPEG d;
     decoded_has_extra_channels := decoded_has_extra_channels d;
     epf_iters := v;
     reference_frames := reference_frames d;
     allow_partial_frames_ := allow_partial_frames_ d;
     allow_partial_dc_global_ := allow_partial_dc_global_ d;
     pause_at_progressive_ := pause_at_progressive_ d;
     section_offsets_ := section_offsets_ d;
     section_sizes_ := section_sizes_ d;
     decoded_dc_global_ := decoded_dc_global_ d;
     decoded_ac_global_ := decoded_ac_global_ d;
     finalized_dc_ := finalized_dc_ d;
     is_finalized_ := is_finalized_ d;
     allocated_ := allocated_ d;
     decoded_dc_groups_ := decoded_dc_groups_ d;
     decoded_passes_per_ac_group_ := decoded_passes_per_ac_group_ d;
     processed_section_ := processed_section_ d;
     num_sections_done_ := num_sections_done_ d;
     max_passes_ := max_passes_ d;
     num_renders_ := num_renders_ d |}.

Definition set_reference_frames (v : list ReferenceFrame) (d : FrameDecoder) : FrameDecoder :=
  {| frame_header_ := frame_header_ d;
     frame_dim_ := frame_dim_ d;
     decoded_IsJPEG := decoded_IsJPEG d;
     decoded_has_extra_channels := decoded_has_extra_channels d;
     epf_iters := epf_iters d;
     reference_frames := v;
     allow_partial_frames_ := allow_partial_frames_ d;
     allow_partial_dc_global_ := allow_partial_dc_global_ d;
     pause_at_progressive_ := pause_at_progressive_ d;
     section_offsets_ := section_offsets_ d;
     section_sizes_ := section_sizes_ d;
     decoded_dc_global_ := decoded_dc_global_ d;
     decoded_ac_global_ := decoded_ac_global_ d;
     finalized_dc_ := finalized_dc_ d;
     is_finalized_ := is_finalized_ d;
     allocated_ := allocated_ d;
     decoded_dc_groups_ := decoded_dc_groups_ d;
     decoded_passes_per_ac_group_ := decoded_passes_per_ac_group_ d;
     processed_section_ := processed_section_ d;
     num_sections_done_ := num_sections_done_ d;
     max_passes_ := max_passes_ d;
     num_renders_ := num_renders_ d |}.

Definition set_decoded_dc_global (v : bool) (d : FrameDecoder) : FrameDecoder :=
  {| frame_header_ := frame_header_ d;
     frame_dim_ := frame_dim_ d;
     decoded_IsJPEG := decoded_IsJPEG d;
     decoded_has_extra_channels := decoded_has_extra_channels d;
     epf_iters := epf_iters d;
     reference_frames := reference_frames d;
     allow_partial_frames_ := allow_partial_frames_ d;
     allow_partial_dc_global_ := allow_partial_dc_global_ d;
     pause_at_progressive_ := pause_at_progressive_ d;
     section_offsets_ := section_offsets_ d;
     section_sizes_ := section_sizes_ d;
     decoded_dc_global_ := v;
     decoded_ac_global_ := decoded_ac_global_ d;
     finalized_dc_ := finalized_dc_ d;
     is_finalized_ := is_finalized_ d;
     allocated_ := allocated_ d;
     decoded_dc_groups_ := decoded_dc_groups_ d;
     decoded_passes_per_ac_group_ := decoded_passes_per_ac_group_ d;
     processed_section_ := processed_section_ d;
     num_sections_done_ := num_sections_done_ d;
     max_passes_ := max_passes_ d;
     num_renders_ := num_renders_ d |}.

Definition set_decoded_ac_global (v : bool) (d : FrameDecoder) : FrameDecoder :=
  {| frame_header_ := frame_header_ d;
     frame_dim_ := frame_dim_ d;
     decoded_IsJPEG := decoded_IsJPEG d;
     decoded_has_extra_channels := decoded_has_extra_channels d;
     epf_iters := epf_iters d;
     reference_frames := reference_frames d;
     allow_partial_frames_ := allow_partial_frames_ d;
     allow_partial_dc_global_ := allow_partial_dc_global_ d;
     pause_at_progressive_ := pause_at_progressive_ d;
     section_offsets_ := section_offsets_ d;
     section_sizes_ := section_sizes_ d;
     decoded_dc_global_ := decoded_dc_global_ d;
     decoded_ac_global_ := v;
     finalized_dc_ := finalized_dc_ d;
     is_finalized_ := is_finalized_ d;
     allocated_ := allocated_ d;
     decoded_dc_groups_ := decoded_dc_groups_ d;
     decoded_passes_per_ac_group_ := decoded_passes_per_ac_group_ d;
     processed_section_ := processed_section_ d;
     num_sections_done_ := num_sections_done_ d;
     max_passes_ := max_passes_ d;
     num_renders_ := num_renders_ d |}.

Definition set_finalized_dc (v : bool) (d : FrameDecoder) : FrameDecoder :=
  {| frame_header_ := frame_header_ d;
     frame_dim_ := frame_dim_ d;
     decoded_IsJPEG := decoded_IsJPEG d;
     decoded_has_extra_channels := decoded_has_extra_channels d;
     epf_iters := epf_iters d;
     reference_frames := reference_frames d;
     allow_partial_frames_ := allow_partial_frames_ d;
     allow_partial_dc_global_ := allow_partial_dc_global_ d;
     pause_at_progressive_ := pause_at_progressive_ d;
     section_offsets_ := section_offsets_ d;
     section_sizes_ := section_sizes_ d;
     decoded_dc_global_ := decoded_dc_global_ d;
     decoded_ac_global_ := decoded_ac_global_ d;
     finalized_dc_ := v;
     is_finalized_ := is_finalized_ d;
     allocated_ := allocated_ d;
     decoded_dc_groups_ := decoded_dc_groups_ d;
     decoded_passes_per_ac_group_ := decoded_passes_per_ac_group_ d;
     processed_section_ := processed_section_ d;
     num_sections_done_ := num_sections_done_ d;
     max_passes_ := max_passes_ d;
     num_renders_ := num_renders_ d |}.

Definition set_is_finalized (v : bool) (d : FrameDecoder) : FrameDecoder :=
  {| frame_header_ := frame_header_ d;
     frame_dim_ := frame_dim_ d;
     decoded_IsJPEG := decoded_IsJPEG d;
     decoded_has_extra_channels := decoded_has_extra_channels d;
     epf_iters := epf_iters d;
     reference_frames := reference_frames d;
     allow_partial_frames_ := allow_partial_frames_ d;
     allow_partial_dc_global_ := allow_partial_dc_global_ d;
     pause_at_progressive_ := pause_at_progressive_ d;
     section_offsets_ := section_offsets_ d;
     section_sizes_ := section_sizes_ d;
     decoded_dc_global_ := decoded_dc_global_ d;
     decoded_ac_global_ := decoded_ac_global_ d;
     finalized_dc_ := finalized_dc_ d;
     is_finalized_ := v;
     allocated_ := allocated_ d;
     decoded_dc_groups_ := decoded_dc_groups_ d;
     decoded_passes_per_ac_group_ := decoded_passes_per_ac_group_ d;
     processed_section_ := processed_section_ d;
     num_sections_done_ := num_sections_done_ d;
     max_passes_ := max_passes_ d;
     num_renders_ := num_renders_ d |}.

Definition set_allocated (v : bool) (d : FrameDecoder) : FrameDecoder :=
  {| frame_header_ := frame_header_ d;
     frame_dim_ := frame_dim_ d;
     decoded_IsJPEG := decoded_IsJPEG d;
     decoded_has_extra_channels := decoded_has_extra_channels d;
     epf_iters := epf_iters d;
     reference_frames := reference_frames d;
     allow_partial_frames_ := allow_partial_frames_ d;
     allow_partial_dc_global_ := allow_partial_dc_global_ d;
     pause_at_progressive_ := pause_at_progressive_ d;
     section_offsets_ := section_offsets_ d;
     section_sizes_ := section_sizes_ d;
     decoded_dc_global_ := decoded_dc_global_ d;
     decoded_ac_global_ := decoded_ac_global_ d;
     finalized_dc_ := finalized_dc_ d;
     is_finalized_ := is_finalized_ d;
     allocated_ := v;
     decoded_dc_groups_ := decoded_dc_groups_ d;
     decoded_passes_per_ac_group_ := decoded_passes_per_ac_group_ d;
     processed_section_ := processed_section_ d;
     num_sections_done_ := num_sections_done_ d;
     max_passes_ := max_passes_ d;
     num_renders_ := num_renders_ d |}.

Definition set_decoded_dc_groups (v : list bool) (d : FrameDecoder) : FrameDecoder :=
  {| frame_header_ := frame_header_ d;
     frame_dim_ := frame_dim_ d;
     decoded_IsJPEG := decoded_IsJPEG d;
     decoded_has_extra_channels := decoded_has_extra_channels d;
     epf_iters := epf_iters d;
     reference_frames := reference_frames d;
     allow_partial_frames_ := allow_partial_frames_ d;
     allow_partial_dc_global_ := allow_partial_dc_global_ d;
     pause_at_progressive_ := pause_at_progressive_ d;
     section_offsets_ := section_offsets_ d;
     section_sizes_ := section_sizes_ d;
     decoded_dc_global_ := decoded_dc_global_ d;
     decoded_ac_global_ := decoded_ac_global_ d;
     finalized_dc_ := finalized_dc_ d;
     is_finalized_ := is_finalized_ d;
     allocated_ := allocated_ d;
     decoded_dc_groups_ := v;
     decoded_passes_per_ac_group_ := decoded_passes_per_ac_group_ d;
     processed_section_ := processed_section_ d;
     num_sections_done_ := num_sections_done_ d;
     max_passes_ := max_passes_ d;
     num_renders_ := num_renders_ d |}.

Definition set_decoded_passes_per_ac_group (v : list nat) (d : FrameDecoder) : FrameDecoder :=
  {| frame_header_ := frame_header_ d;
     frame_dim_ := frame_dim_ d;
     decoded_IsJPEG := decoded_IsJPEG d;
     decoded_has_extra_channels := decoded_has_extra_channels d;
     epf_iters := epf_iters d;
     reference_frames := reference_frames d;
     allow_partial_frames_ := allow_partial_frames_ d;
     allow_partial_dc_global_ := allow_partial_dc_global_ d;
     pause_at_progressive_ := pause_at_progressive_ d;
     section_offsets_ := section_offsets_ d;
     section_sizes_ := section_sizes_ d;
     decoded_dc_global_ := decoded_dc_global_ d;
     decoded_ac_global_ := decoded_ac_global_ d;
     finalized_dc_ := finalized_dc_ d;
     is_finalized_ := is_finalized_ d;
     allocated_ := allocated_ d;
     decoded_dc_groups_ := decoded_dc_groups_ d;
     decoded_passes_per_ac_group_ := v;
     processed_section_ := processed_section_ d;
     num_sections_done_ := num_sections_done_ d;
     max_passes_ := max_passes_ d;
     num_renders_ := num_renders_ d |}.

Definition set_processed_section (v : list bool) (d : FrameDecoder) : FrameDecoder :=
  {| frame_header_ := frame_header_ d;
     frame_dim_ := frame_dim_ d;
     decoded_IsJPEG := decoded_IsJPEG d;
     decoded_has_extra_channels := decoded_has_extra_channels d;
     epf_iters := epf_iters d;
     reference_frames := reference_frames d;
     allow_partial_frames_ := allow_partial_frames_ d;
     allow_partial_dc_global_ := allow_partial_dc_global_ d;
     pause_at_progressive_ := pause_at_progressive_ d;
     section_offsets_ := section_offsets_ d;
     section_sizes_ := section_sizes_ d;
     decoded_dc_global_ := decoded_dc_global_ d;
     decoded_ac_global_ := decoded_ac_global_ d;
     finalized_dc_ := finalized_dc_ d;
     is_finalized_ := is_finalized_ d;
     allocated_ := allocated_ d;
     decoded_dc_groups_ := decoded_dc_groups_ d;
     decoded_passes_per_ac_group_ := decoded_passes_per_ac_group_ d;
     processed_section_ := v;
     num_sections_done_ := num_sections_done_ d;
     max_passes_ := max_passes_ d;
     num_renders_ := num_renders_ d |}.

Definition set_num_sections_done (v : nat) (d : FrameDecoder) : FrameDecoder :=
  {| frame_header_ := frame_header_ d;
     frame_dim_ := frame_dim_ d;
     decoded_IsJPEG := decoded_IsJPEG d;
     decoded_has_extra_channels := decoded_has_extra_channels d;
     epf_iters := epf_iters d;
     reference_frames := reference_frames d;
     allow_partial_frames_ := allow_partial_frames_ d;
     allow_partial_dc_global_ := allow_partial_dc_global_ d;
     pause_at_progressive_ := pause_at_progressive_ d;
     section_offsets_ := section_offsets_ d;
     section_sizes_ := section_sizes_ d;
     decoded_dc_global_ := decoded_dc_global_ d;
     decoded_ac_global_ := decoded_ac_global_ d;
     finalized_dc_ := finalized_dc_ d;
     is_finalized_ := is_finalized_ d;
     allocated_ := allocated_ d;
     decoded_dc_groups_ := decoded_dc_groups_ d;
     decoded_passes_per_ac_group_ := decoded_passes_per_ac_group_ d;
     processed_section_ := processed_section_ d;
     num_sections_done_ := v;
     max_passes_ := max_passes_ d;
     num_renders_ := num_renders_ d |}.

Definition set_max_passes (v : nat) (d : FrameDecoder) : FrameDecoder :=
  {| frame_header_ := frame_header_ d;
     frame_dim_ := frame_dim_ d;
     decoded_IsJPEG := decoded_IsJPEG d;
     decoded_has_extra_channels := decoded_has_extra_channels d;
     epf_iters := epf_iters d;
     reference_frames := reference_frames d;
     allow_partial_frames_ := allow_partial_frames_ d;
     allow_partial_dc_global_ := allow_partial_dc_global_ d;
     pause_at_progressive_ := pause_at_progressive_ d;
     section_offsets_ := section_offsets_ d;
     section_sizes_ := section_sizes_ d;
     decoded_dc_global_ := decoded_dc_global_ d;
     decoded_ac_global_ := decoded_ac_global_ d;
     finalized_dc_ := finalized_dc_ d;
     is_finalized_ := is_finalized_ d;
     allocated_ := allocated_ d;
     decoded_dc_groups_ := decoded_dc_groups_ d;
     decoded_passes_per_ac_group_ := decoded_passes_per_ac_group_ d;
     processed_section_ := processed_section_ d;
     num_sections_done_ := num_sections_done_ d;
     max_passes_ := v;
     num_renders_ := num_renders_ d |}.

Definition set_num_renders (v : nat) (d : FrameDecoder) : FrameDecoder :=
  {| frame_header_ := frame_header_ d;
     frame_dim_ := frame_dim_ d;
     decoded_IsJPEG := decoded_IsJPEG d;
     decoded_has_extra_channels := decoded_has_extra_channels d;
     epf_iters := epf_iters d;
     reference_frames := reference_frames d;
     allow_partial_frames_ := allow_partial_frames_ d;
     allow_partial_dc_global_ := allow_partial_dc_global_ d;
     pause_at_progressive_ := pause_at_progressive_ d;
     section_offsets_ := section_offsets_ d;
     section_sizes_ := section_sizes_ d;
     decoded_dc_global_ := decoded_dc_global_ d;
     decoded_ac_global_ := decoded_ac_global_ d;
     finalized_dc_ := finalized_dc_ d;
     is_finalized_ := is_finalized_ d;
     allocated_ := allocated_ d;
     decoded_dc_groups_ := decoded_dc_groups_ d;
     decoded_passes_per_ac_group_ := decoded_passes_per_ac_group_ d;
     processed_section_ := processed_section_ d;
     num_sections_done_ := num_sections_done_ d;
     max_passes_ := max_passes_ d;
     num_renders_ := v |}.

Definition set_frame_header (v : FrameHeader) (d : FrameDecoder) : FrameDecoder :=
  {| frame_header_ := v;
     frame_dim_ := frame_dim_ d;
     decoded_IsJPEG := decoded_IsJPEG d;
     decoded_has_extra_channels := decoded_has_extra_channels d;
     epf_iters := epf_iters d;
     reference_frames := reference_frames d;
     allow_partial_frames_ := allow_partial_frames_ d;
     allow_partial_dc_global_ := allow_partial_dc_global_ d;
     pause_at_progressive_ := pause_at_progressive_ d;
     section_offsets_ := section_offsets_ d;
     section_sizes_ := section_sizes_ d;
     decoded_dc_global_ := decoded_dc_global_ d;
     decoded_ac_global_ := decoded_ac_global_ d;
     finalized_dc_ := finalized_dc_ d;
     is_finalized_ := is_finalized_ d;
     allocated_ := allocated_ d;
     decoded_dc_groups_ := decoded_dc_groups_ d;
     decoded_passes_per_ac_group_ := decoded_passes_per_ac_group_ d;
     processed_section_ := processed_section_ d;
     num_sections_done_ := num_sections_done_ d;
     max_passes_ := max_passes_ d;
     num_renders_ := num_renders_ d |}.

Definition set_frame_dim (v : FrameDimensions) (d : FrameDecoder) : FrameDecoder :=
  {| frame_header_ := frame_header_ d;
     frame_dim_ := v;
     decoded_IsJPEG := decoded_IsJPEG d;
     decoded_has_extra_channels := decoded_has_extra_channels d;
     epf_iters := epf_iters d;
     reference_frames := reference_frames d;
     allow_partial_frames_ := allow_partial_frames_ d;
     allow_partial_dc_global_ := allow_partial_dc_global_ d;
     pause_at_progressive_ := pause_at_progressive_ d;
     section_offsets_ := section_offsets_ d;
     section_sizes_ := section_sizes_ d;
     decoded_dc_global_ := decoded_dc_global_ d;
     decoded_ac_global_ := decoded_ac_global_ d;
     finalized_dc_ := finalized_dc_ d;
     is_finalized_ := is_finalized_ d;
     allocated_ := allocated_ d;
     decoded_dc_groups_ := decoded_dc_groups_ d;
     decoded_passes_per_ac_group_ := decoded_passes_per_ac_group_ d;
     processed_section_ := processed_section_ d;
     num_sections_done_ := num_sections_done_ d;
     max_passes_ := max_passes_ d;
     num_renders_ := num_renders_ d |}.

Definition set_decoded_IsJPEG (v : bool) (d : FrameDecoder) : FrameDecoder :=
  {| frame_header_ := frame_header_ d;
     frame_dim_ := frame_dim_ d;
     decoded_IsJPEG := v;
     decoded_has_extra_channels := decoded_has_extra_channels d;
     epf_iters := epf_iters d;
     reference_frames := reference_frames d;
     allow_partial_frames_ := allow_partial_frames_ d;
     allow_partial_dc_global_ := allow_partial_dc_global_ d;
     pause_at_progressive_ := pause_at_progressive_ d;
     section_offsets_ := section_offsets_ d;
     section_sizes_ := section_sizes_ d;
     decoded_dc_global_ := decoded_dc_global_ d;
     decoded_ac_global_ := decoded_ac_global_ d;
     finalized_dc_ := finalized_dc_ d;
     is_finalized_ := is_finalized_ d;
     allocated_ := allocated_ d;
     decoded_dc_groups_ := decoded_dc_groups_ d;
     decoded_passes_per_ac_group_ := decoded_passes_per_ac_group_ d;
     processed_section_ := processed_section_ d;
     num_sections_done_ := num_sections_done_ d;
     max_passes_ := max_passes_ d;
     num_renders_ := num_renders_ d |}.

Definition set_decoded_has_extra_channels (v : bool) (d : FrameDecoder) : FrameDecoder :=
  {| frame_header_ := frame_header_ d;
     frame_dim_ := frame_dim_ d;
     decoded_IsJPEG := decoded_IsJPEG d;
     decoded_has_extra_channels := v;
     epf_iters := epf_iters d;
     reference_frames := reference_frames d;
     allow_partial_frames_ := allow_partial_frames_ d;
     allow_partial_dc_global_ := allow_partial_dc_global_ d;
     pause_at_progressive_ := pause_at_progressive_ d;
     section_offsets_ := section_offsets_ d;
     section_sizes_ := section_sizes_ d;
     decoded_dc_global_ := decoded_dc_global_ d;
     decoded_ac_global_ := decoded_ac_global_ d;
     finalized_dc_ := finalized_dc_ d;
     is_finalized_ := is_finalized_ d;
     allocated_ := allocated_ d;
     decoded_dc_groups_ := decoded_dc_groups_ d;
     decoded_passes_per_ac_group_ := decoded_passes_per_ac_group_ d;
     processed_section_ := processed_section_ d;
     num_sections_done_ := num_sections_done_ d;
     max_passes_ := max_passes_ d;
     num_renders_ := num_renders_ d |}.

Definition set_allow_partial_frames (v : bool) (d : FrameDecoder) : FrameDecoder :=
  {| frame_header_ := frame_header_ d;
     frame_dim_ := frame_dim_ d;
     decoded_IsJPEG := decoded_IsJPEG d;
     decoded_has_extra_channels := decoded_has_extra_channels d;
     epf_iters := epf_iters d;
     reference_frames := reference_frames d;
     allow_partial_frames_ := v;
     allow_partial_dc_global_ := allow_partial_dc_global_ d;
     pause_at_progressive_ := pause_at_progressive_ d;
     section_offsets_ := section_offsets_ d;
     section_sizes_ := section_sizes_ d;
     decoded_dc_global_ := decoded_dc_global_ d;
     decoded_ac_global_ := decoded_ac_global_ d;
     finalized_dc_ := finalized_dc_ d;
     is_finalized_ := is_finalized_ d;
     allocated_ := allocated_ d;
     decoded_dc_groups_ := decoded_dc_groups_ d;
     decoded_passes_per_ac_group_ := decoded_passes_per_ac_group_ d;
     processed_section_ := processed_section_ d;
     num_sections_done_ := num_sections_done_ d;
     max_passes_ := max_passes_ d;
     num_renders_ := num_renders_ d |}.

Definition set_allow_partial_dc_global (v : bool) (d : FrameDecoder) : FrameDecoder :=
  {| frame_header_ := frame_header_ d;
     frame_dim_ := frame_dim_ d;
     decoded_IsJPEG := decoded_IsJPEG d;
     decoded_has_extra_channels := decoded_has_extra_channels d;
     epf_iters := epf_iters d;
     reference_frames := reference_frames d;
     allow_partial_frames_ := allow_partial_frames_ d;
     allow_partial_dc_global_ := v;
     pause_at_progressive_ := pause_at_progressive_ d;
     section_offsets_ := section_offsets_ d;
     section_sizes_ := section_sizes_ d;
     decoded_dc_global_ := decoded_dc_global_ d;
     decoded_ac_global_ := decoded_ac_global_ d;
     finalized_dc_ := finalized_dc_ d;
     is_finalized_ := is_finalized_ d;
     allocated_ := allocated_ d;
     decoded_dc_groups_ := decoded_dc_groups_ d;
     decoded_passes_per_ac_group_ := decoded_passes_per_ac_group_ d;
     processed_section_ := processed_section_ d;
     num_sections_done_ := num_sections_done_ d;
     max_passes_ := max_passes_ d;
     num_renders_ := num_renders_ d |}.

Definition set_pause_at_progressive (v : bool) (d : FrameDecoder) : FrameDecoder :=
  {| frame_header_ := frame_header_ d;
     frame_dim_ := frame_dim_ d;
     decoded_IsJPEG := decoded_IsJPEG d;
     decoded_has_extra_channels := decoded_has_extra_channels d;
     epf_iters := epf_iters d;
     reference_frames := reference_frames d;
     allow_partial_frames_ := allow_partial_frames_ d;
     allow_partial_dc_global_ := allow_partial_dc_global_ d;
     pause_at_progressive_ := v;
     section_offsets_ := section_offsets_ d;
     section_sizes_ := section_sizes_ d;
     decoded_dc_global_ := decoded_dc_global_ d;
     decoded_ac_global_ := decoded_ac_global_ d;
     finalized_dc_ := finalized_dc_ d;
     is_finalized_ := is_finalized_ d;
     allocated_ := allocated_ d;
     decoded_dc_groups_ := decoded_dc_groups_ d;
     decoded_passes_per_ac_group_ := decoded_passes_per_ac_group_ d;
     processed_section_ := processed_section_ d;
     num_sections_done_ := num_sections_done_ d;
     max_passes_ := max_passes_ d;
     num_renders_ := num_renders_ d |}.

Definition set_section_offsets (v : list N) (d : FrameDecoder) : FrameDecoder :=
  {| frame_header_ := frame_header_ d;
     frame_dim_ := frame_dim_ d;
     decoded_IsJPEG := decoded_IsJPEG d;
     decoded_has_extra_channels := decoded_has_extra_channels d;
     epf_iters := epf_iters d;
     reference_frames := reference_frames d;
     allow_partial_frames_ := allow_partial_frames_ d;
     allow_partial_dc_global_ := allow_partial_dc_global_ d;
     pause_at_progressive_ := pause_at_progressive_ d;
     section_offsets_ := v;
     section_sizes_ := section_sizes_ d;
     decoded_dc_global_ := decoded_dc_global_ d;
     decoded_ac_global_ := decoded_ac_global_ d;
     finalized_dc_ := finalized_dc_ d;
     is_finalized_ := is_finalized_ d;
     allocated_ := allocated_ d;
     decoded_dc_groups_ := decoded_dc_groups_ d;
     decoded_passes_per_ac_group_ := decoded_passes_per_ac_group_ d;
     processed_section_ := processed_section_ d;
     num_sections_done_ := num_sections_done_ d;
     max_passes_ := max_passes_ d;
     num_renders_ := num_renders_ d |}.

Definition set_section_sizes (v : list N) (d : FrameDecoder) : FrameDecoder :=
  {| frame_header_ := frame_header_ d;
     frame_dim_ := frame_dim_ d;
     decoded_IsJPEG := decoded_IsJPEG d;
     decoded_has_extra_channels := decoded_has_extra_channels d;
     epf_iters := epf_iters d;
     reference_frames := reference_frames d;
     allow_partial_frames_ := allow_partial_frames_ d;
     allow_partial_dc_global_ := allow_partial_dc_global_ d;
     pause_at_progressive_ := pause_at_progressive_ d;
     section_offsets_ := section_offsets_ d;
     section_sizes_ := v;
     decoded_dc_global_ := decoded_dc_global_ d;
     decoded_ac_global_ := decoded_ac_global_ d;
     finalized_dc_ := finalized_dc_ d;
     is_finalized_ := is_finalized_ d;
     allocated_ := allocated_ d;
     decoded_dc_groups_ := decoded_dc_groups_ d;
     decoded_passes_per_ac_group_ := decoded_passes_per_ac_group_ d;
     processed_section_ := processed_section_ d;
     num_sections_done_ := num_sections_done_ d;
     max_passes_ := max_passes_ d;
     num_renders_ := num_renders_ d |}.

(** Modelled from the spec: [SetPauseAtProgressive] lives in dec_frame.h. *)
Definition SetPauseAtProgressive (d : FrameDecoder) : FrameDecoder :=
  set_pause_at_progressive true d.

(** ** Queries *)

(** [FrameDecoder::HasEverything]. *)
Definition HasEverything (d : FrameDecoder) : bool :=
  if negb (decoded_dc_global_ d) then false
  else if negb (decoded_ac_global_ d) then false
  else if negb (forallb (fun have_dc_group => have_dc_group) (decoded_dc_groups_ d))
  then false
  else forallb (fun nb_passes => negb (nb_passes <? max_passes_ d))
               (decoded_passes_per_ac_group_ d).

(** The loop over [extra_channel_blending_info] in [References]:
    [result] is threaded through the iterations. *)
Fixpoint References_extra (cropped : bool) (extra : list BlendingInfo)
    (result : Z) : Z :=
  match extra with
  | [] => result
  | e :: rest =>
      References_extra cropped rest
        (if cropped || negb (BlendMode_eqb (mode e) kReplace)
         then Z.lor result (Z.shiftl 1 (source e))
         else result)
  end.

(** [FrameDecoder::References].  [patches_GetReferences] is the value of
    [dec_state_->shared->image_features.patches.GetReferences()].
    The result is an [int]; for headers accepted by the bitstream reader
    ([source < 4], [dc_level <= 4]) every operand is below [2^9], so the
    unbounded operations on [Z] are the machine operations. *)
Definition References (patches_GetReferences : Z) (d : FrameDecoder) : Z :=
  if is_finalized_ d then 0%Z
  else if negb (HasEverything d) then 0%Z
  else
    let h := frame_header_ d in
    let result := 0%Z in
    (* Blending *)
    let result :=
      if FrameType_eqb (frame_type h) kRegularFrame
         || FrameType_eqb (frame_type h) kSkipProgressive
      then
        let cropped := custom_size_or_origin h in
        let result :=
          if cropped || negb (BlendMode_eqb (mode (blending_info h)) kReplace)
          then Z.lor result (Z.shiftl 1 (source (blending_info h)))
          else result in
        References_extra cropped (extra_channel_blending_info h) result
      else result in
    (* Patches *)
    let result :=
      if has_flag (flags h) Flags.kPatches
      then Z.lor result patches_GetReferences
      else result in
    (* DC Level *)
    if has_flag (flags h) Flags.kUseDcFrame
    then
      let dc_level := (Z.of_N (dc_level h) + 1)%Z in
      Z.lor result (Z.shiftl 16 (dc_level - 1))
    else result.

(** [FrameDecoder::SavedAs]. *)
Definition SavedAs (header : FrameHeader) : Z :=
  if FrameType_eqb (frame_type header) kDCFrame
  then Z.shiftl 16 (Z.of_N (dc_level header) - 1)
  else if CanBeReferenced header
  then Z.shiftl 1 (Z.of_nat (save_as_reference header))
  else 0%Z.

(** Modelled from the spec: [FrameDecoder::SetMaxPasses] lives in
    dec_frame.h; the scheduler's pass cap is clipped to the header's
    number of passes. *)
Definition SetMaxPasses (max_passes : nat) (d : FrameDecoder) : FrameDecoder :=
  set_max_passes (Nat.min max_passes (num_passes (passes (frame_header_ d)))) d.

(** ** Sections and external collaborators *)

(** A [BitReader*] is modelled by a handle naming the byte range it views;
    what decoding from it yields is decided by the environment. *)
Definition BitReader : Type := nat.

Record SectionInfo := {
  br : BitReader;
  id : nat
}.

Inductive SectionStatus := kDone | kSkipped | kDuplicate | kPartial.

Definition SectionStatus_eqb (a b : SectionStatus) : bool :=
  match a, b with
  | kDone, kDone | kSkipped, kSkipped | kDuplicate, kDuplicate
  | kPartial, kPartial => true
  | _, _ => false
  end.

(** Outcomes of the calls the orchestrator makes into the sub-decoders
    during one invocation of [ProcessSections], [Flush] or
    [FinalizeFrame]. *)
Record Externals := {
  (* ProcessDCGlobal: patches, the extra-channel upsampling check, splines,
     noise, DC dequant matrices, DecodeGlobalDCInfo, the splines draw
     cache: the status of the first step that does not succeed, else OK *)
  dc_global_features : BitReader -> Status;
  modular_DecodeGlobalInfo : BitReader -> Status;
  (* ProcessDCGroup: DecodeVarDCTDC, DecodeGroup, DecodeAcMetadata *)
  dc_group_decode : nat -> BitReader -> Status;
  PreparePipeline : Status;
  InitForAC : Status;
  (* ProcessACGlobal: the kVarDCT block (dequantisation matrices,
     coefficient orders and histograms) *)
  ac_global_decode : BitReader -> Status;
  (* ProcessACGlobal, JPEG target: the raw table of matrices.encodings()[0],
     if that encoding passes the test on its mode and denominator *)
  raw_qtable : option (list Z);
  (* JpegOrder(frame_header_.color_transform, is_gray) *)
  JpegOrder : list nat;
  (* the quant_idx of jpeg_data->components, and jpeg_data->quant *)
  components_quant_idx : list nat;
  jpeg_quant : list (list Z);
  (* ProcessACGroup: DecodeGroup and the modular DecodeGroup calls, for
     group, readers, num_passes, force_draw, dc_only *)
  ac_group_decode : nat -> list BitReader -> nat -> bool -> bool -> Status;
  modular_FinalizeDecoding : Status
}.

(** Result of a member function returning [Status]: the process aborted
    on an assertion, or the call returned leaving the decoder in [d]. *)
Inductive Result :=
| Aborted
| Returned (r : Status) (d : FrameDecoder).

(** ** The JPEG quantisation tables of [ProcessACGlobal] *)

(** The two inner loops over [x] and [y]:
    "quant[qpos].values[x * 8 + y] = qtable[quant_c * 64 + y * 8 + x]". *)
Definition set_quant_values (qtable : list Z) (quant_c : nat)
    (values : list Z) : list Z :=
  foldl (fun values x =>
           foldl (fun values y =>
                    <[x * 8 + y :=
                        default 0%Z (qtable !! (quant_c * 64 + y * 8 + x))]> values)
                 values (seq 0 8))
        values (seq 0 8).

(** The position of component [c]'s table:
    "jpeg_data->components[jpeg_c_map[c]].quant_idx". *)
Definition component_qpos (jpeg_c_map quant_idx : list nat) (c : nat) : nat :=
  default 0 (quant_idx !! default 0 (jpeg_c_map !! c)).

(** The loop over the components [cs]: [None] when
    [JXL_CHECK(qpos != jpeg_data->quant.size())] fails, else [qt_set] and
    the tables.  A position beyond the tables is outside what the code
    defines; the model leaves the tables alone there. *)
Fixpoint set_component_tables (qtable : list Z) (is_gray : bool)
    (jpeg_c_map quant_idx : list nat) (cs : list nat) (qt_set : Z)
    (quant : list (list Z)) : option (Z * list (list Z)) :=
  match cs with
  | [] => Some (qt_set, quant)
  | c :: rest =>
      let quant_c := if is_gray then 1 else c in
      let qpos := component_qpos jpeg_c_map quant_idx c in
      if qpos =? length quant then None
      else
        set_component_tables qtable is_gray jpeg_c_map quant_idx rest
          (Z.lor qt_set (Z.shiftl 1 (Z.of_nat qpos)))
          (<[qpos := set_quant_values qtable quant_c (default [] (quant !! qpos))]>
             quant)
  end.

(** The loop over the table positions [indices]: a table that no
    component uses is a copy of the table before it; the first table must
    be used. *)
Fixpoint copy_unused_tables (qt_set : Z) (indices : list nat)
    (quant : list (list Z)) : Status * list (list Z) :=
  match indices with
  | [] => (StatusOk, quant)
  | i :: rest =>
      if negb (Z.land qt_set (Z.shiftl 1 (Z.of_nat i)) =? 0)%Z
      then copy_unused_tables qt_set rest quant
      else if i =? 0 then (JXL_FAILURE "First quant table unused.", quant)
      else copy_unused_tables qt_set rest
             (<[i := default [] (quant !! (i - 1))]> quant)
  end.

(** The part of [ProcessACGlobal] that sets the quantisation tables of
    the JPEG target, after the test of the raw table's mode and
    denominator; [quant_idx] lists the [quant_idx] of the components and
    [jpeg_c_map] is the component order. *)
Definition set_jpeg_quant_tables (qtable : list Z)
    (jpeg_c_map quant_idx : list nat) (quant : list (list Z))
    : option (Status * list (list Z)) :=
  let num_components := length quant_idx in
  let is_gray := num_components =? 1 in
  match set_component_tables qtable is_gray jpeg_c_map quant_idx
          (seq 0 num_components) 0 quant with
  | None => None
  | Some (qt_set, quant) =>
      Some (copy_unused_tables qt_set (seq 0 (length quant)) quant)
  end.

(** ** Stage executors *)

(** [FrameDecoder::ProcessDCGlobal]. *)
Definition ProcessDCGlobal (env : Externals) (reader : BitReader)
    (d : FrameDecoder) : Status * FrameDecoder :=
  match dc_global_features env reader with
  | StatusOk =>
      let dec_status := modular_DecodeGlobalInfo env reader in
      if IsFatalError dec_status then (dec_status, d)
      else if ok dec_status then (dec_status, set_decoded_dc_global true d)
      else (dec_status, d)
  | err => (err, d)
  end.

(** [FrameDecoder::ProcessDCGroup]. *)
Definition ProcessDCGroup (env : Externals) (dc_group_id : nat)
    (reader : BitReader) (d : FrameDecoder) : Status * FrameDecoder :=
  match dc_group_decode env dc_group_id reader with
  | StatusOk =>
      (StatusOk,
       set_decoded_dc_groups (<[dc_group_id := true]> (decoded_dc_groups_ d)) d)
  | err => (err, d)
  end.

(** [FrameDecoder::FinalizeDC]; the smoothing pass acts on DC storage. *)
Definition FinalizeDC (d : FrameDecoder) : FrameDecoder :=
  set_finalized_dc true d.

(** [FrameDecoder::AllocateOutput]. *)
Definition AllocateOutput (env : Externals) (d : FrameDecoder)
    : Status * FrameDecoder :=
  if allocated_ d then (StatusOk, d)
  else match InitForAC env with
       | StatusOk => (StatusOk, set_allocated true d)
       | err => (err, d)
       end.

(** [FrameDecoder::ProcessACGlobal]; [JXL_CHECK(finalized_dc_)] first.
    For a JPEG target the quantisation tables are set as
    [set_jpeg_quant_tables] does, whose [JXL_CHECK] stops the process; the
    tables themselves live in the JPEG data of the output bundle. *)
Definition ProcessACGlobal (env : Externals) (reader : BitReader)
    (d : FrameDecoder) : Result :=
  if negb (finalized_dc_ d) then Aborted
  else
    let varDCT_status :=
      if FrameEncoding_eqb (encoding (frame_header_ d)) kVarDCT
      then ac_global_decode env reader else StatusOk in
    match varDCT_status with
    | StatusOk =>
        if decoded_IsJPEG d then
          match raw_qtable env with
          | None =>
              Returned
                (JXL_FAILURE "Quantization table is not a JPEG quantization table.")
                d
          | Some qtable =>
              match set_jpeg_quant_tables qtable (JpegOrder env)
                      (components_quant_idx env) (jpeg_quant env) with
              | None => Aborted       (* JXL_CHECK(qpos != quant.size()) *)
              | Some (StatusOk, _) =>
                  Returned StatusOk (set_decoded_ac_global true d)
              | Some (err, _) => Returned err d
              end
          end
        else Returned StatusOk (set_decoded_ac_global true d)
    | err => Returned err d
    end.

(** [FrameDecoder::ProcessACGroup].  Every failing step precedes the
    update of the pass counter; nothing after it can fail. *)
Definition ProcessACGroup (env : Externals) (ac_group_id : nat)
    (readers : list BitReader) (num_passes : nat) (force_draw dc_only : bool)
    (d : FrameDecoder) : Status * FrameDecoder :=
  match ac_group_decode env ac_group_id readers num_passes force_draw dc_only with
  | StatusOk =>
      let decoded := default 0 (decoded_passes_per_ac_group_ d !! ac_group_id) in
      (StatusOk,
       set_decoded_passes_per_ac_group
         (<[ac_group_id := decoded + num_passes]> (decoded_passes_per_ac_group_ d)) d)
  | err => (err, d)
  end.

(** The loop of [FrameDecoder::MarkSections]. *)
Fixpoint MarkSections_loop (sections : list SectionInfo)
    (section_status : list SectionStatus) (d : FrameDecoder) : FrameDecoder :=
  match sections, section_status with
  | s :: sections', st :: section_status' =>
      MarkSections_loop sections' section_status'
        (if SectionStatus_eqb st kSkipped || SectionStatus_eqb st kPartial
         then set_num_sections_done (pred (num_sections_done_ d))
                (set_processed_section (<[id s := false]> (processed_section_ d)) d)
         else d)
  | _, _ => d
  end.

(** [FrameDecoder::MarkSections]. *)
Definition MarkSections (sections : list SectionInfo)
    (section_status : list SectionStatus) (d : FrameDecoder) : FrameDecoder :=
  MarkSections_loop sections section_status
    (set_num_sections_done (length sections) d).

(** ** Section scheduler *)

(** The local index tables of [ProcessSections].  An entry equal to
    [num] (the batch length) means "no section of the batch". *)
Record Schedule := {
  dc_global_sec : nat;
  ac_global_sec : nat;
  dc_group_sec : list nat;
  ac_group_sec : list (list nat);
  num_ac_passes : list nat
}.

(** The tables as declared at the top of [ProcessSections]. *)
Definition Schedule_init (num : nat) (d : FrameDecoder) : Schedule :=
  {| dc_global_sec := num;
     ac_global_sec := num;
     dc_group_sec := replicate (num_dc_groups (frame_dim_ d)) num;
     ac_group_sec :=
       replicate (num_groups (frame_dim_ d))
                 (replicate (num_passes (passes (frame_header_ d))) num);
     num_ac_passes := replicate (num_groups (frame_dim_ d)) 0 |}.

Definition set_dc_global_sec (v : nat) (s : Schedule) : Schedule :=
  {| dc_global_sec := v; ac_global_sec := ac_global_sec s;
     dc_group_sec := dc_group_sec s; ac_group_sec := ac_group_sec s;
     num_ac_passes := num_ac_passes s |}.

Definition set_ac_global_sec (v : nat) (s : Schedule) : Schedule :=
  {| dc_global_sec := dc_global_sec s; ac_global_sec := v;
     dc_group_sec := dc_group_sec s; ac_group_sec := ac_group_sec s;
     num_ac_passes := num_ac_passes s |}.

Definition set_dc_group_sec (v : list nat) (s : Schedule) : Schedule :=
  {| dc_global_sec := dc_global_sec s; ac_global_sec := ac_global_sec s;
     dc_group_sec := v; ac_group_sec := ac_group_sec s;
     num_ac_passes := num_ac_passes s |}.

Definition set_ac_group_sec (v : list (list nat)) (s : Schedule) : Schedule :=
  {| dc_global_sec := dc_global_sec s; ac_global_sec := ac_global_sec s;
     dc_group_sec := dc_group_sec s; ac_group_sec := v;
     num_ac_passes := num_ac_passes s |}.

Definition set_num_ac_passes (v : list nat) (s : Schedule) : Schedule :=
  {| dc_global_sec := dc_global_sec s; ac_global_sec := ac_global_sec s;
     dc_group_sec := dc_group_sec s; ac_group_sec := ac_group_sec s;
     num_ac_passes := v |}.

(** State of the scheduler while a batch is being handled: the decoder,
    the caller's status array and the index tables. *)
Record Batch := {
  dec : FrameDecoder;
  section_status : list SectionStatus;
  sched : Schedule
}.

(** Control flow inside [ProcessSections]: an assertion aborted the
    process, the function returned the error [r], the function reached
    "MarkSections(...); return true;", or execution falls through to the
    next statement. *)
Inductive Step :=
| StepAbort
| StepReturn (r : Status) (b : Batch)
| StepMarkAndReturn (b : Batch)
| StepNext (b : Batch).

Definition and_then (s : Step) (k : Batch -> Step) : Step :=
  match s with
  | StepNext b => k b
  | stop => stop
  end.

(** One iteration of the classification loop of the multi-section path,
    for batch entry [i].  The branches that write a table do so inside
    it: [id s - 1 < num_dc_groups], [acp < num_passes], and [acg] is
    below [num_groups] (at least 1 for any frame). *)
Definition classify_section (i : nat) (s : SectionInfo) (b : Batch)
    : Step :=
  let d := dec b in
  let ac_global_index := num_dc_groups (frame_dim_ d) + 1 in
  if negb (id s <? length (processed_section_ d)) then StepAbort
  else if default false (processed_section_ d !! id s) then
    StepNext {| dec := d;
                section_status := <[i := kDuplicate]> (section_status b);
                sched := sched b |}
  else
    let mark (sc : Schedule) :=
      StepNext {| dec := set_processed_section
                           (<[id s := true]> (processed_section_ d)) d;
                  section_status := section_status b;
                  sched := sc |} in
    if id s =? 0 then mark (set_dc_global_sec i (sched b))
    else if id s <? ac_global_index then
      mark (set_dc_group_sec (<[id s - 1 := i]> (dc_group_sec (sched b))) (sched b))
    else if id s =? ac_global_index then mark (set_ac_global_sec i (sched b))
    else
      let ac_idx := id s - ac_global_index - 1 in
      let acg := ac_idx mod num_groups (frame_dim_ d) in
      let acp := ac_idx / num_groups (frame_dim_ d) in
      if negb (acp <? num_passes (passes (frame_header_ d))) then
        StepReturn (JXL_FAILURE "Invalid section ID") b
      else if negb (acp <? max_passes_ d) then StepNext b
      else
        mark (set_ac_group_sec
                (<[acg := <[acp := i]> (default [] (ac_group_sec (sched b) !! acg))]>
                   (ac_group_sec (sched b)))
                (sched b)).

(** The classification loop over the batch, from entry [i] on. *)
Fixpoint classify_sections (i : nat) (sections : list SectionInfo)
    (b : Batch) : Step :=
  match sections with
  | [] => StepNext b
  | s :: rest =>
      and_then (classify_section i s b) (classify_sections (S i) rest)
  end.

(** The inner loop counting new passes of one group: [j] advances while
    [j + decoded < max_passes_] and the table holds a section for pass
    [j + decoded]; [fuel] is the number of iterations the loop condition
    still allows.  [max_passes_ <= num_passes] keeps the index inside the
    row. *)
Fixpoint count_new_passes (num : nat) (row : list nat) (decoded : nat)
    (fuel j : nat) : nat :=
  match fuel with
  | 0 => j
  | S fuel' =>
      if default num (row !! (j + decoded)) =? num then j
      else count_new_passes num row decoded fuel' (S j)
  end.

(** "Count number of new passes per group." *)
Definition count_num_ac_passes (num : nat) (d : FrameDecoder)
    (sc : Schedule) : list nat :=
  imap (fun g row =>
          let decoded := default 0 (decoded_passes_per_ac_group_ d !! g) in
          count_new_passes num row decoded (max_passes_ d - decoded) 0)
       (ac_group_sec sc).

(** The single-section branch: the one section serves every role. *)
Definition classify_single (sections : list SectionInfo) (b : Batch)
    : Step :=
  if negb (length sections =? 1) then StepAbort      (* JXL_ASSERT(num == 1) *)
  else match sections with
  | s :: _ =>
      if negb (id s =? 0) then StepAbort       (* JXL_ASSERT(sections[0].id == 0) *)
      else if negb (default false (processed_section_ (dec b) !! 0)) then
        StepNext
          {| dec := set_processed_section
                      (<[0 := true]> (processed_section_ (dec b))) (dec b);
             section_status := section_status b;
             sched :=
               {| dc_global_sec := 0;
                  ac_global_sec := 0;
                  dc_group_sec := <[0 := 0]> (dc_group_sec (sched b));
                  ac_group_sec :=
                    <[0 := <[0 := 0]>
                             (resize 1 0 (default [] (ac_group_sec (sched b) !! 0)))]>
                      (ac_group_sec (sched b));
                  num_ac_passes := <[0 := 1]> (num_ac_passes (sched b)) |} |}
      else
        StepNext {| dec := dec b;
                    section_status := <[0 := kDuplicate]> (section_status b);
                    sched := sched b |}
  | [] => StepAbort
  end.

(** Modelled from the spec: [RunOnPool] (base/data_parallel.h) runs the
    body once for every index of [[begin, end)]; the bodies used here write
    disjoint slots, so running them in index order gives the state after
    the join.  The init hooks used here always succeed, hence so does the
    region. *)
Definition RunOnPool {S : Type} (begin end_ : nat) (body : nat -> S -> S)
    (s : S) : S :=
  foldl (fun acc i => body i acc) s (seq begin (end_ - begin)).

(** State of a parallel region: the batch and the [has_error] atomic. *)
Record Region := {
  batch : Batch;
  has_error : bool
}.

(** Body of the "DecodeDCGroup" region. *)
Definition dc_group_body (env : Externals) (sections : list SectionInfo)
    (i : nat) (r : Region) : Region :=
  let b := batch r in
  let num := length sections in
  let sec := default num (dc_group_sec (sched b) !! i) in
  if sec =? num then r
  else
    let reader := default 0 (br <$> sections !! sec) in
    match ProcessDCGroup env i reader (dec b) with
    | (StatusOk, d') =>
        {| batch := {| dec := d';
                       section_status := <[sec := kDone]> (section_status b);
                       sched := sched b |};
           has_error := has_error r |}
    | (_, d') =>
        {| batch := {| dec := d'; section_status := section_status b;
                       sched := sched b |};
           has_error := true |}
    end.

(** Body of the "DecodeGroup" region; [None] when the [JXL_ASSERT] on the
    pass table fails. *)
Definition ac_group_body (env : Externals) (sections : list SectionInfo)
    (g : nat) (r : option Region) : option Region :=
  match r with
  | None => None
  | Some r =>
      let b := batch r in
      let num := length sections in
      let n := default 0 (num_ac_passes (sched b) !! g) in
      if n =? 0 then Some r
      else
        let first_pass := default 0 (decoded_passes_per_ac_group_ (dec b) !! g) in
        let row := default [] (ac_group_sec (sched b) !! g) in
        let secs := (fun i => default num (row !! (first_pass + i))) <$> seq 0 n in
        if existsb (fun sec => sec =? num) secs then None
        else
          let readers := (fun sec => default 0 (br <$> sections !! sec)) <$> secs in
          match ProcessACGroup env g readers n false false (dec b) with
          | (StatusOk, d') =>
              Some {| batch :=
                        {| dec := d';
                           section_status :=
                             foldl (fun st sec => <[sec := kDone]> st)
                                   (section_status b) secs;
                           sched := sched b |};
                      has_error := has_error r |}
          | (_, d') =>
              Some {| batch := {| dec := d'; section_status := section_status b;
                                  sched := sched b |};
                      has_error := true |}
          end
  end.

(** Result of [ProcessSections]: the returned status, the decoder and the
    caller's status array. *)
Inductive SectionsResult :=
| SectionsAborted
| SectionsReturned (r : Status) (d : FrameDecoder)
                   (section_status : list SectionStatus).

(** The "can return DC" decision taken right after [FinalizeDC]. *)
Definition can_return_dc (single_section : bool) (d : FrameDecoder) : bool :=
  let can := true in
  let can := if single_section then false else can in
  let can := if decoded_has_extra_channels d then false else can in
  if negb (FrameEncoding_eqb (encoding (frame_header_ d)) kVarDCT) then false
  else can.

Definition set_dec (d : FrameDecoder) (b : Batch) : Batch :=
  {| dec := d; section_status := section_status b; sched := sched b |}.

Definition set_status (i : nat) (st : SectionStatus) (b : Batch) : Batch :=
  {| dec := dec b; section_status := <[i := st]> (section_status b);
     sched := sched b |}.

(** "if (dc_global_sec != num) ..." *)
Definition stage_dc_global (env : Externals) (sections : list SectionInfo)
    (b : Batch) : Step :=
  let num := length sections in
  if dc_global_sec (sched b) =? num then StepNext b
  else
    let reader := default 0 (br <$> sections !! dc_global_sec (sched b)) in
    let '(dc_global_status, d') := ProcessDCGlobal env reader (dec b) in
    if IsFatalError dc_global_status then StepReturn dc_global_status (set_dec d' b)
    else if ok dc_global_status
    then StepNext (set_status (dc_global_sec (sched b)) kDone (set_dec d' b))
    else StepNext (set_status (dc_global_sec (sched b)) kPartial (set_dec d' b)).

(** "if (decoded_dc_global_) RunOnPool(... DecodeDCGroup)" and the test of
    [has_error] that follows. *)
Definition stage_dc_groups (env : Externals) (sections : list SectionInfo)
    (b : Batch) : Step :=
  let r :=
    if decoded_dc_global_ (dec b)
    then RunOnPool 0 (length (dc_group_sec (sched b)))
           (dc_group_body env sections) {| batch := b; has_error := false |}
    else {| batch := b; has_error := false |} in
  if has_error r then StepReturn (JXL_FAILURE "Error in DC group") (batch r)
  else StepNext (batch r).

(** "if (*std::min_element(decoded_dc_groups_) && !finalized_dc_) ...":
    the minimum of the byte flags is non-zero when all of them are; the
    vector has one entry per DC group and a frame has at least one. *)
Definition stage_finalize_dc (env : Externals) (sections : list SectionInfo)
    (single_section : bool) (b : Batch) : Step :=
  if forallb (fun x => x) (decoded_dc_groups_ (dec b))
     && negb (finalized_dc_ (dec b))
  then
    match PreparePipeline env with
    | StatusOk =>
        let d1 := FinalizeDC (dec b) in
        match AllocateOutput env d1 with
        | (StatusOk, d2) =>
            if pause_at_progressive_ d2 && negb single_section
            then
              if can_return_dc single_section d2
              then StepMarkAndReturn (set_dec d2 b)
              else StepNext (set_dec d2 b)
            else StepNext (set_dec d2 b)
        | (err, d2) => StepReturn err (set_dec d2 b)
        end
    | err => StepReturn err b
    end
  else StepNext b.

(** "if (finalized_dc_ && ac_global_sec != num && !decoded_ac_global_)" *)
Definition stage_ac_global (env : Externals) (sections : list SectionInfo)
    (b : Batch) : Step :=
  let num := length sections in
  if finalized_dc_ (dec b) && negb (ac_global_sec (sched b) =? num)
     && negb (decoded_ac_global_ (dec b))
  then
    let reader := default 0 (br <$> sections !! ac_global_sec (sched b)) in
    match ProcessACGlobal env reader (dec b) with
    | Aborted => StepAbort
    | Returned StatusOk d' =>
        StepNext (set_status (ac_global_sec (sched b)) kDone (set_dec d' b))
    | Returned err d' => StepReturn err (set_dec d' b)
    end
  else StepNext b.

(** "if (decoded_ac_global_) RunOnPool(... DecodeGroup)" and the test of
    [has_error] that follows.  [ClearDone] acts on the render pipeline. *)
Definition stage_ac_groups (env : Externals) (sections : list SectionInfo)
    (b : Batch) : Step :=
  let r :=
    if decoded_ac_global_ (dec b)
    then RunOnPool 0 (length (ac_group_sec (sched b)))
           (ac_group_body env sections)
           (Some {| batch := b; has_error := false |})
    else Some {| batch := b; has_error := false |} in
  match r with
  | None => StepAbort
  | Some r =>
      if has_error r then StepReturn (JXL_FAILURE "Error in AC group") (batch r)
      else StepNext (batch r)
  end.

Definition is_single_section (d : FrameDecoder) : bool :=
  (num_groups (frame_dim_ d) =? 1)
  && (num_passes (passes (frame_header_ d)) =? 1).

(** The classification part of [ProcessSections], both branches. *)
Definition classify (sections : list SectionInfo) (b : Batch) : Step :=
  if is_single_section (dec b) then classify_single sections b
  else
    and_then (classify_sections 0 sections b)
      (fun b' =>
         StepNext
           {| dec := dec b'; section_status := section_status b';
              sched := set_num_ac_passes
                         (count_num_ac_passes (length sections) (dec b') (sched b'))
                         (sched b') |}).

(** The stages of [ProcessSections] that follow classification, up to
    the final "MarkSections(...); return true;". *)
Definition run_stages (env : Externals) (sections : list SectionInfo)
    (single_section : bool) (b : Batch) : Step :=
  and_then (stage_dc_global env sections b) (fun b =>
  and_then (stage_dc_groups env sections b) (fun b =>
  and_then (stage_finalize_dc env sections single_section b) (fun b =>
  and_then (stage_ac_global env sections b) (fun b =>
  and_then (stage_ac_groups env sections b) StepMarkAndReturn)))).

(** The batch with which [ProcessSections] starts: every status is
    [kSkipped] ("std::fill") and the tables are empty. *)
Definition Batch_init (sections : list SectionInfo) (d : FrameDecoder) : Batch :=
  {| dec := d;
     section_status := replicate (length sections) kSkipped;
     sched := Schedule_init (length sections) d |}.

(** [FrameDecoder::ProcessSections]. *)
Definition ProcessSections (env : Externals) (sections : list SectionInfo)
    (d : FrameDecoder) : SectionsResult :=
  let num := length sections in
  if num =? 0 then SectionsReturned StatusOk d []
  else
    let single_section := is_single_section d in
    match
      and_then (classify sections (Batch_init sections d))
               (run_stages env sections single_section)
    with
    | StepAbort => SectionsAborted
    | StepReturn r b => SectionsReturned r (dec b) (section_status b)
    | StepMarkAndReturn b | StepNext b =>
        SectionsReturned StatusOk
          (MarkSections sections (section_status b) (dec b)) (section_status b)
    end.

(** ** Flush and FinalizeFrame *)

(** [*std::min_element] over the pass counters (one per AC group, at
    least one group). *)
Definition min_element (l : list nat) : nat :=
  match l with
  | [] => 0
  | x :: rest => foldl Nat.min x rest
  end.

(** The [has_blending] computation at the top of [Flush]. *)
Definition has_blending (h : FrameHeader) : bool :=
  let has := negb (BlendMode_eqb (mode (blending_info h)) kReplace)
             || custom_size_or_origin h in
  foldl (fun has blending_info_ec =>
           if negb (BlendMode_eqb (mode blending_info_ec) kReplace) then true
           else has)
        has (extra_channel_blending_info h).

(** Body of the "ForceDrawGroup" region. *)
Definition force_draw_body (env : Externals) (g : nat)
    (r : FrameDecoder * bool) : FrameDecoder * bool :=
  let '(d, err) := r in
  if default 0 (decoded_passes_per_ac_group_ d !! g)
     =? num_passes (passes (frame_header_ d))
  then r
  else
    match ProcessACGroup env g [] 0 true (negb (decoded_ac_global_ d)) d with
    | (StatusOk, d') => (d', err)
    | (_, d') => (d', true)
    end.

(** [FrameDecoder::Flush]. *)
Definition Flush (env : Externals) (d : FrameDecoder) : Status * FrameDecoder :=
  if has_blending (frame_header_ d) && negb (is_finalized_ d)
  then (StatusOfBool false, d)
  else if FrameType_eqb (frame_type (frame_header_ d)) kSkipProgressive
          && negb (is_finalized_ d)
  then (StatusOk, d)
  else if decoded_IsJPEG d then (StatusOk, d)
  else
    match AllocateOutput env d with
    | (StatusOk, d1) =>
        let completely_decoded_ac_pass :=
          min_element (decoded_passes_per_ac_group_ d1) in
        let '(d2, err) :=
          if completely_decoded_ac_pass <? num_passes (passes (frame_header_ d1))
          then RunOnPool 0 (length (decoded_passes_per_ac_group_ d1))
                 (force_draw_body env) (d1, false)
          else (d1, false) in
        if err then (JXL_FAILURE "Drawing groups failed", d2)
        else
          match modular_FinalizeDecoding env with
          | StatusOk => (StatusOk, set_num_renders (S (num_renders_ d2)) d2)
          | e => (e, d2)
          end
    | (e, d1) => (e, d1)
    end.

(** The tail of [FinalizeFrame]: [Flush], then publication of the frame
    in its reference slot. *)
Definition FinalizeFrame_flush (env : Externals) (d : FrameDecoder) : Result :=
  match Flush env d with
  | (StatusOk, d) =>
      Returned StatusOk
        (if CanBeReferenced (frame_header_ d)
         then set_reference_frames
                (<[save_as_reference (frame_header_ d) :=
                     {| ib_is_in_xyb := save_before_color_transform (frame_header_ d);
                        has_frame := true |}]>
                   (reference_frames d)) d
         else d)
  | (e, d) => Returned e d
  end.

(** [FrameDecoder::FinalizeFrame]. *)
Definition FinalizeFrame (env : Externals) (d : FrameDecoder) : Result :=
  if is_finalized_ d
  then Returned (JXL_FAILURE "FinalizeFrame called multiple times") d
  else
    let d := set_is_finalized true d in
    if decoded_IsJPEG d then Returned StatusOk d
    else
      let d := if negb (finalized_dc_ d) then set_epf_iters 0 d else d in
      if negb (HasEverything d) && negb (allow_partial_frames_ d)
      then Returned
             (JXL_FAILURE "FinalizeFrame called before the frame was fully decoded")
             d
      else if negb (finalized_dc_ d) then
        if negb (allow_partial_frames_ d) then Aborted      (* JXL_ASSERT *)
        else match AllocateOutput env d with
             | (StatusOk, d) => FinalizeFrame_flush env d
             | (e, d) => Returned e d
             end
      else FinalizeFrame_flush env d.

(** ** The pass policy of [DecodeFrame] *)

Record DecompressParams := {
  max_passes : N;                  (* size_t *)
  max_downsampling : N;            (* size_t *)
  allow_partial_files : bool;
  allow_more_progressive_steps : bool
}.

Definition wrap32 (x : N) : N := (x mod 2 ^ 32)%N.
Definition wrap64 (x : N) : N := (x mod 2 ^ 64)%N.

(** The loop over the downsampling steps; [last_pass[i] + 1] is a
    [uint32_t] sum. *)
Fixpoint clip_max_passes (h : FrameHeader) (max_downsampling : N)
    (steps : list nat) (max_passes : N) : N :=
  match steps with
  | [] => max_passes
  | i :: rest =>
      let ds := default 0%N (downsample (passes h) !! i) in
      let lp := default 0%N (last_pass (passes h) !! i) in
      clip_max_passes h max_downsampling rest
        (if (ds <=? max_downsampling)%N && (lp <? max_passes)%N
         then wrap32 (lp + 1) else max_passes)
  end.

(** The block "Handling of progressive decoding" of [DecodeFrame]: the
    value handed to [SetMaxPasses]. *)
Definition DecodeFrame_max_passes (dparams : DecompressParams)
    (frame_header : FrameHeader) : N :=
  let max_passes := max_passes dparams in
  let max_downsampling :=
    N.max (N.shiftr (max_downsampling dparams) (dc_level frame_header * 3)) 1 in
  let max_passes :=
    if (8 <=? max_downsampling)%N then 0%N
    else clip_max_passes frame_header max_downsampling
           (seq 0 (num_downsample (passes frame_header))) max_passes in
  let max_passes :=
    if FrameType_eqb (frame_type frame_header) kReferenceOnly
    then N.of_nat (num_passes (passes frame_header))
    else max_passes in
  N.min max_passes (N.of_nat (num_passes (passes frame_header))).

(** The same block acting on the decoder. *)
Definition DecodeFrame_SetMaxPasses (dparams : DecompressParams)
    (d : FrameDecoder) : FrameDecoder :=
  SetMaxPasses (N.to_nat (DecodeFrame_max_passes dparams (frame_header_ d))) d.

(** ** InitFrame *)

(** The reader handed to [InitFrame] and the output bundle. *)
Record ReaderState := {
  TotalBytes : N;
  TotalBitsConsumed : N
}.

Record ImageBundle := {
  IsJPEG : bool;
  jpeg_num_components : nat;       (* jpeg_data->components.size() *)
  xyb_encoded : bool;              (* metadata: m.xyb_encoded *)
  has_extra_channels : bool        (* !metadata()->extra_channel_info.empty() *)
}.

(** What the collaborators of [InitFrame] deliver. *)
Record InitExternals := {
  (* DecodeFrameHeader(br, &frame_header_): status and the header left
     behind *)
  DecodeFrameHeader : FrameHeader -> Status * FrameHeader;
  dc_frames0_xsize : N;            (* shared_storage.dc_frames[0].xsize() *)
  ToFrameDimensions : FrameHeader -> FrameDimensions;
  VerifyDimensions : nat -> nat -> Status;
  (* ReadGroupOffsets(toc_entries, ...): status, offsets, sizes and
     groups_total_size (uint64_t) *)
  ReadGroupOffsets : nat -> Status * (list N * list N * N);
  (* br->TotalBitsConsumed() once the TOC has been read (size_t) *)
  TotalBitsConsumed_after_toc : N;
  InitializePassesSharedState : Status;
  dec_state_Init : Status;
  shared_epf_iters : nat           (* loop_filter.epf_iters of the shared header *)
}.

Definition kBitsPerByte : N := 8.

(** Modelled from the spec: [NumTocEntries] (toc.h).  One combined
    section when there is a single group and a single pass; otherwise
    DC-global, the DC groups, AC-global, and one AC section per group and
    pass. *)
Definition NumTocEntries (num_groups num_dc_groups num_passes : nat) : nat :=
  if (num_groups =? 1) && (num_passes =? 1) then 1
  else 2 + num_dc_groups + num_groups * num_passes.

(** "br->TotalBytes() > pos && DecodeFrameHeader(br, &frame_header_)":
    whether a header was read, and [frame_header_] afterwards. *)
Definition read_frame_header (ext : InitExternals) (reader : ReaderState)
    (h : FrameHeader) : bool * FrameHeader :=
  let pos := (TotalBitsConsumed reader / kBitsPerByte)%N in
  if (pos <? TotalBytes reader)%N
  then let '(st, h') := DecodeFrameHeader ext h in (ok st, h')
  else (false, h).

(** The header part of [InitFrame]: everything up to and including the
    DC-frame fallback.  The status is OK when execution continues; the
    header is [frame_header_] as the code leaves it. *)
Definition InitFrame_header (ext : InitExternals) (reader : ReaderState)
    (is_preview allow_partial_frames : bool) (d : FrameDecoder)
    : Status * FrameHeader :=
  let h := set_is_preview is_preview (frame_header_ d) in
  let '(have_frameheader, h) := read_frame_header ext reader h in
  if negb (have_frameheader || allow_partial_frames)
  then (StatusOfBool false, h)
  else if negb have_frameheader then
    if (0 <? dc_frames0_xsize ext)%N then (StatusOk, assume_dc_frame h)
    else (JXL_FAILURE "Couldn't read frame header", h)
  else (StatusOk, h).

(** "Clear the state." *)
Definition clear_state (d : FrameDecoder) : FrameDecoder :=
  {| frame_header_ := frame_header_ d;
     frame_dim_ := frame_dim_ d;
     decoded_IsJPEG := decoded_IsJPEG d;
     decoded_has_extra_channels := decoded_has_extra_channels d;
     epf_iters := epf_iters d;
     reference_frames := reference_frames d;
     allow_partial_frames_ := allow_partial_frames_ d;
     allow_partial_dc_global_ := allow_partial_dc_global_ d;
     pause_at_progressive_ := pause_at_progressive_ d;
     section_offsets_ := section_offsets_ d;
     section_sizes_ := section_sizes_ d;
     decoded_dc_global_ := false;
     decoded_ac_global_ := false;
     finalized_dc_ := false;
     is_finalized_ := false;
     allocated_ := false;
     decoded_dc_groups_ := replicate (num_dc_groups (frame_dim_ d)) false;
     decoded_passes_per_ac_group_ := replicate (num_groups (frame_dim_ d)) 0;
     processed_section_ := replicate (length (section_offsets_ d)) false;
     num_sections_done_ := 0;
     max_passes_ := num_passes (passes (frame_header_ d));
     num_renders_ := 0 |}.

(** [InitFrame] up to the point where the TOC has been read: an early
    return, or the decoder together with [group_codes_begin] and
    [groups_total_size].  The frame counters of the shared decoder state
    and the reset of the output bundle are outside the record. *)
Definition InitFrame_toc (ext : InitExternals) (reader : ReaderState)
    (decoded : ImageBundle)
    (is_preview allow_partial_frames allow_partial_dc_global : bool)
    (d : FrameDecoder) : Result + (FrameDecoder * N * N) :=
  let d := set_decoded_IsJPEG (IsJPEG decoded)
             (set_decoded_has_extra_channels (has_extra_channels decoded) d) in
  let d := set_allow_partial_frames allow_partial_frames d in
  let d := set_allow_partial_dc_global allow_partial_dc_global d in
  let '(st, h) := InitFrame_header ext reader is_preview allow_partial_frames d in
  let d := set_frame_header h d in
  if negb (ok st) then inl (Returned st d)
  else
    let d := set_frame_dim (ToFrameDimensions ext h) d in
    let num_passes := num_passes (passes h) in
    let num_groups := num_groups (frame_dim_ d) in
    match VerifyDimensions ext (xsize (frame_dim_ d)) (ysize (frame_dim_ d)) with
    | StatusOk =>
        let toc_entries :=
          NumTocEntries num_groups (num_dc_groups (frame_dim_ d)) num_passes in
        let '(toc_status, (offsets, sizes, groups_total_size)) :=
          ReadGroupOffsets ext toc_entries in
        let d := set_section_sizes sizes (set_section_offsets offsets d) in
        if negb (ok toc_status || allow_partial_frames)
        then inl (Returned (StatusOfBool false) d)
        else
          let group_codes_begin :=
            (TotalBitsConsumed_after_toc ext / kBitsPerByte)%N in
          inr (d, group_codes_begin, groups_total_size)
    | err => inl (Returned err d)
    end.

(** The checks on the JPEG reconstruction target. *)
Definition InitFrame_jpeg (decoded : ImageBundle) (h : FrameHeader) : Status :=
  if IsJPEG decoded then
    if FrameEncoding_eqb (encoding h) kModular
    then JXL_FAILURE "Cannot output JPEG from Modular"
    else if negb (jpeg_num_components decoded =? 1)
            && negb (jpeg_num_components decoded =? 3)
    then JXL_FAILURE "Invalid number of components"
    else if xyb_encoded decoded
    then JXL_FAILURE "Cannot decode to JPEG an XYB image"
    else StatusOk
  else StatusOk.

(** [InitFrame] from the overflow check on.  The sum is formed in 64-bit
    unsigned arithmetic. *)
Definition InitFrame_checks (ext : InitExternals) (decoded : ImageBundle)
    (output_needed : bool) (d : FrameDecoder)
    (group_codes_begin groups_total_size : N) : Result :=
  if (wrap64 (group_codes_begin + groups_total_size) <? group_codes_begin)%N
  then Returned (JXL_FAILURE "Invalid group codes") d
  else if negb (chroma_Is444 (frame_header_ d))
          && negb (has_flag (flags (frame_header_ d)) Flags.kSkipAdaptiveDCSmoothing)
          && FrameEncoding_eqb (encoding (frame_header_ d)) kVarDCT
  then Returned
         (JXL_FAILURE
            "Non-444 chroma subsampling is not allowed when adaptive DC smoothing is enabled")
         d
  else if negb output_needed then Returned StatusOk d
  else
    match InitializePassesSharedState ext with
    | StatusOk =>
        let d := set_epf_iters (shared_epf_iters ext) d in
        match dec_state_Init ext with
        | StatusOk =>
            match InitFrame_jpeg decoded (frame_header_ d) with
            | StatusOk => Returned StatusOk (clear_state d)
            | err => Returned err d
            end
        | err => Returned err d
        end
    | err => Returned err d
    end.

(** [FrameDecoder::InitFrame]; [JXL_ASSERT(is_finalized_)] first. *)
Definition InitFrame (ext : InitExternals) (reader : ReaderState)
    (decoded : ImageBundle)
    (is_preview allow_partial_frames allow_partial_dc_global output_needed : bool)
    (d : FrameDecoder) : Result :=
  if negb (is_finalized_ d) then Aborted
  else
    match InitFrame_toc ext reader decoded is_preview allow_partial_frames
            allow_partial_dc_global d with
    | inl r => r
    | inr (d', group_codes_begin, groups_total_size) =>
        InitFrame_checks ext decoded output_needed d'
          group_codes_begin groups_total_size
    end.

(** * Vocabulary of the properties

    Sample frames and environments, and the predicates in which the
    properties below are stated. *)

(** ** Concrete frames used as test inputs *)

Module Sample.

(** A VarDCT regular frame with [np] passes, no blending, no flags. *)
Definition header (np : nat) (fl : Z) : FrameHeader :=
  {| encoding := kVarDCT; frame_type := kRegularFrame; flags := fl;
     dc_level := 0; custom_size_or_origin := false;
     blending_info := {| mode := kReplace; source := 0 |};
     extra_channel_blending_info := [];
     passes := {| num_passes := np; num_downsample := 0;
                  downsample := []; last_pass := [] |};
     is_last := true; animation_duration := 0;
     nonserialized_is_preview := false; chroma_Is444 := true;
     CanBeReferenced := false; save_as_reference := 0;
     save_before_color_transform := false |}.

(** The decoder right after a successful [InitFrame] of a frame with
    [D] DC groups, [G] AC groups and [P] passes. *)
Definition fresh (D G P : nat) (fl : Z) (jpeg partial : bool) : FrameDecoder :=
  {| frame_header_ := header P fl;
     frame_dim_ := {| xsize := 1; ysize := 1; num_groups := G;
                      num_dc_groups := D |};
     decoded_IsJPEG := jpeg; decoded_has_extra_channels := false;
     epf_iters := 0; reference_frames := [];
     allow_partial_frames_ := partial; allow_partial_dc_global_ := false;
     pause_at_progressive_ := false;
     section_offsets_ := replicate (NumTocEntries G D P) 0%N;
     section_sizes_ := replicate (NumTocEntries G D P) 0%N;
     decoded_dc_global_ := false; decoded_ac_global_ := false;
     finalized_dc_ := false; is_finalized_ := false; allocated_ := false;
     decoded_dc_groups_ := replicate D false;
     decoded_passes_per_ac_group_ := replicate G 0;
     processed_section_ := replicate (NumTocEntries G D P) false;
     num_sections_done_ := 0; max_passes_ := P; num_renders_ := 0 |}.

(** Every sub-decoder succeeds. *)
Definition env_ok : Externals :=
  {| dc_global_features := fun _ => StatusOk;
     modular_DecodeGlobalInfo := fun _ => StatusOk;
     dc_group_decode := fun _ _ => StatusOk;
     PreparePipeline := StatusOk;
     InitForAC := StatusOk;
     ac_global_decode := fun _ => StatusOk;
     raw_qtable := Some (Z.of_nat <$> seq 0 192);
     JpegOrder := [1; 0; 2];
     components_quant_idx := [0; 1; 1];
     jpeg_quant := replicate 2 (replicate 64 0%Z);
     ac_group_decode := fun _ _ _ _ _ => StatusOk;
     modular_FinalizeDecoding := StatusOk |}.

(** The section with id [i], read through reader [i]. *)
Definition sec (i : nat) : SectionInfo := {| br := i; id := i |}.

(** A fully decoded single-section frame. *)
Definition complete (fl : Z) : FrameDecoder :=
  match ProcessSections env_ok [sec 0] (fresh 1 1 1 fl false false) with
  | SectionsReturned _ d _ => d
  | SectionsAborted => fresh 1 1 1 fl false false
  end.

End Sample.

(** The state reached by decoding the one section of a single-section
    frame under a pass cap of 0. *)
Definition capped_single_section : FrameDecoder :=
  match ProcessSections Sample.env_ok [Sample.sec 0]
          (SetMaxPasses 0 (Sample.fresh 1 1 1 0 false false)) with
  | SectionsReturned _ d _ => d
  | SectionsAborted => Sample.fresh 1 1 1 0 false false
  end.

Module ReferencesSpec.

(** The bit a blending descriptor contributes. *)
Definition blend_bit (cropped : bool) (b : BlendingInfo) : Z :=
  if cropped || negb (BlendMode_eqb (mode b) kReplace)
  then Z.shiftl 1 (source b) else 0%Z.

(** Blending sources: colour and every extra channel, for regular and
    skip-progressive frames. *)
Definition blending_bits (h : FrameHeader) : Z :=
  if FrameType_eqb (frame_type h) kRegularFrame
     || FrameType_eqb (frame_type h) kSkipProgressive
  then
    Z.lor (blend_bit (custom_size_or_origin h) (blending_info h))
          (foldr (fun e acc => Z.lor (blend_bit (custom_size_or_origin h) e) acc)
                 0%Z (extra_channel_blending_info h))
  else 0%Z.

Definition patches_bits (patches_GetReferences : Z) (h : FrameHeader) : Z :=
  if has_flag (flags h) Flags.kPatches then patches_GetReferences else 0%Z.

Definition dc_frame_bit (h : FrameHeader) : Z :=
  if has_flag (flags h) Flags.kUseDcFrame
  then Z.shiftl 16 ((Z.of_N (dc_level h) + 1) - 1) else 0%Z.

End ReferencesSpec.

(** The part of the decoder that [Flush] and [AllocateOutput] leave
    alone: everything except [allocated_] and [num_renders_]. *)
Definition same_decoding (d d' : FrameDecoder) : Prop :=
  frame_header_ d' = frame_header_ d /\
  decoded_IsJPEG d' = decoded_IsJPEG d /\
  allow_partial_frames_ d' = allow_partial_frames_ d /\
  decoded_dc_global_ d' = decoded_dc_global_ d /\
  decoded_ac_global_ d' = decoded_ac_global_ d /\
  finalized_dc_ d' = finalized_dc_ d /\
  is_finalized_ d' = is_finalized_ d /\
  decoded_dc_groups_ d' = decoded_dc_groups_ d /\
  decoded_passes_per_ac_group_ d' = decoded_passes_per_ac_group_ d /\
  processed_section_ d' = processed_section_ d /\
  max_passes_ d' = max_passes_ d.

Module SampleInit.

(** A reader with [total] bytes of which none is consumed yet. *)
Definition reader (total : N) : ReaderState :=
  {| TotalBytes := total; TotalBitsConsumed := 0 |}.

Definition bundle : ImageBundle :=
  {| IsJPEG := false; jpeg_num_components := 0; xyb_encoded := false;
     has_extra_channels := false |}.

(** Collaborators of [InitFrame] for a frame of one DC group, two AC
    groups and one pass (five sections of 16 bytes) whose TOC ends at
    byte 16; [header_ok] tells whether the header can be decoded,
    [dc0] is the width of DC-frame slot 0 and [total] the TOC's
    [groups_total_size]. *)
Definition ext (header_ok : bool) (dc0 total : N) : InitExternals :=
  {| DecodeFrameHeader := fun h =>
       (if header_ok then StatusOk else StatusNotEnoughBytes, h);
     dc_frames0_xsize := dc0;
     ToFrameDimensions := fun _ =>
       {| xsize := 512; ysize := 256; num_groups := 2; num_dc_groups := 1 |};
     VerifyDimensions := fun _ _ => StatusOk;
     ReadGroupOffsets := fun n =>
       (StatusOk, (replicate n 0%N, replicate n 16%N, total));
     TotalBitsConsumed_after_toc := 128;
     InitializePassesSharedState := StatusOk;
     dec_state_Init := StatusOk;
     shared_epf_iters := 0 |}.

(** A decoder between frames: the previous frame is finalised. *)
Definition idle : FrameDecoder :=
  set_is_finalized true (Sample.fresh 1 2 1 0 false false).

End SampleInit.

(** A property of the batch holds wherever a step leaves one. *)
Definition step_all (P : Batch -> Prop) (s : Step) : Prop :=
  match s with
  | StepAbort => True
  | StepReturn _ b | StepMarkAndReturn b | StepNext b => P b
  end.

(** Properties of the decoder that do not look at the section
    bookkeeping survive classification and [MarkSections]. *)
Definition ignores_bookkeeping (P : FrameDecoder -> Prop) : Prop :=
  (forall v d, P d -> P (set_processed_section v d)) /\
  (forall v d, P d -> P (set_num_sections_done v d)).

(** The ordering of the stages, as a property of the decoder. *)
Definition stage_order (d : FrameDecoder) : Prop :=
  decoded_dc_groups_ d <> [] /\
  (finalized_dc_ d = true ->
   forallb (fun x => x) (decoded_dc_groups_ d) = true) /\
  ((exists i, decoded_dc_groups_ d !! i = Some true) ->
   decoded_dc_global_ d = true) /\
  (decoded_ac_global_ d = true -> finalized_dc_ d = true).

(** States of a frame in progress: a successful [InitFrame] that
    prepared the output for a frame with at least one DC group, followed
    by any sequence of [ProcessSections] calls (whatever they return) and
    of adjustments of the pass cap and of the pause option. *)
Inductive in_progress : FrameDecoder -> Prop :=
| in_progress_init ext reader decoded is_preview allow_partial_frames
    allow_partial_dc_global d0 d :
    InitFrame ext reader decoded is_preview allow_partial_frames
      allow_partial_dc_global true d0 = Returned StatusOk d ->
    0 < num_dc_groups (frame_dim_ d) ->
    in_progress d
| in_progress_sections env sections d r d' st :
    in_progress d ->
    ProcessSections env sections d = SectionsReturned r d' st ->
    in_progress d'
| in_progress_max_passes n d :
    in_progress d -> in_progress (SetMaxPasses n d)
| in_progress_pause d :
    in_progress d -> in_progress (SetPauseAtProgressive d).

Module SampleRun.

(** The decoder after [InitFrame] of the five-section frame of
    [SampleInit]. *)
Definition initialised : FrameDecoder :=
  match InitFrame (SampleInit.ext true 0 80) (SampleInit.reader 4096)
          SampleInit.bundle false false false true SampleInit.idle with
  | Returned _ d => d
  | Aborted => SampleInit.idle
  end.

(** The five sections of that frame, in TOC order. *)
Definition all_sections : list SectionInfo := Sample.sec <$> [0; 1; 2; 3; 4].

(** The decoder after all five sections have been processed. *)
Definition decoded : FrameDecoder :=
  match ProcessSections Sample.env_ok all_sections initialised with
  | SectionsReturned _ d _ => d
  | SectionsAborted => initialised
  end.

End SampleRun.

(** Every index held by the tables of a schedule. *)
Definition slots (sc : Schedule) : list nat :=
  dc_global_sec sc :: ac_global_sec sc
  :: dc_group_sec sc ++ concat (ac_group_sec sc).

(** Pass index of the AC-group section with id [k]. *)
Definition ac_pass (d : FrameDecoder) (k : nat) : nat :=
  (k - (num_dc_groups (frame_dim_ d) + 1) - 1) / num_groups (frame_dim_ d).

(** Ids that classification enters into the tables: the global and
    DC-group sections, and AC-group sections of a pass below both the
    header's number of passes and the pass cap. *)
Definition recorded_id (d : FrameDecoder) (k : nat) : Prop :=
  k <= num_dc_groups (frame_dim_ d) + 1 \/
  (ac_pass d k < num_passes (passes (frame_header_ d)) /\
   ac_pass d k < max_passes_ d).

(** What classification has established about the batch, relative to
    the decoder [d0] the call started from. *)
Record classified (sections : list SectionInfo) (d0 : FrameDecoder)
    (b : Batch) : Prop := {
  cl_dec : dec b = set_processed_section (processed_section_ (dec b)) d0;
  cl_len : length (processed_section_ (dec b)) = length (processed_section_ d0);
  cl_status_len : length (section_status b) = length sections;
  cl_status : forall i, i < length sections ->
    section_status b !! i = Some kSkipped \/
    (section_status b !! i = Some kDuplicate /\
     exists s, sections !! i = Some s /\
               processed_section_ (dec b) !! id s = Some true);
  cl_slots : forall i s, sections !! i = Some s -> i ∈ slots (sched b) ->
    recorded_id d0 (id s) /\ processed_section_ (dec b) !! id s = Some true;
  cl_kept : forall k, ~ recorded_id d0 k ->
    processed_section_ (dec b) !! k = processed_section_ d0 !! k;
  cl_no_pass : is_single_section d0 = false -> max_passes_ d0 = 0 ->
    forall g, default 0 (num_ac_passes (sched b) !! g) = 0
}.

(** What the stages after classification leave alone: the tables, the
    section bookkeeping, the frame's parameters, every status that no
    table points to, and (when no group has a new pass) the pass
    counters. *)
Record later (b b' : Batch) : Prop := {
  lt_sched : sched b' = sched b;
  lt_status_len : length (section_status b') = length (section_status b);
  lt_status : forall i, i ∉ slots (sched b) ->
    section_status b' !! i = section_status b !! i;
  lt_processed : processed_section_ (dec b') = processed_section_ (dec b);
  lt_done : num_sections_done_ (dec b') = num_sections_done_ (dec b);
  lt_header : frame_header_ (dec b') = frame_header_ (dec b);
  lt_dim : frame_dim_ (dec b') = frame_dim_ (dec b);
  lt_max : max_passes_ (dec b') = max_passes_ (dec b);
  lt_passes : (forall g, default 0 (num_ac_passes (sched b) !! g) = 0) ->
    decoded_passes_per_ac_group_ (dec b') = decoded_passes_per_ac_group_ (dec b)
}.

(** Steps after classification: where a batch is left it is [later], and
    an early return carries an error. *)
Definition step_later (b : Batch) (s : Step) : Prop :=
  match s with
  | StepAbort => True
  | StepReturn r b' => r <> StatusOk /\ later b b'
  | StepMarkAndReturn b' | StepNext b' => later b b'
  end.

(** After the "finalize DC" statement, the DC groups being all decoded
    implies that DC has been finalised. *)
Definition settled (b : Batch) : Prop :=
  forallb (fun x => x) (decoded_dc_groups_ (dec b)) = true ->
  finalized_dc_ (dec b) = true.

Definition step_settled (s : Step) : Prop :=
  match s with
  | StepMarkAndReturn b | StepNext b => settled b
  | _ => True
  end.

(** An entry that lies inside the section table and is not an AC-group
    section of a pass beyond the header's passes lets the scan go on. *)
Definition scannable (d : FrameDecoder) (s : SectionInfo) : Prop :=
  id s < length (processed_section_ d) /\
  (id s <= num_dc_groups (frame_dim_ d) + 1 \/
   ac_pass d (id s) < num_passes (passes (frame_header_ d))).

Module SampleStale.

(** Collaborators of [InitFrame] for the frame of [SampleInit] when the
    TOC cannot be read: the offset and size vectors keep the seven
    entries of the frame before. *)
Definition ext : InitExternals :=
  {| DecodeFrameHeader := fun h => (StatusOk, h);
     dc_frames0_xsize := 0;
     ToFrameDimensions := fun _ =>
       {| xsize := 512; ysize := 256; num_groups := 2; num_dc_groups := 1 |};
     VerifyDimensions := fun _ _ => StatusOk;
     ReadGroupOffsets := fun _ =>
       (StatusNotEnoughBytes, (replicate 7 0%N, replicate 7 16%N, 0%N));
     TotalBitsConsumed_after_toc := 128;
     InitializePassesSharedState := StatusOk;
     dec_state_Init := StatusOk;
     shared_epf_iters := 0 |}.

(** The decoder after [InitFrame] with partial frames allowed, and a
    pass cap of 0. *)
Definition initialised : FrameDecoder :=
  SetMaxPasses 0
    match InitFrame ext (SampleInit.reader 4096) SampleInit.bundle
            false true false true SampleInit.idle with
    | Returned _ d => d
    | Aborted => SampleInit.idle
    end.

End SampleStale.

(** The environment with another outcome function for [ProcessACGroup]. *)
Definition with_ac_group_decode
    (f : nat -> list BitReader -> nat -> bool -> bool -> Status)
    (env : Externals) : Externals :=
  {| dc_global_features := dc_global_features env;
     modular_DecodeGlobalInfo := modular_DecodeGlobalInfo env;
     dc_group_decode := dc_group_decode env;
     PreparePipeline := PreparePipeline env;
     InitForAC := InitForAC env;
     ac_global_decode := ac_global_decode env;
     raw_qtable := raw_qtable env;
     JpegOrder := JpegOrder env;
     components_quant_idx := components_quant_idx env;
     jpeg_quant := jpeg_quant env;
     ac_group_decode := f;
     modular_FinalizeDecoding := modular_FinalizeDecoding env |}.

(** No group has a new pass to decode. *)
Definition no_new_pass (b : Batch) : Prop :=
  forall g, default 0 (num_ac_passes (sched b) !! g) = 0.

Module SampleParams.

(** Decoding parameters asking for 1:8 downsampling, passes unlimited. *)
Definition downsampling8 : DecompressParams :=
  {| max_passes := 2 ^ 64 - 1; max_downsampling := 8;
     allow_partial_files := false; allow_more_progressive_steps := false |}.

(** The five-section frame of [SampleRun], as a reference-only frame. *)
Definition reference_only : FrameDecoder :=
  set_frame_header
    {| encoding := kVarDCT; frame_type := kReferenceOnly; flags := 0;
       dc_level := 0; custom_size_or_origin := false;
       blending_info := {| mode := kReplace; source := 0 |};
       extra_channel_blending_info := [];
       passes := {| num_passes := 1; num_downsample := 0;
                    downsample := []; last_pass := [] |};
       is_last := false; animation_duration := 0;
       nonserialized_is_preview := false; chroma_Is444 := true;
       CanBeReferenced := true; save_as_reference := 1;
       save_before_color_transform := false |}
    SampleRun.initialised.

End SampleParams.

Definition not_retried (x : SectionStatus) : Prop := x = kDone \/ x = kDuplicate.

(** A batch whose tables point to no section and in which no group has
    a new pass. *)
Record idle (num : nat) (b : Batch) : Prop := {
  idle_dc_global : dc_global_sec (sched b) = num;
  idle_ac_global : ac_global_sec (sched b) = num;
  idle_dc_groups : forall i, default num (dc_group_sec (sched b) !! i) = num;
  idle_ac_groups : no_new_pass b
}.

Module SamplePause.

(** The five-section frame with the pause option set. *)
Definition initialised : FrameDecoder :=
  SetPauseAtProgressive SampleRun.initialised.

(** The decoder after the first submission of all five sections: the
    call pauses once DC is finalised. *)
Definition paused : FrameDecoder :=
  match ProcessSections Sample.env_ok SampleRun.all_sections initialised with
  | SectionsReturned _ d _ => d
  | SectionsAborted => initialised
  end.

(** The decoder after the second submission of the same batch. *)
Definition resumed : FrameDecoder :=
  match ProcessSections Sample.env_ok SampleRun.all_sections paused with
  | SectionsReturned _ d _ => d
  | SectionsAborted => paused
  end.

End SamplePause.

(** * Further parts of the code *)

(** ** Sub-readers *)

(** A window on the bytes of a parent reader: first byte (relative to
    the parent's first byte) and length. *)
Record Span := {
  span_first : N;
  span_size : N
}.

(** What [GetReaderForSection] returns: the parent reader itself, or the
    [store] re-seated on a window. *)
Inductive SectionReader :=
| ParentReader
| StoreReader (window : Span).

(** [GetReaderForSection]; every operand is a [size_t], so sums and
    differences wrap at 64 bits.  [total_bytes] is [reader->TotalBytes()]. *)
Definition GetReaderForSection (num_groups num_passes : nat)
    (group_codes_begin : N) (group_offsets group_sizes : list N)
    (total_bytes : N) (index : nat) : SectionReader :=
  if (num_groups =? 1) && (num_passes =? 1) then ParentReader
  else
    let offset := default 0%N (group_offsets !! index) in
    let size := default 0%N (group_sizes !! index) in
    let group_offset := wrap64 (group_codes_begin + offset) in
    let next_group_offset := wrap64 (wrap64 (group_codes_begin + offset) + size) in
    let group_size := wrap64 (2 ^ 64 + next_group_offset - group_offset) in
    let remaining_size := wrap64 (2 ^ 64 + total_bytes - group_offset) in
    let size := N.min (wrap64 (group_size + 8)) remaining_size in
    StoreReader {| span_first := group_offset; span_size := size |}.

(** ** The section loop and the status loop of [DecodeFrame] *)

(** One iteration of the loop of [DecodeFrame] that builds the batch: for
    section [i] with offset [b] and size [sz], [None] when the function
    returns "Premature end of stream.", else the entry appended to the
    batch, if any.  [pos] is the parent reader's position in bytes;
    arithmetic is on [size_t]. *)
Definition DecodeFrame_section (dparams : DecompressParams)
    (encoding : FrameEncoding) (pos total_bytes : N) (i : nat) (b sz : N)
    : option (option (nat * Span)) :=
  let e := wrap64 (b + sz) in
  let bound :=
    if allow_more_progressive_steps dparams
       && ((i =? 0) || FrameEncoding_eqb encoding kModular)
    then b else e in
  if (wrap64 (pos + bound) <=? total_bytes)%N
     || ((i =? 0) && allow_more_progressive_steps dparams)
  then
    Some (Some (i,
      {| span_first := wrap64 (b + pos);
         span_size :=
           if (total_bytes <? wrap64 (pos + b))%N then 0%N
           else N.min (wrap64 (2 ^ 64 + wrap64 (2 ^ 64 + total_bytes - pos) - b))
                      (wrap64 (2 ^ 64 + e - b)) |}))
  else if negb (allow_partial_files dparams) then None
  else Some None.

(** The loop over the sections [i, i+1, ...] whose offsets and sizes are
    [offsets] and [sizes]: [None] for "Premature end of stream.", else the
    batch (section id and window) and [bytes_to_skip]. *)
Fixpoint DecodeFrame_sections (dparams : DecompressParams)
    (encoding : FrameEncoding) (pos total_bytes : N) (i : nat)
    (offsets sizes : list N) (bytes_to_skip : N)
    : option (list (nat * Span) * N) :=
  match offsets, sizes with
  | b :: offsets', sz :: sizes' =>
      let e := wrap64 (b + sz) in
      let bytes_to_skip := wrap64 (bytes_to_skip + wrap64 (2 ^ 64 + e - b)) in
      match DecodeFrame_section dparams encoding pos total_bytes i b sz with
      | None => None
      | Some entry =>
          match DecodeFrame_sections dparams encoding pos total_bytes (S i)
                  offsets' sizes' bytes_to_skip with
          | None => None
          | Some (batch, skip) =>
              Some (match entry with
                    | Some x => x :: batch
                    | None => batch
                    end, skip)
          end
      end
  | _, _ => Some ([], bytes_to_skip)
  end.

(** The loop of [DecodeFrame] over the statuses returned by
    [ProcessSections]: [inl (id, s)] stands for
    [JXL_FAILURE("Invalid section %zu status: %d", id, s)], [inr] is
    [processed_bytes] after the loop.  [section_sizes] is indexed by the
    position in the batch, as in the code. *)
Fixpoint DecodeFrame_statuses (dparams : DecompressParams)
    (section_sizes : list N) (i : nat) (ids : list nat)
    (statuses : list SectionStatus) (processed_bytes : N)
    : nat * SectionStatus + N :=
  match ids, statuses with
  | id0 :: ids', s :: statuses' =>
      if SectionStatus_eqb s kDone then
        DecodeFrame_statuses dparams section_sizes (S i) ids' statuses'
          (wrap64 (processed_bytes + default 0%N (section_sizes !! i)))
      else if allow_more_progressive_steps dparams && SectionStatus_eqb s kPartial
      then DecodeFrame_statuses dparams section_sizes (S i) ids' statuses'
             processed_bytes
      else if (1 <? max_downsampling dparams)%N && SectionStatus_eqb s kSkipped
      then DecodeFrame_statuses dparams section_sizes (S i) ids' statuses'
             processed_bytes
      else inl (id0, s)
  | _, _ => inr processed_bytes
  end.

(** ** The parameters of the lossless round-trip test (modular_test.cc) *)

Record RoundtripLosslessConfig := {
  bitdepth : Z;                    (* int *)
  responsive : Z                   (* int *)
}.


(** [LosslessTestDescription]; [operator<<] writes an [int] in decimal,
    which is stdpp's [pretty]. *)
Definition LosslessTestDescription (param : RoundtripLosslessConfig) : string :=
  let name := pretty (bitdepth param) +:+ "bit" in
  if negb (responsive param =? 0)%Z then name +:+ "Squeeze" else name.

(** ** Vocabulary of the further properties *)

(** [x] has every bit of [b]. *)
Definition includes_bits (x b : Z) : Prop := Z.land x b = b.

(** The header fields that enter [References] are in the ranges the
    bitstream gives them: blending sources are reference slots 0..3 and a
    frame using a DC frame is at DC level 3 at most. *)
Definition reference_fields_in_range (h : FrameHeader) : Prop :=
  (0 <= source (blending_info h) < 4)%Z /\
  Forall (fun e => (0 <= source e < 4)%Z) (extra_channel_blending_info h) /\
  (dc_level h <= 3)%N.

(** A status that makes [MarkSections] clear the section's flag, so that
    the section can be submitted again. *)
Definition retried (x : SectionStatus) : bool :=
  SectionStatus_eqb x kSkipped || SectionStatus_eqb x kPartial.

(** Nothing decoded is lost between [d] and [d']: the frame's
    parameters, the section offsets and the sizes of the vectors are the
    same, a flag that was set is set, a pass counter has not gone down. *)
Record progress_kept (d d' : FrameDecoder) : Prop := {
  pk_header : frame_header_ d' = frame_header_ d;
  pk_dim : frame_dim_ d' = frame_dim_ d;
  pk_max : max_passes_ d' = max_passes_ d;
  pk_finalized : is_finalized_ d' = is_finalized_ d;
  pk_renders : num_renders_ d' = num_renders_ d;
  pk_offsets : section_offsets_ d' = section_offsets_ d;
  pk_table_len : length (processed_section_ d') = length (processed_section_ d);
  pk_dc_global : decoded_dc_global_ d = true -> decoded_dc_global_ d' = true;
  pk_finalized_dc : finalized_dc_ d = true -> finalized_dc_ d' = true;
  pk_ac_global : decoded_ac_global_ d = true -> decoded_ac_global_ d' = true;
  pk_allocated : allocated_ d = true -> allocated_ d' = true;
  pk_dc_len : length (decoded_dc_groups_ d') = length (decoded_dc_groups_ d);
  pk_dc_groups : forall i, decoded_dc_groups_ d !! i = Some true ->
                           decoded_dc_groups_ d' !! i = Some true;
  pk_passes_len : length (decoded_passes_per_ac_group_ d')
                  = length (decoded_passes_per_ac_group_ d);
  pk_passes : forall g n, decoded_passes_per_ac_group_ d !! g = Some n ->
    exists n', decoded_passes_per_ac_group_ d' !! g = Some n' /\ n <= n'
}.

(** Properties of the decoder that survive a write of one flag of the
    section table and a write of the count of handled sections. *)
Definition ignores_flag_writes (P : FrameDecoder -> Prop) : Prop :=
  (forall k v d,
     P d -> P (set_processed_section (<[k := v]> (processed_section_ d)) d)) /\
  (forall v d, P d -> P (set_num_sections_done v d)).

(** Some part of the frame's blending refers to the canvas: the colour
    channels or an extra channel blend otherwise than by replacement, or the
    frame has its own size or origin. *)
Definition blends (h : FrameHeader) : Prop :=
  mode (blending_info h) <> kReplace \/
  custom_size_or_origin h = true \/
  Exists (fun e => mode e <> kReplace) (extra_channel_blending_info h).

(** [d'] is [d] but for the output buffers and the render count. *)
Definition output_of (d : FrameDecoder) (d' : FrameDecoder) : Prop :=
  d' = set_num_renders (num_renders_ d') (set_allocated (allocated_ d') d).

(** The complete five-section frame with two extra channels, the second
    of which is blended onto the canvas. *)
Definition alpha_blended_frame : FrameDecoder :=
  set_frame_header
    {| encoding := kVarDCT; frame_type := kRegularFrame; flags := 0;
       dc_level := 0; custom_size_or_origin := false;
       blending_info := {| mode := kReplace; source := 0 |};
       extra_channel_blending_info :=
         [{| mode := kReplace; source := 0 |}; {| mode := kBlend; source := 1 |}];
       passes := {| num_passes := 1; num_downsample := 0;
                    downsample := []; last_pass := [] |};
       is_last := true; animation_duration := 0;
       nonserialized_is_preview := false; chroma_Is444 := true;
       CanBeReferenced := true; save_as_reference := 1;
       save_before_color_transform := false |}
    SampleRun.decoded.

(** The decoding progress recorded in [d'] is that of [d]: stage flags,
    per-group vectors, section table and counters. *)
Record same_progress (d d' : FrameDecoder) : Prop := {
  sp_dc_global : decoded_dc_global_ d' = decoded_dc_global_ d;
  sp_ac_global : decoded_ac_global_ d' = decoded_ac_global_ d;
  sp_finalized_dc : finalized_dc_ d' = finalized_dc_ d;
  sp_allocated : allocated_ d' = allocated_ d;
  sp_dc_groups : decoded_dc_groups_ d' = decoded_dc_groups_ d;
  sp_passes : decoded_passes_per_ac_group_ d' = decoded_passes_per_ac_group_ d;
  sp_processed : processed_section_ d' = processed_section_ d;
  sp_done : num_sections_done_ d' = num_sections_done_ d;
  sp_max : max_passes_ d' = max_passes_ d;
  sp_renders : num_renders_ d' = num_renders_ d
}.


(** The values of [last_pass] leave room for the [+ 1] of the pass
    policy in 32 bits (the bitstream keeps them below the number of
    passes). *)
Definition last_pass_in_range (h : FrameHeader) : Prop :=
  forall i lp, last_pass (passes h) !! i = Some lp -> (lp + 1 < 2 ^ 32)%N.

(** A status that the final loop of [DecodeFrame] lets pass. *)
Definition accepted_status (dparams : DecompressParams) (s : SectionStatus)
    : Prop :=
  s = kDone \/
  (allow_more_progressive_steps dparams = true /\ s = kPartial) \/
  ((1 < max_downsampling dparams)%N /\ s = kSkipped).

(** Decoding parameters with everything at its default but the number of
    passes and the downsampling. *)
Definition params_with (passes_ downsampling : N) : DecompressParams :=
  {| max_passes := passes_; max_downsampling := downsampling;
     allow_partial_files := false; allow_more_progressive_steps := false |}.

(** A header of three passes of which the first ends the 1:4 preview and
    the second the 1:2 preview. *)
Definition progressive_header : FrameHeader :=
  {| encoding := kVarDCT; frame_type := kRegularFrame; flags := 0;
     dc_level := 0; custom_size_or_origin := false;
     blending_info := {| mode := kReplace; source := 0 |};
     extra_channel_blending_info := [];
     passes := {| num_passes := 3; num_downsample := 2;
                  downsample := [4; 2]%N; last_pass := [0; 1]%N |};
     is_last := true; animation_duration := 0;
     nonserialized_is_preview := false; chroma_Is444 := true;
     CanBeReferenced := true; save_as_reference := 0;
     save_before_color_transform := false |}.







(** The steps of [InitFrame] that follow the header all pass, for the
    header [h] and with partial frames allowed (the status of the TOC is
    then not looked at): the dimensions, the overflow check on the TOC's
    total size, the chroma test and, when the output is prepared, the
    shared state, the decoder state and the tests on a JPEG target. *)
Definition later_steps_pass (ext : InitExternals) (decoded : ImageBundle)
    (output_needed : bool) (h : FrameHeader) : Prop :=
  let dim := ToFrameDimensions ext h in
  let toc_entries :=
    NumTocEntries (num_groups dim) (num_dc_groups dim) (num_passes (passes h)) in
  let group_codes_begin := (TotalBitsConsumed_after_toc ext / kBitsPerByte)%N in
  let groups_total_size := snd (snd (ReadGroupOffsets ext toc_entries)) in
  VerifyDimensions ext (xsize dim) (ysize dim) = StatusOk /\
  (group_codes_begin <= wrap64 (group_codes_begin + groups_total_size))%N /\
  (encoding h = kVarDCT ->
   chroma_Is444 h = true \/
   has_flag (flags h) Flags.kSkipAdaptiveDCSmoothing = true) /\
  (output_needed = true ->
   InitializePassesSharedState ext = StatusOk /\
   dec_state_Init ext = StatusOk /\
   InitFrame_jpeg decoded h = StatusOk).

(** No collaborator whose status [InitFrame] hands on to its caller
    answers [st]. *)
Definition never_reports (ext : InitExternals) (st : Status) : Prop :=
  (forall x y, VerifyDimensions ext x y <> st) /\
  InitializePassesSharedState ext <> st /\
  dec_state_Init ext <> st.



(** The environment of [Sample.env_ok] for JPEG data in which the
    component taken first names a quantisation table that is not there. *)
Definition env_missing_quant_table : Externals :=
  {| dc_global_features := dc_global_features Sample.env_ok;
     modular_DecodeGlobalInfo := modular_DecodeGlobalInfo Sample.env_ok;
     dc_group_decode := dc_group_decode Sample.env_ok;
     PreparePipeline := PreparePipeline Sample.env_ok;
     InitForAC := InitForAC Sample.env_ok;
     ac_global_decode := ac_global_decode Sample.env_ok;
     raw_qtable := raw_qtable Sample.env_ok;
     JpegOrder := JpegOrder Sample.env_ok;
     components_quant_idx := [0; 2; 0];
     jpeg_quant := jpeg_quant Sample.env_ok;
     ac_group_decode := ac_group_decode Sample.env_ok;
     modular_FinalizeDecoding := modular_FinalizeDecoding Sample.env_ok |}.

(** The character [c] occurs in [s]. *)
Fixpoint mentions (c : Ascii.ascii) (s : string) : bool :=
  match s with
  | EmptyString => false
  | String a s' => Ascii.eqb a c || mentions c s'
  end.

(** The table positions used by the components [cs]. *)
Definition used_positions (jpeg_c_map quant_idx : list nat) (cs : list nat)
    : list nat :=
  component_qpos jpeg_c_map quant_idx <$> cs.

(** The tables of a schedule hold a section for everything whose id is
    below [k]: DC-global, the DC groups, AC-global and the passes of the
    groups, for a frame of [D] DC groups, [G] groups, [P] passes and [n]
    sections. *)
Record tables_filled (D G P n k : nat) (sc : Schedule) : Prop := {
  tf_dc_len : length (dc_group_sec sc) = D;
  tf_ac_len : length (ac_group_sec sc) = G;
  tf_rows : forall g row, ac_group_sec sc !! g = Some row -> length row = P;
  tf_dc_global : 0 < k -> dc_global_sec sc <> n;
  tf_dc_groups : forall i, i < D -> i + 1 < k ->
    default n (dc_group_sec sc !! i) <> n;
  tf_ac_global : D + 1 < k -> ac_global_sec sc <> n;
  tf_ac_groups : forall g p, g < G -> p < P -> D + 2 + p * G + g < k ->
    default n (default [] (ac_group_sec sc !! g) !! p) <> n
}.

(** What the classification of the sections with ids below [k] has
    established when all of them were new: the section table is marked
    below [k] only and the tables are filled below [k]. *)
Record filled_below (D G P n : nat) (d0 : FrameDecoder) (k : nat) (b : Batch)
    : Prop := {
  fb_dec : dec b = set_processed_section (processed_section_ (dec b)) d0;
  fb_table_len : length (processed_section_ (dec b)) = n;
  fb_unprocessed : forall j, k <= j -> j < n ->
    processed_section_ (dec b) !! j = Some false;
  fb_tables : tables_filled D G P n k (sched b)
}.

(** No AC section has been decoded on top of what [d] has: AC-global is
    not decoded and the pass counters are those of [d]. *)
Definition ac_untouched (d d' : FrameDecoder) : Prop :=
  decoded_ac_global_ d' = false /\
  decoded_passes_per_ac_group_ d' = decoded_passes_per_ac_group_ d.

(** DC is not final yet and the call will pause once it is: the pause
    option is set on a VarDCT frame without extra channels. *)
Definition pausing_before_dc (d d' : FrameDecoder) : Prop :=
  ac_untouched d d' /\
  finalized_dc_ d' = false /\
  pause_at_progressive_ d' = true /\
  decoded_has_extra_channels d' = false /\
  encoding (frame_header_ d') = kVarDCT.

(** * Properties *)

(** ** HasEverything *)

Lemma forallb_lookup {A} (f : A -> bool) (l : list A) :
  forallb f l = true <-> (forall i x, l !! i = Some x -> f x = true).
Proof.
  rewrite forallb_forall. split.
  - intros H i x Hi. apply H. apply list_elem_of_In.
    eapply list_elem_of_lookup_2; eauto.
  - intros H x Hx. apply list_elem_of_In in Hx.
    apply list_elem_of_lookup in Hx as [i Hi]. eauto.
Qed.

Lemma HasEverything_unfold d :
  HasEverything d =
  decoded_dc_global_ d && decoded_ac_global_ d
  && forallb (fun x => x) (decoded_dc_groups_ d)
  && forallb (fun nb_passes => max_passes_ d <=? nb_passes)
             (decoded_passes_per_ac_group_ d).
Proof.
  unfold HasEverything.
  destruct (decoded_dc_global_ d), (decoded_ac_global_ d); simpl; try reflexivity.
  destruct (forallb _ (decoded_dc_groups_ d)); simpl; try reflexivity.
  induction (decoded_passes_per_ac_group_ d) as [|n l IH]; simpl; [reflexivity|].
  rewrite IH. f_equal.
  destruct (Nat.ltb_spec n (max_passes_ d)), (Nat.leb_spec (max_passes_ d) n);
    simpl; try reflexivity; lia.
Qed.

(** C3 (as the code has it): [HasEverything()] is true exactly when both
    global sections are decoded, every DC group is decoded, and every AC
    group has decoded at least [max_passes_] passes. *)
Theorem HasEverything_iff (d : FrameDecoder) :
  HasEverything d = true <->
  decoded_dc_global_ d = true /\
  decoded_ac_global_ d = true /\
  (forall i have, decoded_dc_groups_ d !! i = Some have -> have = true) /\
  (forall g nb, decoded_passes_per_ac_group_ d !! g = Some nb ->
                max_passes_ d <= nb).
Proof.
  rewrite HasEverything_unfold, !andb_true_iff, !forallb_lookup.
  split.
  - intros [[[Hdc Hac] Hg] Hp]. repeat split; auto.
    intros g nb Hnb. apply Nat.leb_le. eauto.
  - intros (Hdc & Hac & Hg & Hp). repeat split; auto.
    intros g nb Hnb. apply Nat.leb_le. eauto.
Qed.

(** Where no counter exceeds the cap, "at least" is "equal". *)
Lemma HasEverything_iff_eq (d : FrameDecoder) :
  (forall g nb, decoded_passes_per_ac_group_ d !! g = Some nb ->
                nb <= max_passes_ d) ->
  HasEverything d = true <->
  decoded_dc_global_ d = true /\
  decoded_ac_global_ d = true /\
  (forall i have, decoded_dc_groups_ d !! i = Some have -> have = true) /\
  (forall g nb, decoded_passes_per_ac_group_ d !! g = Some nb ->
                nb = max_passes_ d).
Proof.
  intros Hle. rewrite HasEverything_unfold, !andb_true_iff, !forallb_lookup.
  split.
  - intros [[[Hdc Hac] Hg] Hp]. repeat split; auto.
    intros g nb Hnb. specialize (Hle g nb Hnb). specialize (Hp g nb Hnb).
    apply Nat.leb_le in Hp. lia.
  - intros (Hdc & Hac & Hg & Hp). repeat split; auto.
    intros g nb Hnb. apply Nat.leb_le. rewrite (Hp g nb Hnb). lia.
Qed.

(** C3, counterexample: after the single section of a one-group,
    one-pass frame has been decoded under a pass cap of 0, the group's
    counter is 1 and [max_passes_] is 0: [HasEverything()] is true although
    the counter does not equal [max_passes_]. *)
Lemma HasEverything_not_equality :
  ProcessSections Sample.env_ok [Sample.sec 0]
    (SetMaxPasses 0 (Sample.fresh 1 1 1 0 false false))
  = SectionsReturned StatusOk capped_single_section [kDone] /\
  HasEverything capped_single_section = true /\
  decoded_passes_per_ac_group_ capped_single_section !! 0 = Some 1 /\
  max_passes_ capped_single_section = 0.
Proof. vm_compute. auto. Qed.

(** ** References *)

Lemma References_extra_lor cropped extra result :
  References_extra cropped extra result =
  Z.lor result
        (foldr (fun e acc => Z.lor (ReferencesSpec.blend_bit cropped e) acc)
               0%Z extra).
Proof.
  revert result. induction extra as [|e rest IH]; intros result; simpl.
  - now rewrite Z.lor_0_r.
  - rewrite IH. unfold ReferencesSpec.blend_bit.
    destruct (cropped || negb (BlendMode_eqb (mode e) kReplace)).
    + now rewrite Z.lor_assoc.
    + now rewrite Z.lor_0_l.
Qed.

(** C1 (as the code has it): [References()] is 0 when the frame is
    finalised or not fully decoded; otherwise it is the bitwise OR of the
    blending-source bits, the patch dictionary's bits when the Patches flag
    is set, and bit [16 << ((dc_level+1)-1)] when the UseDcFrame flag is
    set. *)
Theorem References_spec (patches_GetReferences : Z) (d : FrameDecoder) :
  References patches_GetReferences d =
  if is_finalized_ d || negb (HasEverything d) then 0%Z
  else Z.lor (Z.lor (ReferencesSpec.blending_bits (frame_header_ d))
                    (ReferencesSpec.patches_bits patches_GetReferences
                                                 (frame_header_ d)))
             (ReferencesSpec.dc_frame_bit (frame_header_ d)).
Proof.
  unfold References.
  destruct (is_finalized_ d); simpl; [reflexivity|].
  destruct (HasEverything d); simpl; [|reflexivity].
  unfold ReferencesSpec.blending_bits, ReferencesSpec.patches_bits,
    ReferencesSpec.dc_frame_bit.
  set (h := frame_header_ d).
  assert (Hblend :
    (if FrameType_eqb (frame_type h) kRegularFrame
        || FrameType_eqb (frame_type h) kSkipProgressive
     then References_extra (custom_size_or_origin h)
            (extra_channel_blending_info h)
            (if custom_size_or_origin h
                || negb (BlendMode_eqb (mode (blending_info h)) kReplace)
             then Z.lor 0 (Z.shiftl 1 (source (blending_info h))) else 0%Z)
     else 0%Z)
    = if FrameType_eqb (frame_type h) kRegularFrame
         || FrameType_eqb (frame_type h) kSkipProgressive
      then Z.lor (ReferencesSpec.blend_bit (custom_size_or_origin h)
                                           (blending_info h))
                 (foldr (fun e acc =>
                           Z.lor (ReferencesSpec.blend_bit
                                    (custom_size_or_origin h) e) acc)
                        0%Z (extra_channel_blending_info h))
      else 0%Z).
  { destruct (_ || _); [|reflexivity].
    rewrite References_extra_lor. unfold ReferencesSpec.blend_bit.
    destruct (_ || _); [now rewrite Z.lor_0_l | reflexivity]. }
  rewrite Hblend. clear Hblend.
  destruct (has_flag (flags h) Flags.kPatches),
           (has_flag (flags h) Flags.kUseDcFrame);
    rewrite ?Z.lor_0_r; reflexivity.
Qed.

(** C1, counterexample: a frame that is fully decoded and not finalised,
    with the UseDcFrame flag: [References()] is 16, not 0; once the frame
    is finalised it is 0. *)
Lemma References_not_finalised_nonzero :
  is_finalized_ (Sample.complete Flags.kUseDcFrame) = false /\
  HasEverything (Sample.complete Flags.kUseDcFrame) = true /\
  References 0 (Sample.complete Flags.kUseDcFrame) = 16%Z /\
  References 0 (set_is_finalized true (Sample.complete Flags.kUseDcFrame)) = 0%Z.
Proof. vm_compute. auto. Qed.

(** ** FinalizeFrame *)

Lemma same_decoding_refl d : same_decoding d d.
Proof. repeat split. Qed.

Lemma same_decoding_trans d1 d2 d3 :
  same_decoding d1 d2 -> same_decoding d2 d3 -> same_decoding d1 d3.
Proof.
  unfold same_decoding. intros H12 H23.
  destruct H12 as (?&?&?&?&?&?&?&?&?&?&?), H23 as (?&?&?&?&?&?&?&?&?&?&?).
  repeat split; congruence.
Qed.

Lemma same_decoding_HasEverything d d' :
  same_decoding d d' -> HasEverything d' = HasEverything d.
Proof.
  intros (?&?&?&Hdc&Hac&?&?&Hg&Hp&?&Hm). unfold HasEverything.
  now rewrite Hdc, Hac, Hg, Hp, Hm.
Qed.

Lemma AllocateOutput_same env d st d' :
  AllocateOutput env d = (st, d') -> same_decoding d d'.
Proof.
  unfold AllocateOutput. destruct (allocated_ d).
  - intros [= <- <-]. apply same_decoding_refl.
  - destruct (InitForAC env); intros [= <- <-]; repeat split.
Qed.

Lemma list_insert_same {A} (l : list A) (i : nat) (x : A) :
  default x (l !! i) = x -> <[i := x]> l = l.
Proof.
  intros H. destruct (l !! i) as [y|] eqn:Hi; simpl in H.
  - subst. now apply list_insert_id.
  - apply list_insert_ge. now apply lookup_ge_None.
Qed.

(** A forced draw asks for no new pass and so leaves the counters. *)
Lemma ProcessACGroup_zero_same env g readers force_draw dc_only d st d' :
  ProcessACGroup env g readers 0 force_draw dc_only d = (st, d') ->
  same_decoding d d'.
Proof.
  unfold ProcessACGroup. destruct (ac_group_decode _ _ _ _ _ _).
  - intros [= <- <-]. repeat split. simpl.
    rewrite Nat.add_0_r. apply list_insert_same.
    destruct (_ !! g); reflexivity.
  - intros [= <- <-]. apply same_decoding_refl.
  - intros [= <- <-]. apply same_decoding_refl.
Qed.

Lemma force_draw_body_same env g d err :
  same_decoding d (fst (force_draw_body env g (d, err))).
Proof.
  unfold force_draw_body. destruct (_ =? _); [apply same_decoding_refl|].
  destruct (ProcessACGroup _ _ _ _ _ _ _) as [st d'] eqn:H.
  apply ProcessACGroup_zero_same in H. destruct st; exact H.
Qed.

Lemma force_draw_region_same env l d err :
  same_decoding d
    (fst (foldl (fun acc i => force_draw_body env i acc) (d, err) l)).
Proof.
  revert d err. induction l as [|g l IH]; intros d err; cbn [foldl].
  - apply same_decoding_refl.
  - pose proof (force_draw_body_same env g d err) as Hs.
    destruct (force_draw_body env g (d, err)) as [d1 err1].
    eapply same_decoding_trans; [exact Hs|apply IH].
Qed.

Lemma Flush_same env d st d' :
  Flush env d = (st, d') -> same_decoding d d'.
Proof.
  unfold Flush.
  destruct (_ && _); [intros [= <- <-]; apply same_decoding_refl|].
  destruct (_ && _); [intros [= <- <-]; apply same_decoding_refl|].
  destruct (decoded_IsJPEG d); [intros [= <- <-]; apply same_decoding_refl|].
  destruct (AllocateOutput env d) as [sa d1] eqn:Ha.
  apply AllocateOutput_same in Ha.
  destruct sa; try (intros [= <- <-]; exact Ha).
  match goal with
  | |- context [let '(_, _) := ?x in _] => destruct x as [d2 err] eqn:Hr
  end.
  assert (Hs : same_decoding d1 d2).
  { destruct (_ <? _).
    - unfold RunOnPool in Hr.
      pose proof (force_draw_region_same env
                    (seq 0 (length (decoded_passes_per_ac_group_ d1) - 0))
                    d1 false) as H.
      now rewrite Hr in H.
    - injection Hr as <- <-. apply same_decoding_refl. }
  pose proof (same_decoding_trans _ _ _ Ha Hs) as H2.
  destruct err; [intros [= <- <-]; exact H2|].
  destruct (modular_FinalizeDecoding env); intros [= <- <-]; exact H2.
Qed.

(** Whatever [FinalizeFrame] returns, it leaves the frame finalised and
    does not change what has been decoded. *)
Lemma FinalizeFrame_returned env d r d' :
  FinalizeFrame env d = Returned r d' ->
  is_finalized_ d' = true /\
  HasEverything d' = HasEverything d /\
  allow_partial_frames_ d' = allow_partial_frames_ d.
Proof.
  unfold FinalizeFrame.
  destruct (is_finalized_ d) eqn:Hfin; [intros [= <- <-]; auto|].
  set (d0 := set_is_finalized true d).
  assert (H0 : HasEverything d0 = HasEverything d) by reflexivity.
  destruct (decoded_IsJPEG d0); [intros [= <- <-]; auto|].
  set (d1 := if negb (finalized_dc_ d0) then set_epf_iters 0 d0 else d0).
  assert (H1 : same_decoding d0 d1).
  { unfold d1. destruct (negb _); repeat split. }
  assert (Hfin1 : is_finalized_ d1 = true).
  { destruct H1 as (_&_&_&_&_&_&->&_). reflexivity. }
  assert (Hap1 : allow_partial_frames_ d1 = allow_partial_frames_ d).
  { destruct H1 as (_&_&->&_). reflexivity. }
  pose proof (same_decoding_HasEverything _ _ H1) as He1. rewrite H0 in He1.
  clearbody d1. clear H1 H0. clearbody d0.
  destruct (negb (HasEverything d1) && negb (allow_partial_frames_ d1));
    [intros [= <- <-]; auto|].
  assert (Hgen : forall dx, same_decoding d1 dx ->
            is_finalized_ dx = true /\ HasEverything dx = HasEverything d /\
            allow_partial_frames_ dx = allow_partial_frames_ d).
  { intros dx Hx. pose proof (same_decoding_HasEverything _ _ Hx) as Hhx.
    destruct Hx as (_&_&Hapx&_&_&_&Hfx&_). split; [|split]; congruence. }
  assert (Hfinish : forall da,
            same_decoding d1 da ->
            FinalizeFrame_flush env da = Returned r d' ->
            is_finalized_ d' = true /\
            HasEverything d' = HasEverything d /\
            allow_partial_frames_ d' = allow_partial_frames_ d).
  { intros da Hsa. unfold FinalizeFrame_flush.
    destruct (Flush env da) as [sf df] eqn:Hf.
    apply Flush_same in Hf.
    pose proof (same_decoding_trans _ _ _ Hsa Hf) as Hdf.
    destruct sf; intros [= <- <-]; auto.
    destruct (CanBeReferenced (frame_header_ df)); apply Hgen; exact Hdf. }
  destruct (negb (finalized_dc_ d1)).
  - destruct (negb (allow_partial_frames_ d1)); [discriminate|].
    destruct (AllocateOutput env d1) as [sa da] eqn:Ha.
    apply AllocateOutput_same in Ha.
    destruct sa; try (intros [= <- <-]; auto).
    apply Hfinish. exact Ha.
  - apply Hfinish. apply same_decoding_refl.
Qed.

(** C9: [FinalizeFrame()] succeeds at most once.  A call made after any
    call that returned (and thereby set the finalised flag) fails with
    "FinalizeFrame called multiple times" and leaves the decoder exactly
    as it was. *)
Theorem FinalizeFrame_at_most_once (env1 env2 : Externals)
    (d d1 : FrameDecoder) (r1 : Status) :
  FinalizeFrame env1 d = Returned r1 d1 ->
  FinalizeFrame env2 d1 =
    Returned (JXL_FAILURE "FinalizeFrame called multiple times") d1.
Proof.
  intros H. apply FinalizeFrame_returned in H as [Hfin _].
  unfold FinalizeFrame. now rewrite Hfin.
Qed.

Lemma FinalizeFrame_at_most_once_witness :
  FinalizeFrame Sample.env_ok (Sample.complete 0) =
    Returned StatusOk
      (set_num_renders 1 (set_is_finalized true (Sample.complete 0))) /\
  FinalizeFrame Sample.env_ok
    (set_num_renders 1 (set_is_finalized true (Sample.complete 0))) =
    Returned (JXL_FAILURE "FinalizeFrame called multiple times")
      (set_num_renders 1 (set_is_finalized true (Sample.complete 0))).
Proof.
  assert (H : FinalizeFrame Sample.env_ok (Sample.complete 0) =
              Returned StatusOk
                (set_num_renders 1 (set_is_finalized true (Sample.complete 0))))
    by (vm_compute; reflexivity).
  split; [exact H|].
  exact (FinalizeFrame_at_most_once Sample.env_ok Sample.env_ok _ _ _ H).
Defined.

(** C2 (as the code has it): for a frame that is not yet finalised and
    whose output is not a JPEG reconstruction, [FinalizeFrame()] fails with
    "FinalizeFrame called before the frame was fully decoded" unless
    [HasEverything()] holds or partial frames are allowed; hence after a
    successful call the frame is finalised and
    [HasEverything() \/ allow_partial_frames] holds.  With a JPEG
    reconstruction target every call on a frame not yet finalised returns
    success right after setting the finalised flag: nothing else changes
    and neither [HasEverything()] nor [allow_partial_frames] is looked
    at. *)
Theorem FinalizeFrame_requires_everything (env : Externals) (d : FrameDecoder) :
  is_finalized_ d = false ->
  (decoded_IsJPEG d = false ->
   (HasEverything d = false -> allow_partial_frames_ d = false ->
    exists d',
      FinalizeFrame env d =
        Returned
          (JXL_FAILURE "FinalizeFrame called before the frame was fully decoded")
          d') /\
   (forall d', FinalizeFrame env d = Returned StatusOk d' ->
               is_finalized_ d' = true /\
               (HasEverything d' = true \/ allow_partial_frames_ d' = true))) /\
  (decoded_IsJPEG d = true ->
   FinalizeFrame env d = Returned StatusOk (set_is_finalized true d)).
Proof.
  intros Hfin. split; [intros Hjpeg; split|].
  - intros He Hap. unfold FinalizeFrame. rewrite Hfin. simpl. rewrite Hjpeg.
    set (d1 := if negb (finalized_dc_ d) then _ else _).
    assert (H1 : HasEverything d1 = HasEverything d
                 /\ allow_partial_frames_ d1 = allow_partial_frames_ d).
    { unfold d1. destruct (negb _); split; reflexivity. }
    destruct H1 as [-> ->]. rewrite He, Hap. simpl. eauto.
  - intros d' Hres.
    pose proof (FinalizeFrame_returned _ _ _ _ Hres) as (Hf & He & Hap).
    split; [exact Hf|]. rewrite He, Hap.
    unfold FinalizeFrame in Hres. rewrite Hfin in Hres. simpl in Hres.
    rewrite Hjpeg in Hres.
    set (d1 := if negb (finalized_dc_ d) then _ else _) in Hres.
    assert (H1 : HasEverything d1 = HasEverything d
                 /\ allow_partial_frames_ d1 = allow_partial_frames_ d).
    { unfold d1. destruct (negb _); split; reflexivity. }
    destruct H1 as [He1 Hap1]. rewrite He1, Hap1 in Hres.
    destruct (HasEverything d); [now left|].
    destruct (allow_partial_frames_ d); [now right|].
    simpl in Hres. discriminate.
  - intros Hjpeg. unfold FinalizeFrame. rewrite Hfin.
    cbn [decoded_IsJPEG set_is_finalized]. rewrite Hjpeg. reflexivity.
Qed.

Lemma FinalizeFrame_requires_everything_witness :
  (exists d',
     FinalizeFrame Sample.env_ok (Sample.fresh 1 2 2 0 false false) =
       Returned
         (JXL_FAILURE "FinalizeFrame called before the frame was fully decoded")
         d') /\
  (forall d', FinalizeFrame Sample.env_ok (Sample.complete 0) = Returned StatusOk d' ->
              is_finalized_ d' = true /\
              (HasEverything d' = true \/ allow_partial_frames_ d' = true)) /\
  FinalizeFrame Sample.env_ok (Sample.fresh 1 2 2 0 true false) =
    Returned StatusOk (set_is_finalized true (Sample.fresh 1 2 2 0 true false)).
Proof.
  split; [|split].
  - apply (proj1 (FinalizeFrame_requires_everything Sample.env_ok
                    (Sample.fresh 1 2 2 0 false false) eq_refl));
      reflexivity.
  - apply (proj1 (FinalizeFrame_requires_everything Sample.env_ok
                    (Sample.complete 0) eq_refl)).
    reflexivity.
  - apply (proj2 (FinalizeFrame_requires_everything Sample.env_ok
                    (Sample.fresh 1 2 2 0 true false) eq_refl)).
    reflexivity.
Defined.

(** C2, counterexample: with a JPEG reconstruction target,
    [FinalizeFrame()] on a frame of which nothing has been decoded, partial
    frames not allowed, returns success. *)
Lemma FinalizeFrame_jpeg_succeeds_undecoded :
  FinalizeFrame Sample.env_ok (Sample.fresh 1 2 2 0 true false) =
    Returned StatusOk (set_is_finalized true (Sample.fresh 1 2 2 0 true false)) /\
  is_finalized_ (Sample.fresh 1 2 2 0 true false) = false /\
  HasEverything (set_is_finalized true (Sample.fresh 1 2 2 0 true false)) = false /\
  allow_partial_frames_ (set_is_finalized true (Sample.fresh 1 2 2 0 true false))
    = false.
Proof. vm_compute. auto. Qed.

(** ** InitFrame *)

(** The test of [InitFrame] detects exactly the sums that do not fit
    64 bits. *)
Lemma wrap64_overflow (a b : N) :
  (a < 2 ^ 64)%N -> (b < 2 ^ 64)%N ->
  (2 ^ 64 <= a + b)%N <-> (wrap64 (a + b) < a)%N.
Proof.
  unfold wrap64. set (m := (2 ^ 64)%N). intros Ha Hb.
  assert (Hm : (0 < m)%N) by reflexivity.
  split.
  - intros Hov.
    assert (E : ((a + b) mod m = a + b - m)%N).
    { symmetry. apply (N.mod_unique _ _ 1%N); lia. }
    rewrite E. lia.
  - intros Hlt. destruct (N.le_gt_cases m (a + b)) as [H|H]; [exact H|].
    rewrite N.mod_small in Hlt by exact H. lia.
Qed.

(** C8: when the TOC has been read and [group_codes_begin +
    groups_total_size] does not fit 64 bits (the sum wraps around),
    [InitFrame] returns the failure "Invalid group codes" at once, the
    decoder being left as it was when the TOC had been read. *)
Theorem InitFrame_overflow (ext : InitExternals) (reader : ReaderState)
    (decoded : ImageBundle)
    (is_preview allow_partial_frames allow_partial_dc_global output_needed : bool)
    (d d' : FrameDecoder) (group_codes_begin groups_total_size : N) :
  is_finalized_ d = true ->
  InitFrame_toc ext reader decoded is_preview allow_partial_frames
    allow_partial_dc_global d = inr (d', group_codes_begin, groups_total_size) ->
  (group_codes_begin < 2 ^ 64)%N ->
  (groups_total_size < 2 ^ 64)%N ->
  (2 ^ 64 <= group_codes_begin + groups_total_size)%N ->
  InitFrame ext reader decoded is_preview allow_partial_frames
    allow_partial_dc_global output_needed d
  = Returned (JXL_FAILURE "Invalid group codes") d'.
Proof.
  intros Hfin Htoc Hb Ht Hwrap. unfold InitFrame. rewrite Hfin, Htoc. simpl.
  unfold InitFrame_checks.
  apply wrap64_overflow in Hwrap; [|exact Hb|exact Ht].
  apply N.ltb_lt in Hwrap. now rewrite Hwrap.
Qed.

Lemma InitFrame_overflow_witness :
  InitFrame (SampleInit.ext true 0 (2 ^ 64 - 1)) (SampleInit.reader 4096)
    SampleInit.bundle false false false true SampleInit.idle
  = Returned (JXL_FAILURE "Invalid group codes")
      (set_section_sizes (replicate 5 16%N)
         (set_section_offsets (replicate 5 0%N)
            (set_frame_dim
               {| xsize := 512; ysize := 256; num_groups := 2; num_dc_groups := 1 |}
               SampleInit.idle))).
Proof.
  apply (InitFrame_overflow _ _ _ _ _ _ _ _ _ 16%N (2 ^ 64 - 1)%N).
  - reflexivity.
  - vm_compute. reflexivity.
  - vm_compute. reflexivity.
  - vm_compute. reflexivity.
  - vm_compute. discriminate.
Defined.

Lemma has_flag_lor_UseDcFrame (fl : Z) :
  has_flag (Z.lor fl Flags.kUseDcFrame) Flags.kUseDcFrame = true.
Proof.
  unfold has_flag. apply negb_true_iff, Z.eqb_neq. intros H.
  assert (Hbit : Z.testbit (Z.land (Z.lor fl Flags.kUseDcFrame) Flags.kUseDcFrame) 5
                 = true).
  { rewrite Z.land_spec, Z.lor_spec.
    replace (Z.testbit Flags.kUseDcFrame 5) with true by reflexivity.
    now rewrite orb_true_r. }
  rewrite H in Hbit. discriminate.
Qed.

(** The header part of [InitFrame] looks at the decoder's header
    only. *)
Lemma InitFrame_header_frame ext reader ip apf d1 d2 :
  frame_header_ d1 = frame_header_ d2 ->
  InitFrame_header ext reader ip apf d1 = InitFrame_header ext reader ip apf d2.
Proof. unfold InitFrame_header. now intros ->. Qed.

(** None of the tests on a JPEG target fails with the message of the
    header step. *)
Lemma InitFrame_jpeg_message decoded h :
  InitFrame_jpeg decoded h <> JXL_FAILURE "Couldn't read frame header".
Proof.
  unfold InitFrame_jpeg.
  repeat match goal with
         | |- context [if ?c then _ else _] => destruct c
         end; discriminate.
Qed.

(** Once the header step has let [InitFrame] through, with partial
    frames allowed, the call returns with that header in place; it
    succeeds exactly when the later steps pass, and it fails with the
    message of the header step only if a collaborator answers it. *)
Lemma InitFrame_after_header (ext : InitExternals) (reader : ReaderState)
    (decoded : ImageBundle)
    (is_preview allow_partial_dc_global output_needed : bool)
    (d : FrameDecoder) (h : FrameHeader) :
  is_finalized_ d = true ->
  InitFrame_header ext reader is_preview true d = (StatusOk, h) ->
  exists r d',
    InitFrame ext reader decoded is_preview true allow_partial_dc_global
      output_needed d = Returned r d' /\
    frame_header_ d' = h /\
    (r = StatusOk <-> later_steps_pass ext decoded output_needed h) /\
    (never_reports ext (JXL_FAILURE "Couldn't read frame header") ->
     r <> JXL_FAILURE "Couldn't read frame header").
Proof.
  intros Hfin Hh. unfold InitFrame, InitFrame_toc. rewrite Hfin. cbn [negb].
  rewrite (InitFrame_header_frame ext reader is_preview true _ d) by reflexivity.
  rewrite Hh. cbn [ok negb frame_dim_ set_frame_dim xsize ysize num_groups num_dc_groups].
  unfold later_steps_pass, never_reports.
  set (dh := set_frame_dim _ _).
  assert (Hdh : frame_header_ dh = h) by reflexivity. clearbody dh.
  destruct (VerifyDimensions ext _ _) eqn:Hv.
  2,3: (eexists _, _; split; [reflexivity|]; split; [exact Hdh|]; split;
        [split; [discriminate|intros [E _]; discriminate]|];
        intros (Hvd & _ & _) E; eapply Hvd; rewrite Hv; exact E).
  destruct (ReadGroupOffsets ext _) as [ts [[offs szs] tot]].
  cbn [snd]. rewrite orb_true_r. cbn [negb].
  set (dt := set_section_sizes _ _).
  assert (Hdt : frame_header_ dt = h) by (subst dt; exact Hdh). clearbody dt.
  unfold InitFrame_checks. rewrite Hdt.
  destruct (_ <? _)%N eqn:Hov.
  { apply N.ltb_lt in Hov.
    eexists _, _; split; [reflexivity|]; split; [exact Hdt|]; split;
      [split; [discriminate|intros (_ & Hle & _); lia]|].
    intros _; discriminate. }
  apply N.ltb_ge in Hov.
  destruct (negb (chroma_Is444 h)
            && negb (has_flag (flags h) Flags.kSkipAdaptiveDCSmoothing)
            && FrameEncoding_eqb (encoding h) kVarDCT) eqn:Hc.
  { eexists _, _; split; [reflexivity|]; split; [exact Hdt|]; split;
      [split; [discriminate|]|intros _; discriminate].
    intros (_ & _ & Hch & _). exfalso.
    apply andb_true_iff in Hc as [Hc He]. apply andb_true_iff in Hc as [H4 Hs].
    apply negb_true_iff in H4, Hs.
    destruct Hch as [E|E]; [destruct (encoding h); [reflexivity|discriminate]
                           |congruence|congruence]. }
  assert (Hch : encoding h = kVarDCT ->
                chroma_Is444 h = true \/
                has_flag (flags h) Flags.kSkipAdaptiveDCSmoothing = true).
  { intros He. rewrite He in Hc. simpl in Hc. rewrite andb_true_r in Hc.
    destruct (chroma_Is444 h); [now left|].
    destruct (has_flag _ _); [now right|discriminate]. }
  destruct output_needed; cbn [negb].
  2:{ eexists _, _; split; [reflexivity|]; split; [exact Hdt|]; split;
        [|intros _; discriminate].
      split; [|reflexivity]. intros _. repeat split; auto; discriminate. }
  destruct (InitializePassesSharedState ext) eqn:Hi.
  2,3: (eexists _, _; split; [reflexivity|]; split; [exact Hdt|]; split;
        [split; [discriminate|intros (_ & _ & _ & Hout);
                 destruct (Hout eq_refl) as [E _]; discriminate]|];
        intros (_ & Hnr & _) E; apply Hnr; exact E).
  destruct (dec_state_Init ext) eqn:Hs.
  2,3: (eexists _, _; split; [reflexivity|]; split; [exact Hdt|]; split;
        [split; [discriminate|intros (_ & _ & _ & Hout);
                 destruct (Hout eq_refl) as (_ & E & _); discriminate]|];
        intros (_ & _ & Hnr) E; apply Hnr; exact E).
  cbn [frame_header_ set_epf_iters]. rewrite Hdt.
  pose proof (InitFrame_jpeg_message decoded h) as Hmsg.
  destruct (InitFrame_jpeg decoded h) eqn:Hj.
  2,3: (eexists _, _; split; [reflexivity|]; split; [exact Hdt|]; split;
        [split; [discriminate|intros (_ & _ & _ & Hout);
                 destruct (Hout eq_refl) as (_ & _ & E); discriminate]|];
        intros _; exact Hmsg).
  eexists _, _; split; [reflexivity|]; split; [exact Hdt|]; split;
    [|intros _; discriminate].
  split; [|reflexivity]. intros _. repeat split; auto.
Qed.

(** C10: when no frame header can be read and partial frames are
    allowed, [InitFrame] goes on with a synthesised header (UseDcFrame
    flag, VarDCT, DC level 0) if DC-frame slot 0 is non-empty: the call
    returns with that header in place, it succeeds exactly when the steps
    after the header pass, and it does not fail with "Couldn't read frame
    header" unless a collaborator answers that very status.  It fails with
    "Couldn't read frame header" at the header step exactly when that slot
    is empty. *)
Theorem InitFrame_header_fallback (ext : InitExternals) (reader : ReaderState)
    (decoded : ImageBundle)
    (is_preview allow_partial_dc_global output_needed : bool)
    (d : FrameDecoder) :
  is_finalized_ d = true ->
  fst (read_frame_header ext reader
         (set_is_preview is_preview (frame_header_ d))) = false ->
  let h := snd (read_frame_header ext reader
                  (set_is_preview is_preview (frame_header_ d))) in
  ((0 < dc_frames0_xsize ext)%N ->
   InitFrame_header ext reader is_preview true d = (StatusOk, assume_dc_frame h) /\
   has_flag (flags (assume_dc_frame h)) Flags.kUseDcFrame = true /\
   encoding (assume_dc_frame h) = kVarDCT /\
   dc_level (assume_dc_frame h) = 0%N /\
   exists r d',
     InitFrame ext reader decoded is_preview true allow_partial_dc_global
       output_needed d = Returned r d' /\
     frame_header_ d' = assume_dc_frame h /\
     (r = StatusOk <->
      later_steps_pass ext decoded output_needed (assume_dc_frame h)) /\
     (never_reports ext (JXL_FAILURE "Couldn't read frame header") ->
      r <> JXL_FAILURE "Couldn't read frame header")) /\
  (dc_frames0_xsize ext = 0%N ->
   exists d',
     InitFrame ext reader decoded is_preview true allow_partial_dc_global
       output_needed d
     = Returned (JXL_FAILURE "Couldn't read frame header") d').
Proof.
  intros Hfin Hno h. split.
  - intros Hdc.
    assert (Hh : InitFrame_header ext reader is_preview true d
                 = (StatusOk, assume_dc_frame h)).
    { unfold InitFrame_header.
      destruct (read_frame_header _ _ _) as [have h0] eqn:Hr.
      simpl in Hno. subst have. subst h. simpl.
      apply N.ltb_lt in Hdc. now rewrite Hdc. }
    split; [exact Hh|]. split; [apply has_flag_lor_UseDcFrame|].
    split; [reflexivity|]. split; [reflexivity|].
    exact (InitFrame_after_header ext reader decoded is_preview
             allow_partial_dc_global output_needed d (assume_dc_frame h) Hfin Hh).
  - intros Hdc. unfold InitFrame, InitFrame_toc. rewrite Hfin. simpl.
    unfold InitFrame_header. simpl.
    destruct (read_frame_header _ _ _) as [have h0] eqn:Hr.
    simpl in Hno. subst have. simpl. rewrite Hdc. simpl. eauto.
Qed.

Lemma InitFrame_header_fallback_witness :
  (InitFrame_header (SampleInit.ext false 64 80) (SampleInit.reader 4096)
     false true SampleInit.idle
   = (StatusOk, assume_dc_frame (Sample.header 1 0)) /\
   has_flag (flags (assume_dc_frame (Sample.header 1 0))) Flags.kUseDcFrame = true /\
   encoding (assume_dc_frame (Sample.header 1 0)) = kVarDCT /\
   dc_level (assume_dc_frame (Sample.header 1 0)) = 0%N /\
   exists r d',
     InitFrame (SampleInit.ext false 64 80) (SampleInit.reader 4096)
       SampleInit.bundle false true false true SampleInit.idle = Returned r d' /\
     frame_header_ d' = assume_dc_frame (Sample.header 1 0) /\
     (r = StatusOk <->
      later_steps_pass (SampleInit.ext false 64 80) SampleInit.bundle true
        (assume_dc_frame (Sample.header 1 0))) /\
     (never_reports (SampleInit.ext false 64 80)
        (JXL_FAILURE "Couldn't read frame header") ->
      r <> JXL_FAILURE "Couldn't read frame header")) /\
  (exists d',
     InitFrame (SampleInit.ext false 0 80) (SampleInit.reader 4096)
       SampleInit.bundle false true false true SampleInit.idle
     = Returned (JXL_FAILURE "Couldn't read frame header") d').
Proof.
  split.
  - apply (InitFrame_header_fallback (SampleInit.ext false 64 80)
             (SampleInit.reader 4096) SampleInit.bundle false false true
             SampleInit.idle); reflexivity.
  - apply (InitFrame_header_fallback (SampleInit.ext false 0 80)
             (SampleInit.reader 4096) SampleInit.bundle false false true
             SampleInit.idle); reflexivity.
Defined.

(** With the synthesised header the rest of [InitFrame] runs to
    completion. *)
Example InitFrame_fallback_succeeds :
  exists d',
    InitFrame (SampleInit.ext false 64 80) (SampleInit.reader 4096)
      SampleInit.bundle false true false true SampleInit.idle
    = Returned StatusOk d' /\
    has_flag (flags (frame_header_ d')) Flags.kUseDcFrame = true /\
    is_finalized_ d' = false /\
    length (processed_section_ d') = 5.
Proof. eexists. vm_compute. auto. Qed.

(** ** The section scheduler: stage ordering *)

Lemma and_then_all (P Q : Batch -> Prop) (s : Step) (k : Batch -> Step) :
  step_all P s ->
  (forall r b, s = StepReturn r b -> P b -> Q b) ->
  (forall b, s = StepMarkAndReturn b -> P b -> Q b) ->
  (forall b, s = StepNext b -> P b -> step_all Q (k b)) ->
  step_all Q (and_then s k).
Proof.
  destruct s as [|r b|b|b]; simpl; intros H Hr Hm Hn; eauto.
Qed.

Lemma foldl_preserves {A B} (P : A -> Prop) (f : A -> B -> A) (l : list B) (a : A) :
  (forall a x, P a -> P (f a x)) -> P a -> P (foldl f a l).
Proof.
  intros Hf. revert a. induction l as [|x l IH]; simpl; auto.
Qed.

Lemma classify_section_preserves (P : FrameDecoder -> Prop) i s b :
  ignores_bookkeeping P -> P (dec b) ->
  step_all (fun b' => P (dec b')) (classify_section i s b).
Proof.
  intros [Hp _] H. unfold classify_section.
  repeat (match goal with
          | |- context [if ?c then _ else _] => destruct c
          end; simpl; auto).
Qed.

Lemma classify_sections_preserves (P : FrameDecoder -> Prop) sections :
  ignores_bookkeeping P ->
  forall i b, P (dec b) ->
  step_all (fun b' => P (dec b')) (classify_sections i sections b).
Proof.
  intros HP. induction sections as [|s rest IH]; intros i b H; simpl; [exact H|].
  eapply and_then_all.
  - apply classify_section_preserves; eauto.
  - auto.
  - auto.
  - intros b' _ Hb'. apply IH. exact Hb'.
Qed.

Lemma classify_single_preserves (P : FrameDecoder -> Prop) sections b :
  ignores_bookkeeping P -> P (dec b) ->
  step_all (fun b' => P (dec b')) (classify_single sections b).
Proof.
  intros [Hp _] H. unfold classify_single.
  destruct (negb _); simpl; auto.
  destruct sections as [|s rest]; simpl; auto.
  repeat (match goal with
          | |- context [if ?c then _ else _] => destruct c
          end; simpl; auto).
Qed.

Lemma classify_preserves (P : FrameDecoder -> Prop) sections b :
  ignores_bookkeeping P -> P (dec b) ->
  step_all (fun b' => P (dec b')) (classify sections b).
Proof.
  intros HP H. unfold classify. destruct (is_single_section _).
  - now apply classify_single_preserves.
  - eapply and_then_all.
    + apply classify_sections_preserves; eauto.
    + auto.
    + auto.
    + intros b' _ Hb'. simpl. exact Hb'.
Qed.

Lemma MarkSections_loop_preserves (P : FrameDecoder -> Prop) sections :
  ignores_bookkeeping P ->
  forall st d, P d -> P (MarkSections_loop sections st d).
Proof.
  intros [Hp Hn]. induction sections as [|s rest IH]; intros st d H; simpl.
  - exact H.
  - destruct st as [|x st]; [exact H|]. apply IH.
    destruct (_ || _); auto.
Qed.

Lemma MarkSections_preserves (P : FrameDecoder -> Prop) sections st d :
  ignores_bookkeeping P -> P d -> P (MarkSections sections st d).
Proof.
  intros HP H. unfold MarkSections.
  apply MarkSections_loop_preserves; [exact HP|]. destruct HP as [_ Hn]. auto.
Qed.

Lemma stage_order_ignores_bookkeeping : ignores_bookkeeping stage_order.
Proof. split; intros v d H; exact H. Qed.

Lemma forallb_insert_true (l : list bool) (i : nat) :
  forallb (fun x => x) l = true ->
  forallb (fun x => x) (<[i := true]> l) = true.
Proof.
  rewrite !forallb_lookup. intros H j x Hj.
  destruct (decide (i = j)) as [->|Hne].
  - destruct (decide (j < length l)) as [Hlt|Hge].
    + rewrite list_lookup_insert_eq in Hj by exact Hlt. congruence.
    + rewrite list_insert_ge in Hj by lia. eauto.
  - rewrite list_lookup_insert_ne in Hj by exact Hne. eauto.
Qed.

Lemma insert_not_nil {A} (l : list A) (i : nat) (x : A) :
  l <> [] -> <[i := x]> l <> [].
Proof.
  intros H E. apply H. apply (f_equal length) in E.
  rewrite length_insert in E. now destruct l.
Qed.

Lemma stage_dc_global_order env sections b :
  stage_order (dec b) ->
  step_all (fun b' => stage_order (dec b')) (stage_dc_global env sections b).
Proof.
  intros H. unfold stage_dc_global.
  destruct (_ =? _); [exact H|].
  destruct (ProcessDCGlobal _ _ _) as [st d'] eqn:Hp.
  assert (Hd : stage_order d').
  { unfold ProcessDCGlobal in Hp.
    destruct (dc_global_features _ _); try (injection Hp as <- <-; exact H).
    destruct (IsFatalError _); [injection Hp as <- <-; exact H|].
    destruct (ok _); injection Hp as <- <-; [|exact H].
    destruct H as (H1 & H2 & H3 & H4). repeat split; auto. }
  destruct (IsFatalError st); [exact Hd|].
  destruct (ok st); exact Hd.
Qed.

Lemma dc_group_body_order env sections i r :
  decoded_dc_global_ (dec (batch r)) = true ->
  stage_order (dec (batch r)) ->
  decoded_dc_global_ (dec (batch (dc_group_body env sections i r))) = true /\
  stage_order (dec (batch (dc_group_body env sections i r))).
Proof.
  intros Hg H. unfold dc_group_body.
  destruct (_ =? _); [auto|].
  unfold ProcessDCGroup. destruct (dc_group_decode _ _ _); simpl; auto.
  split; [exact Hg|].
  destruct H as (H1 & H2 & H3 & H4). repeat split; simpl; auto.
  - now apply insert_not_nil.
  - intros Hf. apply forallb_insert_true. auto.
Qed.

Lemma stage_dc_groups_order env sections b :
  stage_order (dec b) ->
  step_all (fun b' => stage_order (dec b')) (stage_dc_groups env sections b).
Proof.
  intros H. unfold stage_dc_groups.
  set (r := if decoded_dc_global_ (dec b) then _ else _).
  assert (Hr : stage_order (dec (batch r))).
  { unfold r. destruct (decoded_dc_global_ (dec b)) eqn:Hg; [|exact H].
    unfold RunOnPool.
    apply (foldl_preserves
             (fun r => decoded_dc_global_ (dec (batch r)) = true
                       /\ stage_order (dec (batch r)))
             (fun acc i => dc_group_body env sections i acc)).
    - intros a x [Ha1 Ha2]. now apply dc_group_body_order.
    - simpl. auto. }
  destruct (has_error r); exact Hr.
Qed.

Lemma AllocateOutput_order env d st d' :
  AllocateOutput env d = (st, d') -> stage_order d -> stage_order d'.
Proof.
  unfold AllocateOutput. destruct (allocated_ d).
  - intros [= <- <-]. auto.
  - destruct (InitForAC env); intros [= <- <-] H; exact H.
Qed.

Lemma stage_finalize_dc_order env sections single b :
  stage_order (dec b) ->
  step_all (fun b' => stage_order (dec b'))
           (stage_finalize_dc env sections single b).
Proof.
  intros H. unfold stage_finalize_dc.
  destruct (forallb _ _ && negb _) eqn:Hc; [|exact H].
  apply andb_true_iff in Hc as [Hall Hnf].
  destruct (PreparePipeline env); try exact H.
  assert (H1 : stage_order (FinalizeDC (dec b))).
  { destruct H as (H1 & H2 & H3 & H4). repeat split; auto. }
  destruct (AllocateOutput env (FinalizeDC (dec b))) as [sa d2] eqn:Ha.
  pose proof (AllocateOutput_order _ _ _ _ Ha H1) as H2.
  destruct sa; simpl; try exact H2.
  destruct (_ && _); [|exact H2].
  destruct (can_return_dc _ _); exact H2.
Qed.

(** What [ProcessACGlobal] can do: stop on one of its checks, return an
    error and leave the decoder alone, or succeed and set
    [decoded_ac_global_]. *)
Lemma ProcessACGlobal_fields env reader d :
  ProcessACGlobal env reader d = Aborted \/
  (exists err, err <> StatusOk /\ ProcessACGlobal env reader d = Returned err d) \/
  ProcessACGlobal env reader d = Returned StatusOk (set_decoded_ac_global true d).
Proof.
  unfold ProcessACGlobal.
  destruct (negb (finalized_dc_ d)); [now left|].
  assert (Herr : forall e, e <> StatusOk ->
            Returned e d = Aborted \/
            (exists err, err <> StatusOk /\ Returned e d = Returned err d) \/
            Returned e d = Returned StatusOk (set_decoded_ac_global true d))
    by (intros e He; right; left; eauto).
  destruct (if FrameEncoding_eqb _ _ then _ else _);
    try (apply Herr; discriminate).
  destruct (decoded_IsJPEG d); [|now right; right].
  destruct (raw_qtable env) as [qtable|]; [|apply Herr; discriminate].
  destruct (set_jpeg_quant_tables _ _ _ _) as [[[| |m] q]|];
    [now right; right|apply Herr; discriminate..|now left].
Qed.

Lemma stage_ac_global_order env sections b :
  stage_order (dec b) ->
  step_all (fun b' => stage_order (dec b')) (stage_ac_global env sections b).
Proof.
  intros H. unfold stage_ac_global.
  destruct (_ && _ && _) eqn:Hc; [|exact H].
  apply andb_true_iff in Hc as [Hc _]. apply andb_true_iff in Hc as [Hf _].
  destruct (ProcessACGlobal_fields env
              (default 0 (br <$> sections !! ac_global_sec (sched b))) (dec b))
    as [-> | [[err [Herr ->]] | ->]]; [|destruct err; [congruence| |]|]; simpl; try exact H; [exact I|].
  destruct H as (H1 & H2 & H3 & H4). repeat split; auto.
Qed.

Lemma ac_group_body_order env sections g r :
  match r with Some r => stage_order (dec (batch r)) | None => True end ->
  match ac_group_body env sections g r with
  | Some r' => stage_order (dec (batch r'))
  | None => True
  end.
Proof.
  destruct r as [r|]; simpl; [|auto]. intros H.
  destruct (_ =? 0); [exact H|].
  destruct (existsb _ _); [exact I|].
  unfold ProcessACGroup. destruct (ac_group_decode _ _ _ _ _ _); exact H.
Qed.

Lemma stage_ac_groups_order env sections b :
  stage_order (dec b) ->
  step_all (fun b' => stage_order (dec b')) (stage_ac_groups env sections b).
Proof.
  intros H. unfold stage_ac_groups.
  set (r := if decoded_ac_global_ (dec b) then _ else _).
  assert (Hr : match r with
               | Some r' => stage_order (dec (batch r'))
               | None => True
               end).
  { unfold r. destruct (decoded_ac_global_ (dec b)); [|exact H].
    unfold RunOnPool.
    apply (foldl_preserves
             (fun r => match r with
                       | Some r' => stage_order (dec (batch r'))
                       | None => True
                       end)
             (fun acc i => ac_group_body env sections i acc)).
    - intros a x Ha. now apply ac_group_body_order.
    - exact H. }
  destruct r as [r'|]; [|exact I].
  destruct (has_error r'); exact Hr.
Qed.

(** [ProcessSections] keeps the stage ordering, whatever it returns. *)
Lemma ProcessSections_order env sections d r d' st :
  stage_order d ->
  ProcessSections env sections d = SectionsReturned r d' st ->
  stage_order d'.
Proof.
  intros H. unfold ProcessSections.
  destruct (length sections =? 0); [intros [= <- <- <-]; exact H|].
  match goal with
  | |- match ?s with _ => _ end = _ -> _ =>
      assert (Hs : step_all (fun b' => stage_order (dec b')) s);
      [|destruct s as [|r0 b0|b0|b0]; simpl in Hs; intros [= <- <- <-]]
  end.
  - eapply and_then_all; [apply classify_preserves;
                          [apply stage_order_ignores_bookkeeping|exact H]
                         |auto|auto|].
    intros b1 _ H1. unfold run_stages.
    eapply and_then_all; [apply stage_dc_global_order; exact H1|auto|auto|].
    intros b2 _ H2.
    eapply and_then_all; [apply stage_dc_groups_order; exact H2|auto|auto|].
    intros b3 _ H3.
    eapply and_then_all; [apply stage_finalize_dc_order; exact H3|auto|auto|].
    intros b4 _ H4.
    eapply and_then_all; [apply stage_ac_global_order; exact H4|auto|auto|].
    intros b5 _ H5.
    eapply and_then_all; [apply stage_ac_groups_order; exact H5|auto|auto|].
    intros b6 _ H6. exact H6.
  - exact Hs.
  - apply MarkSections_preserves;
      [apply stage_order_ignores_bookkeeping|exact Hs].
  - apply MarkSections_preserves;
      [apply stage_order_ignores_bookkeeping|exact Hs].
Qed.

Lemma InitFrame_cleared ext reader decoded is_preview apf apdg d0 d :
  InitFrame ext reader decoded is_preview apf apdg true d0 = Returned StatusOk d ->
  exists d1, d = clear_state d1.
Proof.
  unfold InitFrame. destruct (negb _); [discriminate|].
  destruct (InitFrame_toc _ _ _ _ _ _ _) as [res|[[d1 gcb] total]] eqn:Htoc.
  - unfold InitFrame_toc in Htoc.
    destruct (InitFrame_header _ _ _ _ _) as [sh h].
    destruct (negb (ok sh)) eqn:Hok.
    + injection Htoc as <-. intros [= -> _]. discriminate.
    + destruct (VerifyDimensions _ _ _);
        try (injection Htoc as <-; discriminate).
      destruct (ReadGroupOffsets _ _) as [ts [[offs szs] tot]].
      destruct (negb (ok ts || apf)); [|discriminate Htoc].
      injection Htoc as <-. simpl. discriminate.
  - unfold InitFrame_checks.
    destruct (_ <? _)%N; [discriminate|].
    destruct (_ && _ && _); [discriminate|]. simpl.
    destruct (InitializePassesSharedState ext); try discriminate.
    destruct (dec_state_Init ext); try discriminate.
    destruct (InitFrame_jpeg _ _); try discriminate.
    intros [= <-]. eauto.
Qed.

Lemma in_progress_order d : in_progress d -> stage_order d.
Proof.
  induction 1 as [ext reader decoded ip apf apdg d0 d Hinit Hdc
                 |env sections d r d' st _ IH Hps
                 |n d _ IH
                 |d _ IH].
  - apply InitFrame_cleared in Hinit as [d1 ->]. simpl in Hdc.
    repeat split; simpl; try discriminate.
    + destruct (num_dc_groups (frame_dim_ d1)); [lia|discriminate].
    + intros [i Hi]. apply lookup_replicate in Hi as [Hi _]. discriminate.
  - eapply ProcessSections_order; eauto.
  - exact IH.
  - exact IH.
Qed.

(** C4: in every state reached from a fresh [InitFrame] by any sequence
    of [ProcessSections] calls, [finalized_dc] implies that DC-global and
    every DC group are decoded, and [decoded_ac_global] implies
    [finalized_dc]. *)
Theorem stage_flags_ordered (d : FrameDecoder) :
  in_progress d ->
  (finalized_dc_ d = true ->
   decoded_dc_global_ d = true /\
   (forall i have, decoded_dc_groups_ d !! i = Some have -> have = true)) /\
  (decoded_ac_global_ d = true -> finalized_dc_ d = true).
Proof.
  intros H. apply in_progress_order in H as (Hne & Hall & Hglob & Hac).
  split; [|exact Hac].
  intros Hf. specialize (Hall Hf). split.
  - apply Hglob. destruct (decoded_dc_groups_ d) as [|x l] eqn:E; [congruence|].
    exists 0. simpl in Hall. apply andb_true_iff in Hall as [-> _]. reflexivity.
  - intros i have Hi. rewrite forallb_lookup in Hall. exact (Hall i have Hi).
Qed.

Lemma SampleRun_initialised_in_progress : in_progress SampleRun.initialised.
Proof.
  eapply (in_progress_init (SampleInit.ext true 0 80) (SampleInit.reader 4096)
            SampleInit.bundle false false false SampleInit.idle).
  - vm_compute. reflexivity.
  - vm_compute. lia.
Defined.

Lemma SampleRun_decoded_in_progress : in_progress SampleRun.decoded.
Proof.
  eapply (in_progress_sections Sample.env_ok SampleRun.all_sections
            SampleRun.initialised StatusOk SampleRun.decoded
            (replicate 5 kDone)).
  - exact SampleRun_initialised_in_progress.
  - vm_compute. reflexivity.
Defined.

Lemma stage_flags_ordered_witness :
  finalized_dc_ SampleRun.decoded = true /\
  decoded_ac_global_ SampleRun.decoded = true /\
  (finalized_dc_ SampleRun.decoded = true ->
   decoded_dc_global_ SampleRun.decoded = true /\
   (forall i have, decoded_dc_groups_ SampleRun.decoded !! i = Some have ->
                   have = true)) /\
  (decoded_ac_global_ SampleRun.decoded = true ->
   finalized_dc_ SampleRun.decoded = true).
Proof.
  split; [reflexivity|]. split; [reflexivity|].
  exact (stage_flags_ordered SampleRun.decoded SampleRun_decoded_in_progress).
Defined.

(** ** The section scheduler: bookkeeping of the batch *)

Lemma elem_of_insert_inv {A} (l : list A) (i : nat) (x y : A) :
  y ∈ <[i := x]> l -> y = x \/ y ∈ l.
Proof.
  intros H. apply list_elem_of_lookup in H as [j Hj].
  destruct (decide (i = j)) as [->|Hne].
  - destruct (decide (j < length l)) as [Hlt|Hge].
    + rewrite list_lookup_insert_eq in Hj by exact Hlt. left. congruence.
    + rewrite list_insert_ge in Hj by lia. right.
      eapply list_elem_of_lookup_2; eauto.
  - rewrite list_lookup_insert_ne in Hj by exact Hne. right.
    eapply list_elem_of_lookup_2; eauto.
Qed.

Lemma elem_of_concat {A} (ll : list (list A)) (y : A) :
  y ∈ concat ll <-> exists l, y ∈ l /\ l ∈ ll.
Proof.
  induction ll as [|l0 ll IH]; simpl.
  - split; [intros H; inversion H|intros [l [_ H]]; inversion H].
  - rewrite elem_of_app, IH. split.
    + intros [H|[l [H1 H2]]].
      * exists l0. split; [exact H|apply elem_of_cons; now left].
      * exists l. split; [exact H1|apply elem_of_cons; now right].
    + intros [l [H1 H2]]. apply elem_of_cons in H2 as [->|H2]; [now left|].
      right. eauto.
Qed.

Lemma elem_of_concat_insert_inv {A} (ll : list (list A)) (g : nat)
    (row : list A) (y : A) :
  y ∈ concat (<[g := row]> ll) -> y ∈ row \/ y ∈ concat ll.
Proof.
  intros H. apply elem_of_concat in H as [r [Hy Hr]].
  apply elem_of_insert_inv in Hr as [->|Hr]; [now left|].
  right. apply elem_of_concat. eauto.
Qed.

Lemma elem_of_concat_lookup {A} (ll : list (list A)) (g : nat) (y : A) :
  y ∈ default [] (ll !! g) -> y ∈ concat ll.
Proof.
  destruct (ll !! g) as [row|] eqn:Hg; simpl; intros H.
  - apply elem_of_concat. exists row. split; [exact H|].
    eapply list_elem_of_lookup_2; eauto.
  - inversion H.
Qed.

Lemma lookup_insert_true (l : list bool) (i k : nat) :
  l !! k = Some true -> <[i := true]> l !! k = Some true.
Proof.
  intros H. destruct (decide (i = k)) as [->|Hne].
  - apply list_lookup_insert_eq. eapply lookup_lt_Some; eauto.
  - now rewrite list_lookup_insert_ne.
Qed.

Lemma default_false_true (l : list bool) (k : nat) :
  default false (l !! k) = true -> l !! k = Some true.
Proof. destruct (l !! k) as [[]|]; simpl; congruence. Qed.

Lemma set_processed_section_same d :
  set_processed_section (processed_section_ d) d = d.
Proof. destruct d; reflexivity. Qed.

Lemma slots_init_none (num : nat) (d : FrameDecoder) (i : nat) :
  i ∈ slots (Schedule_init num d) -> i = num.
Proof.
  unfold slots, Schedule_init. simpl.
  rewrite !elem_of_cons, elem_of_app.
  intros [H|[H|[H|H]]]; auto.
  - apply elem_of_replicate in H as [H _]. exact H.
  - apply elem_of_concat in H as [row [Hi Hrow]].
    apply elem_of_replicate in Hrow as [-> _].
    apply elem_of_replicate in Hi as [H _]. exact H.
Qed.

Lemma classified_init sections d : classified sections d (Batch_init sections d).
Proof.
  split; simpl.
  - symmetry. apply set_processed_section_same.
  - reflexivity.
  - apply length_replicate.
  - intros i Hi. left. now apply lookup_replicate_2.
  - intros i s Hs Hin. apply slots_init_none in Hin. subst.
    apply lookup_lt_Some in Hs. lia.
  - reflexivity.
  - intros _ _ g. destruct (replicate _ 0 !! g) as [x|] eqn:Hg; [|reflexivity].
    apply lookup_replicate in Hg as [-> _]. reflexivity.
Qed.

(** One iteration of the classification loop keeps [classified]. *)
Lemma classify_section_classified sections d0 i s b :
  sections !! i = Some s ->
  classified sections d0 b ->
  step_all (classified sections d0) (classify_section i s b).
Proof.
  intros Hs [Hdec Hlen Hslen Hst Hsl Hk Hz].
  assert (Hi : i < length sections) by (eapply lookup_lt_Some; eauto).
  assert (Hdim : frame_dim_ (dec b) = frame_dim_ d0) by (rewrite Hdec; reflexivity).
  assert (Hhdr : frame_header_ (dec b) = frame_header_ d0)
    by (rewrite Hdec; reflexivity).
  assert (Hmax : max_passes_ (dec b) = max_passes_ d0) by (rewrite Hdec; reflexivity).
  (* the batch after recording entry [i] in a table *)
  assert (Hmark : forall sc,
    recorded_id d0 (id s) ->
    id s < length (processed_section_ (dec b)) ->
    (forall j, j ∈ slots sc -> j = i \/ j ∈ slots (sched b)) ->
    num_ac_passes sc = num_ac_passes (sched b) ->
    classified sections d0
      {| dec := set_processed_section
                  (<[id s := true]> (processed_section_ (dec b))) (dec b);
         section_status := section_status b; sched := sc |}).
  { intros sc Hrec Hlt Hsc Hnum. split; simpl.
    - rewrite Hdec at 2. reflexivity.
    - now rewrite length_insert.
    - exact Hslen.
    - intros j Hj. destruct (Hst j Hj) as [H|[H [s' [Hs' Hp]]]]; [now left|].
      right. split; [exact H|]. exists s'. split; [exact Hs'|].
      now apply lookup_insert_true.
    - intros j s' Hs' Hin. destruct (Hsc j Hin) as [->|Hold].
      + rewrite Hs in Hs'. injection Hs' as <-. split; [exact Hrec|].
        now apply list_lookup_insert_eq.
      + destruct (Hsl j s' Hs' Hold) as [H1 H2]. split; [exact H1|].
        now apply lookup_insert_true.
    - intros k Hnk. rewrite list_lookup_insert_ne; [now apply Hk|].
      intros E. subst k. contradiction.
    - rewrite Hnum. exact Hz. }
  unfold classify_section.
  destruct (id s <? length (processed_section_ (dec b))) eqn:Hin; simpl; [|exact I].
  apply Nat.ltb_lt in Hin.
  destruct (default false (processed_section_ (dec b) !! id s)) eqn:Hproc; simpl.
  { (* duplicate *)
    apply default_false_true in Hproc. split; simpl; auto.
    - now rewrite length_insert.
    - intros j Hj. destruct (decide (i = j)) as [<-|Hne].
      + right. split; [apply list_lookup_insert_eq; lia|]. eauto.
      + rewrite list_lookup_insert_ne by exact Hne. auto. }
  rewrite Hdim, Hhdr, Hmax.
  destruct (id s =? 0) eqn:H0; simpl.
  { apply Nat.eqb_eq in H0. apply Hmark; [left; lia|exact Hin| |reflexivity].
    intros j. unfold slots. simpl. rewrite !elem_of_cons. tauto. }
  apply Nat.eqb_neq in H0.
  destruct (id s <? num_dc_groups (frame_dim_ d0) + 1) eqn:H1; simpl.
  { apply Nat.ltb_lt in H1. apply Hmark; [left; lia|exact Hin| |reflexivity].
    intros j. unfold slots. simpl. rewrite !elem_of_cons, !elem_of_app.
    intros [H|[H|[H|H]]]; auto.
    apply elem_of_insert_inv in H as [H|H]; auto. }
  apply Nat.ltb_ge in H1.
  destruct (id s =? num_dc_groups (frame_dim_ d0) + 1) eqn:H2; simpl.
  { apply Nat.eqb_eq in H2. apply Hmark; [left; lia|exact Hin| |reflexivity].
    intros j. unfold slots. simpl. rewrite !elem_of_cons. tauto. }
  apply Nat.eqb_neq in H2.
  fold (ac_pass d0 (id s)).
  destruct (ac_pass d0 (id s) <? num_passes (passes (frame_header_ d0))) eqn:H3;
    simpl.
  2:{ split; auto. }
  apply Nat.ltb_lt in H3.
  destruct (ac_pass d0 (id s) <? max_passes_ d0) eqn:H4; simpl.
  2:{ split; auto. }
  apply Nat.ltb_lt in H4.
  apply Hmark; [right; auto|exact Hin| |reflexivity].
  intros j. unfold slots. simpl. rewrite !elem_of_cons, !elem_of_app.
  intros [H|[H|[H|H]]]; auto.
  apply elem_of_concat_insert_inv in H as [H|H]; auto.
  apply elem_of_insert_inv in H as [H|H]; auto.
  apply elem_of_concat_lookup in H. auto.
Qed.

Lemma classify_sections_classified sections d0 rest :
  forall i b,
  (forall j s, rest !! j = Some s -> sections !! (i + j) = Some s) ->
  classified sections d0 b ->
  step_all (classified sections d0) (classify_sections i rest b).
Proof.
  induction rest as [|s rest IH]; intros i b Hrest Hb; simpl; [exact Hb|].
  eapply and_then_all.
  - apply classify_section_classified; [|exact Hb].
    specialize (Hrest 0 s eq_refl). now rewrite Nat.add_0_r in Hrest.
  - auto.
  - auto.
  - intros b' _ Hb'. apply IH; [|exact Hb'].
    intros j s' Hj. specialize (Hrest (S j) s' Hj).
    now replace (S i + j) with (i + S j) by lia.
Qed.

Lemma classify_single_classified sections d :
  is_single_section d = true ->
  processed_section_ d <> [] ->
  step_all (classified sections d) (classify_single sections (Batch_init sections d)).
Proof.
  intros Hsingle Hne. pose proof (classified_init sections d) as Hb.
  destruct Hb as [Hdec Hlen Hslen Hst Hsl Hk Hz].
  unfold classify_single.
  destruct (length sections =? 1) eqn:Hl; simpl; [|exact I].
  apply Nat.eqb_eq in Hl.
  destruct sections as [|s [|s' rest]]; try discriminate. clear Hl.
  destruct (id s =? 0) eqn:Hid; simpl; [|exact I].
  apply Nat.eqb_eq in Hid.
  assert (H0 : 0 < length (processed_section_ d)).
  { destruct (processed_section_ d); [congruence|simpl; lia]. }
  destruct (default false (processed_section_ d !! 0)) eqn:Hproc; simpl.
  - (* duplicate *)
    apply default_false_true in Hproc. split; simpl; auto.
    intros j Hj. assert (j = 0) by lia. subst j. right.
    split; [reflexivity|]. exists s. rewrite Hid. auto.
  - split; simpl; [| | | | | |congruence].
    + reflexivity.
    + now rewrite length_insert.
    + reflexivity.
    + intros j Hj. assert (j = 0) by lia. subst j. now left.
    + intros j s1 Hs1 _. destruct j; [|discriminate].
      injection Hs1 as <-. rewrite Hid. split; [left; lia|].
      now apply list_lookup_insert_eq.
    + intros k Hnk. rewrite list_lookup_insert_ne; [reflexivity|].
      intros E. subst k. apply Hnk. left. lia.
Qed.

(** Under a pass cap of 0 no group has a new pass. *)
Lemma count_num_ac_passes_capped num d sc g :
  max_passes_ d = 0 ->
  default 0 (count_num_ac_passes num d sc !! g) = 0.
Proof.
  intros Hmax. unfold count_num_ac_passes. rewrite list_lookup_imap, Hmax.
  destruct (ac_group_sec sc !! g); reflexivity.
Qed.

Lemma classify_classified sections d :
  (is_single_section d = true -> processed_section_ d <> []) ->
  step_all (classified sections d) (classify sections (Batch_init sections d)).
Proof.
  intros Hne. unfold classify. simpl.
  destruct (is_single_section d) eqn:Hsingle.
  - apply classify_single_classified; auto.
  - eapply and_then_all.
    + apply (classify_sections_classified sections d sections 0);
        [auto|apply classified_init].
    + auto.
    + auto.
    + intros b' _ [Hdec Hlen Hslen Hst Hsl Hk Hz]. simpl. split; simpl; auto.
      intros _ Hmax g. apply count_num_ac_passes_capped.
      rewrite Hdec. exact Hmax.
Qed.

Lemma later_refl b : later b b.
Proof. split; auto. Qed.

Lemma later_trans b1 b2 b3 : later b1 b2 -> later b2 b3 -> later b1 b3.
Proof.
  intros [A1 A2 A3 A4 A5 A6 A7 A8 A9] [B1 B2 B3 B4 B5 B6 B7 B8 B9].
  split; try congruence.
  - intros i Hi. rewrite B3, A3; auto. now rewrite A1.
  - intros Hz. rewrite B9, A9; auto. now rewrite A1.
Qed.

(** [later] for a batch differing in the decoder only. *)
Lemma later_set_dec b d' :
  processed_section_ d' = processed_section_ (dec b) ->
  num_sections_done_ d' = num_sections_done_ (dec b) ->
  frame_header_ d' = frame_header_ (dec b) ->
  frame_dim_ d' = frame_dim_ (dec b) ->
  max_passes_ d' = max_passes_ (dec b) ->
  decoded_passes_per_ac_group_ d' = decoded_passes_per_ac_group_ (dec b) ->
  later b (set_dec d' b).
Proof. intros. split; simpl; auto. Qed.

Lemma later_set_status b b' v st :
  later b b' -> v ∈ slots (sched b) -> later b (set_status v st b').
Proof.
  intros [A1 A2 A3 A4 A5 A6 A7 A8 A9] Hv. split; simpl; auto.
  - now rewrite length_insert.
  - intros i Hi. rewrite list_lookup_insert_ne; [auto|].
    intros ->. contradiction.
Qed.

Lemma ProcessDCGlobal_fields env reader d st d' :
  ProcessDCGlobal env reader d = (st, d') ->
  d' = d \/ d' = set_decoded_dc_global true d.
Proof.
  unfold ProcessDCGlobal. destruct (dc_global_features _ _);
    try (intros [= <- <-]; now left).
  destruct (IsFatalError _); [intros [= <- <-]; now left|].
  destruct (ok _); intros [= <- <-]; auto.
Qed.

Lemma stage_dc_global_later env sections b :
  step_later b (stage_dc_global env sections b).
Proof.
  unfold stage_dc_global.
  destruct (_ =? _) eqn:Hsec; [apply later_refl|].
  destruct (ProcessDCGlobal _ _ _) as [st d'] eqn:Hp.
  assert (Hl : later b (set_dec d' b)).
  { apply ProcessDCGlobal_fields in Hp as [->| ->]; apply later_set_dec; reflexivity. }
  assert (Hin : dc_global_sec (sched b) ∈ slots (sched b)).
  { unfold slots. apply elem_of_cons. now left. }
  destruct (IsFatalError st) eqn:Hf.
  - split; [|exact Hl]. intros ->. discriminate.
  - destruct (ok st); simpl; now apply later_set_status.
Qed.

Lemma dc_group_body_later env sections g b r :
  later b (batch r) -> later b (batch (dc_group_body env sections g r)).
Proof.
  intros Hl. unfold dc_group_body.
  destruct (dc_group_sec (sched (batch r)) !! g) as [sec|] eqn:Hsec; simpl.
  2:{ rewrite Nat.eqb_refl. exact Hl. }
  destruct (sec =? length sections); [exact Hl|].
  assert (Hin : sec ∈ slots (sched b)).
  { rewrite <- (lt_sched _ _ Hl). unfold slots.
    rewrite !elem_of_cons, elem_of_app. right. right. left.
    eapply list_elem_of_lookup_2; eauto. }
  unfold ProcessDCGroup. destruct (dc_group_decode _ _ _); simpl.
  - apply (later_set_status b (set_dec _ (batch r)) sec kDone); [|exact Hin].
    eapply later_trans; [exact Hl|]. apply later_set_dec; reflexivity.
  - destruct Hl. split; auto.
  - destruct Hl. split; auto.
Qed.

Lemma stage_dc_groups_later env sections b :
  step_later b (stage_dc_groups env sections b).
Proof.
  unfold stage_dc_groups.
  set (r := if decoded_dc_global_ (dec b) then _ else _).
  assert (Hr : later b (batch r)).
  { unfold r. destruct (decoded_dc_global_ (dec b)); [|apply later_refl].
    unfold RunOnPool.
    apply (foldl_preserves (fun r => later b (batch r))
             (fun acc i => dc_group_body env sections i acc)).
    - intros a g Ha. now apply dc_group_body_later.
    - apply later_refl. }
  destruct (has_error r); simpl; [|exact Hr].
  split; [discriminate|exact Hr].
Qed.

Lemma AllocateOutput_fields env d st d' :
  AllocateOutput env d = (st, d') -> d' = d \/ d' = set_allocated true d.
Proof.
  unfold AllocateOutput. destruct (allocated_ d); [intros [= <- <-]; now left|].
  destruct (InitForAC env); intros [= <- <-]; auto.
Qed.

Lemma stage_finalize_dc_later env sections single b :
  step_later b (stage_finalize_dc env sections single b).
Proof.
  unfold stage_finalize_dc.
  destruct (_ && _); [|apply later_refl].
  destruct (PreparePipeline env); simpl;
    try (split; [discriminate|apply later_refl]).
  destruct (AllocateOutput env (FinalizeDC (dec b))) as [sa d2] eqn:Ha.
  assert (Hl : later b (set_dec d2 b)).
  { apply AllocateOutput_fields in Ha as [->| ->]; apply later_set_dec; reflexivity. }
  destruct sa; simpl; try (split; [discriminate|exact Hl]).
  destruct (_ && _); [|exact Hl].
  destruct (can_return_dc _ _); exact Hl.
Qed.

Lemma stage_ac_global_later env sections b :
  step_later b (stage_ac_global env sections b).
Proof.
  unfold stage_ac_global.
  destruct (_ && _ && _) eqn:Hc; [|apply later_refl].
  apply andb_true_iff in Hc as [Hc _]. apply andb_true_iff in Hc as [Hf Hsec].
  assert (Hin : ac_global_sec (sched b) ∈ slots (sched b)).
  { unfold slots. rewrite !elem_of_cons. auto. }
  destruct (ProcessACGlobal_fields env
              (default 0 (br <$> sections !! ac_global_sec (sched b))) (dec b))
    as [-> | [[err [Herr ->]] | ->]]; [|destruct err; [congruence| |]|]; simpl.
  - exact I.
  - split; [discriminate|]. apply later_set_dec; reflexivity.
  - split; [discriminate|]. apply later_set_dec; reflexivity.
  - apply later_set_status; [|exact Hin]. apply later_set_dec; reflexivity.
Qed.

Lemma foldl_insert_later b b' (secs : list nat) st :
  later b b' ->
  (forall sec, sec ∈ secs -> sec ∈ slots (sched b)) ->
  later b {| dec := dec b';
             section_status :=
               foldl (fun acc sec => <[sec := st]> acc) (section_status b') secs;
             sched := sched b' |}.
Proof.
  revert b'. induction secs as [|sec secs IH]; intros b' Hl Hin; simpl.
  - destruct b'; exact Hl.
  - apply (IH (set_status sec st b')).
    + apply later_set_status; [exact Hl|]. apply Hin. apply elem_of_cons. now left.
    + intros x Hx. apply Hin. apply elem_of_cons. now right.
Qed.

Lemma ac_group_body_later env sections g b r :
  match r with Some r => later b (batch r) | None => True end ->
  match ac_group_body env sections g r with
  | Some r' => later b (batch r')
  | None => True
  end.
Proof.
  destruct r as [r|]; simpl; [|auto]. intros Hl.
  destruct (default 0 (num_ac_passes (sched (batch r)) !! g) =? 0) eqn:Hn;
    [exact Hl|].
  apply Nat.eqb_neq in Hn.
  set (n := default 0 (num_ac_passes (sched (batch r)) !! g)) in *.
  set (first_pass := default 0 (decoded_passes_per_ac_group_ (dec (batch r)) !! g)).
  set (row := default [] (ac_group_sec (sched (batch r)) !! g)).
  set (secs := (fun i => default (length sections) (row !! (first_pass + i)))
                 <$> seq 0 n).
  destruct (existsb _ secs) eqn:Hex; [exact I|].
  assert (Hin : forall sec, sec ∈ secs -> sec ∈ slots (sched b)).
  { intros sec Hsec. rewrite <- (lt_sched _ _ Hl).
    assert (Hne : sec <> length sections).
    { intros ->. apply list_elem_of_In in Hsec.
      assert (existsb (fun sec => sec =? length sections) secs = true).
      { apply existsb_exists. exists (length sections). split; [exact Hsec|].
        apply Nat.eqb_refl. }
      congruence. }
    unfold secs in Hsec. apply list_elem_of_fmap in Hsec as [i [-> Hi]].
    destruct (row !! (first_pass + i)) as [x|] eqn:Hx; simpl in *; [|congruence].
    unfold slots. rewrite !elem_of_cons, elem_of_app. right. right. right.
    apply (elem_of_concat_lookup _ g). fold row.
    eapply list_elem_of_lookup_2; eauto. }
  assert (Hnz : ~ (forall g, default 0 (num_ac_passes (sched b) !! g) = 0)).
  { intros Hz. apply Hn. unfold n. rewrite (lt_sched _ _ Hl). apply Hz. }
  assert (Hd : forall d', 
            processed_section_ d' = processed_section_ (dec (batch r)) ->
            num_sections_done_ d' = num_sections_done_ (dec (batch r)) ->
            frame_header_ d' = frame_header_ (dec (batch r)) ->
            frame_dim_ d' = frame_dim_ (dec (batch r)) ->
            max_passes_ d' = max_passes_ (dec (batch r)) ->
            later b (set_dec d' (batch r))).
  { intros d' E1 E2 E3 E4 E5. destruct Hl. split; simpl; try congruence; auto.
    intros Hz. contradiction. }
  unfold ProcessACGroup. destruct (ac_group_decode _ _ _ _ _ _); simpl.
  - apply (foldl_insert_later b (set_dec _ (batch r)) secs kDone); [|exact Hin].
    apply Hd; reflexivity.
  - apply (Hd (dec (batch r))); reflexivity.
  - apply (Hd (dec (batch r))); reflexivity.
Qed.

Lemma stage_ac_groups_later env sections b :
  step_later b (stage_ac_groups env sections b).
Proof.
  unfold stage_ac_groups.
  set (r := if decoded_ac_global_ (dec b) then _ else _).
  assert (Hr : match r with Some r' => later b (batch r') | None => True end).
  { unfold r. destruct (decoded_ac_global_ (dec b)); [|apply later_refl].
    unfold RunOnPool.
    apply (foldl_preserves
             (fun r => match r with Some r' => later b (batch r') | None => True end)
             (fun acc i => ac_group_body env sections i acc)).
    - intros a g Ha. now apply ac_group_body_later.
    - apply later_refl. }
  destruct r as [r'|]; [|exact I].
  destruct (has_error r'); simpl; [|exact Hr].
  split; [discriminate|exact Hr].
Qed.

Lemma step_later_trans b b1 s :
  later b b1 -> step_later b1 s -> step_later b s.
Proof.
  intros Hl. destruct s as [|r b'|b'|b']; simpl; auto.
  - intros [Hr H]. split; [exact Hr|]. eapply later_trans; eauto.
  - apply later_trans. exact Hl.
  - apply later_trans. exact Hl.
Qed.

Lemma and_then_later b s k :
  step_later b s ->
  (forall b1, step_later b1 (k b1)) ->
  step_later b (and_then s k).
Proof.
  destruct s as [|r b'|b'|b']; simpl; auto.
  intros Hl Hk. eapply step_later_trans; eauto.
Qed.

Lemma run_stages_later env sections single b :
  step_later b (run_stages env sections single b).
Proof.
  unfold run_stages.
  apply and_then_later; [apply stage_dc_global_later|]. intros b1.
  apply and_then_later; [apply stage_dc_groups_later|]. intros b2.
  apply and_then_later; [apply stage_finalize_dc_later|]. intros b3.
  apply and_then_later; [apply stage_ac_global_later|]. intros b4.
  apply and_then_later; [apply stage_ac_groups_later|]. intros b5.
  apply later_refl.
Qed.

Lemma stage_finalize_dc_settled env sections single b :
  step_settled (stage_finalize_dc env sections single b).
Proof.
  unfold stage_finalize_dc.
  destruct (forallb _ _ && negb _) eqn:Hc.
  - destruct (PreparePipeline env); simpl; auto.
    destruct (AllocateOutput env (FinalizeDC (dec b))) as [sa d2] eqn:Ha.
    assert (Hf : finalized_dc_ d2 = true).
    { apply AllocateOutput_fields in Ha as [->| ->]; reflexivity. }
    destruct sa; simpl; auto.
    destruct (pause_at_progressive_ d2 && negb single);
      [destruct (can_return_dc _ _)|];
      simpl; unfold settled; simpl; intros _; exact Hf.
  - simpl. intros Hall. rewrite Hall in Hc. simpl in Hc.
    now apply negb_false_iff in Hc.
Qed.

Lemma stage_ac_global_settled env sections b :
  settled b -> step_settled (stage_ac_global env sections b).
Proof.
  intros H. unfold stage_ac_global.
  destruct (_ && _ && _); [|exact H].
  destruct (ProcessACGlobal_fields env
              (default 0 (br <$> sections !! ac_global_sec (sched b))) (dec b))
    as [-> | [[err [Herr ->]] | ->]]; [|destruct err; [congruence| |]|]; simpl; auto.
Qed.

Lemma ac_group_body_dc env sections g r :
  match ac_group_body env sections g (Some r) with
  | Some r' =>
      decoded_dc_groups_ (dec (batch r')) = decoded_dc_groups_ (dec (batch r)) /\
      finalized_dc_ (dec (batch r')) = finalized_dc_ (dec (batch r))
  | None => True
  end.
Proof.
  simpl. destruct (_ =? 0); [auto|].
  destruct (existsb _ _); [exact I|].
  unfold ProcessACGroup. destruct (ac_group_decode _ _ _ _ _ _); simpl; auto.
Qed.

Lemma stage_ac_groups_settled env sections b :
  settled b -> step_settled (stage_ac_groups env sections b).
Proof.
  intros H. unfold stage_ac_groups.
  set (r := if decoded_ac_global_ (dec b) then _ else _).
  assert (Hr : match r with Some r' => settled (batch r') | None => True end).
  { unfold r. destruct (decoded_ac_global_ (dec b)); [|exact H].
    unfold RunOnPool.
    apply (foldl_preserves
             (fun r => match r with Some r' => settled (batch r') | None => True end)
             (fun acc i => ac_group_body env sections i acc)); [|exact H].
    intros [a|] g Ha; [|exact I].
    pose proof (ac_group_body_dc env sections g a) as Hdc.
    destruct (ac_group_body env sections g (Some a)) as [r'|]; [|exact I].
    destruct Hdc as [E1 E2]. unfold settled. now rewrite E1, E2. }
  destruct r as [r'|]; [|exact I].
  destruct (has_error r'); simpl; [exact I|exact Hr].
Qed.

Lemma run_stages_settled env sections single b :
  step_settled (run_stages env sections single b).
Proof.
  unfold run_stages.
  destruct (stage_dc_global env sections b) as [|r1 b1|b1|b1] eqn:H1; simpl; auto.
  { unfold stage_dc_global in H1. destruct (_ =? _); [discriminate|].
    destruct (ProcessDCGlobal _ _ _). destruct (IsFatalError _); [discriminate|].
    destruct (ok _); discriminate. }
  destruct (stage_dc_groups env sections b1) as [|r2 b2|b2|b2] eqn:H2; simpl; auto.
  { unfold stage_dc_groups in H2. destruct (has_error _); discriminate. }
  pose proof (stage_finalize_dc_settled env sections single b2) as H3.
  destruct (stage_finalize_dc env sections single b2) as [|r3 b3|b3|b3];
    simpl; auto.
  pose proof (stage_ac_global_settled env sections b3 H3) as H4.
  destruct (stage_ac_global env sections b3) as [|r4 b4|b4|b4]; simpl; auto.
  pose proof (stage_ac_groups_settled env sections b4 H4) as H5.
  destruct (stage_ac_groups env sections b4) as [|r5 b5|b5|b5]; simpl; auto.
Qed.

Lemma classify_section_shape i s b :
  match classify_section i s b with
  | StepReturn r _ => r = JXL_FAILURE "Invalid section ID"
  | StepMarkAndReturn _ => False
  | _ => True
  end.
Proof.
  unfold classify_section.
  repeat (match goal with
          | |- context [if ?c then _ else _] => destruct c
          end; simpl; auto).
Qed.

Lemma classify_sections_shape sections :
  forall i b,
  match classify_sections i sections b with
  | StepReturn r _ => r = JXL_FAILURE "Invalid section ID"
  | StepMarkAndReturn _ => False
  | _ => True
  end.
Proof.
  induction sections as [|s rest IH]; intros i b; simpl; [exact I|].
  pose proof (classify_section_shape i s b) as H.
  destruct (classify_section i s b); simpl; auto. apply IH.
Qed.

Lemma classify_shape sections b :
  match classify sections b with
  | StepReturn r _ => r = JXL_FAILURE "Invalid section ID"
  | StepMarkAndReturn _ => False
  | _ => True
  end.
Proof.
  unfold classify. destruct (is_single_section _).
  - unfold classify_single. destruct (negb _); simpl; auto.
    destruct sections as [|s rest]; simpl; auto.
    repeat (match goal with
            | |- context [if ?c then _ else _] => destruct c
            end; simpl; auto).
  - pose proof (classify_sections_shape sections 0 b) as H.
    destruct (classify_sections 0 sections b); simpl; auto.
Qed.

(** How a returning call of [ProcessSections] on a non-empty batch came
    about: classification left [bc]; the stages left [b]; on success the
    result is [b] after [MarkSections]. *)
Lemma ProcessSections_trace env sections d r d' st :
  sections <> [] ->
  (is_single_section d = true -> processed_section_ d <> []) ->
  ProcessSections env sections d = SectionsReturned r d' st ->
  exists bc b,
    classified sections d bc /\ later bc b /\ st = section_status b /\
    ((r <> StatusOk /\ d' = dec b) \/
     (r = StatusOk /\ settled b /\ d' = MarkSections sections st (dec b))).
Proof.
  intros Hne Hsingle. unfold ProcessSections.
  destruct (length sections =? 0) eqn:Hlen.
  { apply Nat.eqb_eq in Hlen. destruct sections; [congruence|discriminate]. }
  pose proof (classify_classified sections d Hsingle) as Hc.
  pose proof (classify_shape sections (Batch_init sections d)) as Hshape.
  destruct (classify sections (Batch_init sections d)) as [|rc bc|bc|bc]; simpl.
  - discriminate.
  - intros [= <- <- <-]. exists bc, bc. simpl in Hc.
    split; [exact Hc|]. split; [apply later_refl|]. split; [reflexivity|].
    left. subst rc. split; [discriminate|reflexivity].
  - contradiction.
  - simpl in Hc.
    pose proof (run_stages_later env sections (is_single_section d) bc) as Hl.
    pose proof (run_stages_settled env sections (is_single_section d) bc) as Hs.
    destruct (run_stages env sections (is_single_section d) bc) as [|r1 b|b|b];
      simpl in *.
    + discriminate.
    + intros [= <- <- <-]. exists bc, b. destruct Hl as [Hr Hl]. auto 10.
    + intros [= <- <- <-]. exists bc, b. auto 10.
    + intros [= <- <- <-]. exists bc, b. auto 10.
Qed.

(** ** The section scheduler: invalid and ignored AC-group sections *)

Lemma classify_sections_app pre rest :
  forall i b,
  classify_sections i (pre ++ rest) b =
  and_then (classify_sections i pre b) (classify_sections (i + length pre) rest).
Proof.
  induction pre as [|s pre IH]; intros i b; simpl.
  - now rewrite Nat.add_0_r.
  - destruct (classify_section i s b); simpl; auto.
    rewrite IH. now replace (S i + length pre) with (i + S (length pre)) by lia.
Qed.

Lemma classify_section_scannable sections d0 i s b :
  classified sections d0 b -> scannable d0 s ->
  exists b', classify_section i s b = StepNext b'.
Proof.
  intros [Hdec Hlen _ _ _ _ _] [Hin Hval]. unfold classify_section.
  rewrite Hlen. apply Nat.ltb_lt in Hin. rewrite Hin. simpl.
  destruct (default false _); [eauto|].
  destruct (id s =? 0); [eauto|].
  assert (Hdim : frame_dim_ (dec b) = frame_dim_ d0) by (rewrite Hdec; reflexivity).
  assert (Hhdr : frame_header_ (dec b) = frame_header_ d0)
    by (rewrite Hdec; reflexivity).
  rewrite Hdim, Hhdr.
  destruct (id s <? num_dc_groups (frame_dim_ d0) + 1) eqn:H1; [eauto|].
  apply Nat.ltb_ge in H1.
  destruct (id s =? num_dc_groups (frame_dim_ d0) + 1) eqn:H2; [eauto|].
  apply Nat.eqb_neq in H2.
  fold (ac_pass d0 (id s)).
  destruct Hval as [Hval|Hval]; [lia|].
  apply Nat.ltb_lt in Hval. rewrite Hval. simpl.
  destruct (negb _); eauto.
Qed.

Lemma classify_sections_scannable sections d0 pre :
  forall i b,
  (forall j s, pre !! j = Some s -> sections !! (i + j) = Some s) ->
  classified sections d0 b ->
  (forall s, s ∈ pre -> scannable d0 s) ->
  exists b', classify_sections i pre b = StepNext b' /\ classified sections d0 b'.
Proof.
  induction pre as [|s pre IH]; intros i b Hpre Hb Hscan; simpl; [eauto|].
  assert (Hs : sections !! i = Some s).
  { specialize (Hpre 0 s eq_refl). now rewrite Nat.add_0_r in Hpre. }
  destruct (classify_section_scannable sections d0 i s b Hb) as [b1 H1].
  { apply Hscan. apply elem_of_cons. now left. }
  pose proof (classify_section_classified sections d0 i s b Hs Hb) as Hc.
  rewrite H1 in *. simpl in *.
  apply IH; [|exact Hc|].
  - intros j s' Hj. specialize (Hpre (S j) s' Hj).
    now replace (S i + j) with (i + S j) by lia.
  - intros s' Hs'. apply Hscan. apply elem_of_cons. now right.
Qed.

Lemma MarkSections_loop_keeps_false sections :
  forall st d k,
  processed_section_ d !! k = Some false ->
  processed_section_ (MarkSections_loop sections st d) !! k = Some false.
Proof.
  induction sections as [|s rest IH]; intros st d k H; simpl; [exact H|].
  destruct st as [|x st]; [exact H|]. apply IH.
  destruct (_ || _); [|exact H]. simpl.
  destruct (decide (id s = k)) as [->|Hne].
  - apply list_lookup_insert_eq. eapply lookup_lt_Some; eauto.
  - now rewrite list_lookup_insert_ne.
Qed.

(** An AC-group id of a pass at or beyond the cap or the header's passes
    is not one that classification records. *)
Lemma not_recorded_ac d k :
  num_dc_groups (frame_dim_ d) + 1 < k ->
  (num_passes (passes (frame_header_ d)) <= ac_pass d k \/
   max_passes_ d <= ac_pass d k) ->
  ~ recorded_id d k.
Proof. unfold recorded_id. lia. Qed.

(** In a decoder whose section table has the size of the frame's TOC,
    no id inside the table has a pass index of [num_passes] or more. *)
Lemma toc_sized_table_has_no_invalid_pass d k :
  is_single_section d = false ->
  0 < num_groups (frame_dim_ d) ->
  length (processed_section_ d) =
    NumTocEntries (num_groups (frame_dim_ d)) (num_dc_groups (frame_dim_ d))
                  (num_passes (passes (frame_header_ d))) ->
  k < length (processed_section_ d) ->
  ac_pass d k < num_passes (passes (frame_header_ d))
  \/ k <= num_dc_groups (frame_dim_ d) + 1.
Proof.
  unfold is_single_section, NumTocEntries, ac_pass.
  intros -> HG -> Hk.
  destruct (decide (k <= num_dc_groups (frame_dim_ d) + 1)); [now right|left].
  apply Nat.Div0.div_lt_upper_bound. lia.
Qed.

(** C6 (as the code has it), for a frame of more than one section.
    The batch is scanned in order.  The first entry that is an
    unprocessed AC-group section inside the section table with a pass
    index of at least [num_passes] makes the call fail with "Invalid
    section ID".  An unprocessed AC-group section whose pass index is at
    least [max_passes_] and less than [num_passes] is passed over:
    classifying it changes nothing, and when the call succeeds its status
    is [kSkipped] and it is still unprocessed.  The first entry whose id
    lies outside the section table stops the process on the assertion,
    whatever the sub-decoders would answer; in a decoder whose table has
    the size of the frame's TOC this is what every AC-group id with a pass
    index of at least [num_passes] does. *)
Theorem ProcessSections_ac_pass_checks (env : Externals)
    (sections : list SectionInfo) (d : FrameDecoder) :
  is_single_section d = false ->
  (forall pre e post,
     sections = pre ++ e :: post ->
     (forall s, s ∈ pre -> scannable d s) ->
     id e < length (processed_section_ d) ->
     processed_section_ d !! id e = Some false ->
     num_dc_groups (frame_dim_ d) + 1 < id e ->
     num_passes (passes (frame_header_ d)) <= ac_pass d (id e) ->
     exists d' st,
       ProcessSections env sections d =
         SectionsReturned (JXL_FAILURE "Invalid section ID") d' st) /\
  (forall i e,
     sections !! i = Some e ->
     processed_section_ d !! id e = Some false ->
     num_dc_groups (frame_dim_ d) + 1 < id e ->
     max_passes_ d <= ac_pass d (id e) ->
     ac_pass d (id e) < num_passes (passes (frame_header_ d)) ->
     (forall st sc,
        classify_section i e {| dec := d; section_status := st; sched := sc |}
        = StepNext {| dec := d; section_status := st; sched := sc |}) /\
     (forall d' st,
        ProcessSections env sections d = SectionsReturned StatusOk d' st ->
        st !! i = Some kSkipped /\
        processed_section_ d' !! id e = Some false)) /\
  (forall pre e post,
     sections = pre ++ e :: post ->
     (forall s, s ∈ pre -> scannable d s) ->
     length (processed_section_ d) <= id e ->
     ProcessSections env sections d = SectionsAborted) /\
  (forall pre e post,
     sections = pre ++ e :: post ->
     (forall s, s ∈ pre -> scannable d s) ->
     0 < num_groups (frame_dim_ d) ->
     length (processed_section_ d) =
       NumTocEntries (num_groups (frame_dim_ d)) (num_dc_groups (frame_dim_ d))
                     (num_passes (passes (frame_header_ d))) ->
     num_dc_groups (frame_dim_ d) + 1 < id e ->
     num_passes (passes (frame_header_ d)) <= ac_pass d (id e) ->
     ProcessSections env sections d = SectionsAborted).
Proof.
  intros Hmulti.
  assert (Habort : forall pre e post,
            sections = pre ++ e :: post ->
            (forall s, s ∈ pre -> scannable d s) ->
            length (processed_section_ d) <= id e ->
            ProcessSections env sections d = SectionsAborted).
  { intros pre e post -> Hscan Hout.
    unfold ProcessSections.
    destruct (length (pre ++ e :: post) =? 0) eqn:Hlen.
    { apply Nat.eqb_eq in Hlen. rewrite length_app in Hlen. simpl in Hlen. lia. }
    unfold classify. simpl. rewrite Hmulti.
    rewrite classify_sections_app.
    destruct (classify_sections_scannable (pre ++ e :: post) d pre 0
                (Batch_init (pre ++ e :: post) d)) as [b1 [H1 Hc1]].
    { intros j s Hj. simpl. now apply lookup_app_l_Some. }
    { apply classified_init. }
    { exact Hscan. }
    rewrite H1. simpl.
    destruct Hc1 as [_ Hlen1 _ _ _ _ _].
    unfold classify_section at 1. rewrite Hlen1.
    apply Nat.ltb_ge in Hout. rewrite Hout. reflexivity. }
  split; [|split; [|split]]; [| |exact Habort|].
  3:{ (* an invalid pass in a table of the TOC's size *)
    intros pre e post Hs Hscan HG Htoc Hac Hpass.
    apply (Habort pre e post Hs Hscan).
    destruct (Nat.le_gt_cases (length (processed_section_ d)) (id e))
      as [Hle|Hlt]; [exact Hle|].
    destruct (toc_sized_table_has_no_invalid_pass d (id e) Hmulti HG Htoc Hlt);
      lia. }
  - (* invalid section id *)
    intros pre e post -> Hscan Hin Hproc Hac Hpass.
    unfold ProcessSections.
    destruct (length (pre ++ e :: post) =? 0) eqn:Hlen.
    { apply Nat.eqb_eq in Hlen. rewrite length_app in Hlen. simpl in Hlen. lia. }
    unfold classify. simpl. rewrite Hmulti.
    rewrite classify_sections_app.
    destruct (classify_sections_scannable (pre ++ e :: post) d pre 0
                (Batch_init (pre ++ e :: post) d)) as [b1 [H1 Hc1]].
    { intros j s Hj. simpl. now apply lookup_app_l_Some. }
    { apply classified_init. }
    { exact Hscan. }
    rewrite H1. simpl.
    destruct Hc1 as [Hdec Hlen1 _ _ _ Hkept _].
    assert (Hdim : frame_dim_ (dec b1) = frame_dim_ d) by (rewrite Hdec; reflexivity).
    assert (Hhdr : frame_header_ (dec b1) = frame_header_ d)
      by (rewrite Hdec; reflexivity).
    assert (Hp1 : processed_section_ (dec b1) !! id e = Some false).
    { rewrite Hkept; [exact Hproc|]. apply not_recorded_ac; auto. }
    unfold classify_section at 1. rewrite Hlen1.
    apply Nat.ltb_lt in Hin. rewrite Hin, Hp1. simpl. rewrite Hdim, Hhdr.
    replace (id e =? 0) with false by (symmetry; apply Nat.eqb_neq; lia).
    replace (id e <? num_dc_groups (frame_dim_ d) + 1) with false
      by (symmetry; apply Nat.ltb_ge; lia).
    replace (id e =? num_dc_groups (frame_dim_ d) + 1) with false
      by (symmetry; apply Nat.eqb_neq; lia).
    fold (ac_pass d (id e)).
    replace (ac_pass d (id e) <? num_passes (passes (frame_header_ d))) with false
      by (symmetry; apply Nat.ltb_ge; lia).
    simpl. eauto.
  - (* ignored section *)
    intros i e He Hproc Hac Hcap Hpass.
    assert (Hin : id e < length (processed_section_ d))
      by (eapply lookup_lt_Some; eauto).
    assert (Hnot : ~ recorded_id d (id e)) by (apply not_recorded_ac; auto).
    split.
    + intros st sc. unfold classify_section. simpl.
      apply Nat.ltb_lt in Hin. rewrite Hin, Hproc. simpl.
      replace (id e =? 0) with false by (symmetry; apply Nat.eqb_neq; lia).
      replace (id e <? num_dc_groups (frame_dim_ d) + 1) with false
        by (symmetry; apply Nat.ltb_ge; lia).
      replace (id e =? num_dc_groups (frame_dim_ d) + 1) with false
        by (symmetry; apply Nat.eqb_neq; lia).
      fold (ac_pass d (id e)).
      replace (ac_pass d (id e) <? num_passes (passes (frame_header_ d))) with true
        by (symmetry; apply Nat.ltb_lt; lia).
      replace (ac_pass d (id e) <? max_passes_ d) with false
        by (symmetry; apply Nat.ltb_ge; lia).
      reflexivity.
    + intros d' st Hres.
      apply ProcessSections_trace in Hres as (bc & b & Hc & Hl & -> & Hfin).
      2:{ intros ->. discriminate. }
      2:{ congruence. }
      destruct Hfin as [[Hr _]|(_ & _ & ->)]; [congruence|].
      destruct Hc as [Hdec Hlen Hslen Hst Hsl Hkept Hz].
      assert (Hi : i < length sections) by (eapply lookup_lt_Some; eauto).
      assert (Hpc : processed_section_ (dec bc) !! id e = Some false)
        by (rewrite Hkept; auto).
      assert (Hslot : i ∉ slots (sched bc)).
      { intros Hslot. destruct (Hsl i e He Hslot) as [Hrec _]. contradiction. }
      split.
      * rewrite (lt_status _ _ Hl i Hslot).
        destruct (Hst i Hi) as [H|[_ [s [Hs Hp]]]]; [exact H|].
        rewrite He in Hs. injection Hs as <-. congruence.
      * unfold MarkSections. apply MarkSections_loop_keeps_false. simpl.
        rewrite (lt_processed _ _ Hl). exact Hpc.
Qed.

Lemma ProcessSections_ac_pass_checks_witness :
  (exists d' st,
     ProcessSections Sample.env_ok
       [Sample.sec 0; Sample.sec 3; Sample.sec 5] SampleStale.initialised
     = SectionsReturned (JXL_FAILURE "Invalid section ID") d' st) /\
  (forall st sc,
     classify_section 1 (Sample.sec 3)
       {| dec := SampleStale.initialised; section_status := st; sched := sc |}
     = StepNext
         {| dec := SampleStale.initialised; section_status := st; sched := sc |}) /\
  (forall d' st,
     ProcessSections Sample.env_ok [Sample.sec 0; Sample.sec 3]
       SampleStale.initialised = SectionsReturned StatusOk d' st ->
     st !! 1 = Some kSkipped /\
     processed_section_ d' !! id (Sample.sec 3) = Some false) /\
  ProcessSections Sample.env_ok [Sample.sec 0; Sample.sec 7]
    SampleStale.initialised = SectionsAborted /\
  ProcessSections Sample.env_ok [Sample.sec 0; Sample.sec 6]
    SampleRun.initialised = SectionsAborted.
Proof.
  assert (Hscan : forall d, 0 < length (processed_section_ d) ->
            forall s, s ∈ [Sample.sec 0] -> scannable d s).
  { intros d Hd s Hs. apply elem_of_cons in Hs as [->|Hs]; [|inversion Hs].
    split; [exact Hd|left; simpl; lia]. }
  split; [|split; [|split; [|split]]].
  - apply (proj1 (ProcessSections_ac_pass_checks Sample.env_ok
                    [Sample.sec 0; Sample.sec 3; Sample.sec 5]
                    SampleStale.initialised eq_refl)
             [Sample.sec 0; Sample.sec 3] (Sample.sec 5) []).
    + reflexivity.
    + intros s Hs.
      apply elem_of_cons in Hs as [->|Hs]; [split; [vm_compute; lia|left; vm_compute; lia]|].
      apply elem_of_cons in Hs as [->|Hs]; [split; [vm_compute; lia|right; vm_compute; lia]|].
      inversion Hs.
    + vm_compute. lia.
    + reflexivity.
    + vm_compute. lia.
    + vm_compute. lia.
  - apply (proj1 (proj2 (ProcessSections_ac_pass_checks Sample.env_ok
                           [Sample.sec 0; Sample.sec 3]
                           SampleStale.initialised eq_refl))
             1 (Sample.sec 3)).
    + reflexivity.
    + reflexivity.
    + vm_compute. lia.
    + vm_compute. lia.
    + vm_compute. lia.
  - apply (proj1 (proj2 (ProcessSections_ac_pass_checks Sample.env_ok
                           [Sample.sec 0; Sample.sec 3]
                           SampleStale.initialised eq_refl))
             1 (Sample.sec 3)).
    + reflexivity.
    + reflexivity.
    + vm_compute. lia.
    + vm_compute. lia.
    + vm_compute. lia.
  - apply (proj1 (proj2 (proj2 (ProcessSections_ac_pass_checks Sample.env_ok
                                  [Sample.sec 0; Sample.sec 7]
                                  SampleStale.initialised eq_refl)))
             [Sample.sec 0] (Sample.sec 7) []).
    + reflexivity.
    + apply Hscan. vm_compute. lia.
    + vm_compute. lia.
  - apply (proj2 (proj2 (proj2 (ProcessSections_ac_pass_checks Sample.env_ok
                                  [Sample.sec 0; Sample.sec 6]
                                  SampleRun.initialised eq_refl)))
             [Sample.sec 0] (Sample.sec 6) []).
    + reflexivity.
    + apply Hscan. vm_compute. lia.
    + vm_compute. lia.
    + reflexivity.
    + vm_compute. lia.
    + vm_compute. lia.
Defined.

(** C6, counterexample: in the five-section frame (one DC group, two AC
    groups, one pass) the id 5 denotes group 0 of pass 1, a pass index not
    below [num_passes].  The id lies outside the section table, and the
    call stops on the assertion instead of returning "Invalid section
    ID". *)
Lemma ProcessSections_invalid_id_aborts :
  ProcessSections Sample.env_ok [Sample.sec 5] SampleRun.initialised
    = SectionsAborted /\
  is_single_section SampleRun.initialised = false /\
  length (processed_section_ SampleRun.initialised) = 5 /\
  ac_pass SampleRun.initialised 5 = 1 /\
  num_passes (passes (frame_header_ SampleRun.initialised)) = 1.
Proof. vm_compute. auto. Qed.

(** ** The pass cap of [DecodeFrame] *)

Lemma DecodeFrame_max_passes_zero dparams h :
  frame_type h <> kReferenceOnly ->
  (8 <= N.max (N.shiftr (max_downsampling dparams) (dc_level h * 3)) 1)%N ->
  DecodeFrame_max_passes dparams h = 0%N.
Proof.
  intros Href Hds. unfold DecodeFrame_max_passes.
  apply N.leb_le in Hds. rewrite Hds.
  replace (FrameType_eqb (frame_type h) kReferenceOnly) with false
    by (destruct (frame_type h); simpl; congruence).
  apply N.min_0_l.
Qed.

Lemma ac_group_region_idle env sections (l : list nat) r :
  no_new_pass (batch r) ->
  foldl (fun acc i => ac_group_body env sections i acc) (Some r) l = Some r.
Proof.
  intros Hz. induction l as [|g l IH]; simpl; [reflexivity|].
  rewrite (Hz g). simpl. exact IH.
Qed.

(** Then the AC-group stage does not call [ProcessACGroup] at all. *)
Lemma stage_ac_groups_idle env sections b :
  no_new_pass b -> stage_ac_groups env sections b = StepNext b.
Proof.
  intros Hz. unfold stage_ac_groups, RunOnPool.
  destruct (decoded_ac_global_ (dec b)); [|reflexivity].
  rewrite ac_group_region_idle by exact Hz. reflexivity.
Qed.

Lemma and_then_ext_later b s k k' :
  step_later b s ->
  (forall b1, later b b1 -> k b1 = k' b1) ->
  and_then s k = and_then s k'.
Proof. destruct s; simpl; auto. Qed.

Lemma later_no_new_pass b b' : later b b' -> no_new_pass b -> no_new_pass b'.
Proof. intros Hl Hz g. rewrite (lt_sched _ _ Hl). apply Hz. Qed.

Lemma run_stages_ac_oracle env f sections single b :
  no_new_pass b ->
  run_stages (with_ac_group_decode f env) sections single b
  = run_stages env sections single b.
Proof.
  intros Hz. unfold run_stages.
  change (stage_dc_global (with_ac_group_decode f env) sections b)
    with (stage_dc_global env sections b).
  apply (and_then_ext_later b); [apply stage_dc_global_later|]. intros b1 L1.
  change (stage_dc_groups (with_ac_group_decode f env) sections b1)
    with (stage_dc_groups env sections b1).
  apply (and_then_ext_later b1); [apply stage_dc_groups_later|]. intros b2 L2.
  change (stage_finalize_dc (with_ac_group_decode f env) sections single b2)
    with (stage_finalize_dc env sections single b2).
  apply (and_then_ext_later b2); [apply stage_finalize_dc_later|]. intros b3 L3.
  change (stage_ac_global (with_ac_group_decode f env) sections b3)
    with (stage_ac_global env sections b3).
  apply (and_then_ext_later b3); [apply stage_ac_global_later|]. intros b4 L4.
  assert (Hz4 : no_new_pass b4).
  { eapply later_no_new_pass; [exact L4|].
    eapply later_no_new_pass; [exact L3|].
    eapply later_no_new_pass; [exact L2|].
    eapply later_no_new_pass; [exact L1|exact Hz]. }
  now rewrite !stage_ac_groups_idle.
Qed.

Lemma MarkSections_decoded_passes sections st d :
  decoded_passes_per_ac_group_ (MarkSections sections st d)
  = decoded_passes_per_ac_group_ d.
Proof.
  apply (MarkSections_preserves
           (fun d' => decoded_passes_per_ac_group_ d'
                      = decoded_passes_per_ac_group_ d)).
  - split; intros v d' H; exact H.
  - reflexivity.
Qed.

(** Under a pass cap of 0 a frame of more than one section decodes no
    AC-group section. *)
Lemma ProcessSections_capped env sections d :
  is_single_section d = false ->
  max_passes_ d = 0 ->
  (forall f, ProcessSections (with_ac_group_decode f env) sections d
             = ProcessSections env sections d) /\
  (forall r d' st,
     ProcessSections env sections d = SectionsReturned r d' st ->
     decoded_passes_per_ac_group_ d' = decoded_passes_per_ac_group_ d /\
     forall i e, sections !! i = Some e ->
                 num_dc_groups (frame_dim_ d) + 1 < id e ->
                 st !! i = Some kSkipped \/ st !! i = Some kDuplicate).
Proof.
  intros Hmulti Hmax. split.
  - intros f. unfold ProcessSections.
    destruct (length sections =? 0); [reflexivity|].
    assert (Hc : step_all (classified sections d)
                   (classify sections (Batch_init sections d))).
    { apply classify_classified. congruence. }
    destruct (classify sections (Batch_init sections d)) as [|rc bc|bc|bc];
      simpl; try reflexivity.
    rewrite run_stages_ac_oracle; [reflexivity|].
    simpl in Hc. intros g. apply (cl_no_pass _ _ _ Hc); auto.
  - intros r d' st Hres.
    destruct sections as [|s0 rest].
    { injection Hres as <- <- <-. split; [reflexivity|]. intros i e He. discriminate. }
    apply ProcessSections_trace in Hres as (bc & b & Hc & Hl & -> & Hfin);
      [|discriminate|congruence].
    assert (Hzero : no_new_pass bc) by (intros g; apply (cl_no_pass _ _ _ Hc); auto).
    assert (Hpass : decoded_passes_per_ac_group_ (dec b)
                    = decoded_passes_per_ac_group_ d).
    { rewrite (lt_passes _ _ Hl Hzero), (cl_dec _ _ _ Hc). reflexivity. }
    split.
    + destruct Hfin as [[_ ->]|(_ & _ & ->)]; [exact Hpass|].
      now rewrite MarkSections_decoded_passes.
    + intros i e He Hac.
      assert (Hi : i < length (s0 :: rest)) by (eapply lookup_lt_Some; eauto).
      assert (Hslot : i ∉ slots (sched bc)).
      { intros Hslot. destruct (cl_slots _ _ _ Hc i e He Hslot) as [Hrec _].
        revert Hrec. apply not_recorded_ac; [exact Hac|]. right. lia. }
      rewrite (lt_status _ _ Hl i Hslot).
      destruct (cl_status _ _ _ Hc i Hi) as [H|[H _]]; auto.
Qed.

(** C7 (as the code has it): for a frame that is not reference-only,
    when the downsampling limit after the DC-level shift is at least 8
    [DecodeFrame] sets the pass cap to 0; a frame of more than one section
    then has none of its AC-group sections decoded: whatever the batch,
    [ProcessACGroup] is not run, the pass counters stay as they are and no
    AC-group section gets a status other than [kSkipped] or
    [kDuplicate]. *)
Theorem DecodeFrame_downsampling_cap (dparams : DecompressParams)
    (env : Externals) (sections : list SectionInfo) (d : FrameDecoder) :
  frame_type (frame_header_ d) <> kReferenceOnly ->
  (8 <= N.max (N.shiftr (max_downsampling dparams)
                        (dc_level (frame_header_ d) * 3)) 1)%N ->
  DecodeFrame_max_passes dparams (frame_header_ d) = 0%N /\
  max_passes_ (DecodeFrame_SetMaxPasses dparams d) = 0 /\
  (is_single_section d = false ->
   (forall f,
      ProcessSections (with_ac_group_decode f env) sections
        (DecodeFrame_SetMaxPasses dparams d)
      = ProcessSections env sections (DecodeFrame_SetMaxPasses dparams d)) /\
   (forall r d' st,
      ProcessSections env sections (DecodeFrame_SetMaxPasses dparams d)
        = SectionsReturned r d' st ->
      decoded_passes_per_ac_group_ d' = decoded_passes_per_ac_group_ d /\
      forall i e, sections !! i = Some e ->
                  num_dc_groups (frame_dim_ d) + 1 < id e ->
                  st !! i = Some kSkipped \/ st !! i = Some kDuplicate)).
Proof.
  intros Href Hds.
  pose proof (DecodeFrame_max_passes_zero dparams _ Href Hds) as Hzero.
  assert (Hcap : max_passes_ (DecodeFrame_SetMaxPasses dparams d) = 0).
  { unfold DecodeFrame_SetMaxPasses, SetMaxPasses. rewrite Hzero. reflexivity. }
  split; [exact Hzero|]. split; [exact Hcap|].
  intros Hmulti.
  apply (ProcessSections_capped env sections (DecodeFrame_SetMaxPasses dparams d));
    [exact Hmulti|exact Hcap].
Qed.

Lemma DecodeFrame_downsampling_cap_witness :
  DecodeFrame_max_passes SampleParams.downsampling8
    (frame_header_ SampleRun.initialised) = 0%N /\
  max_passes_ (DecodeFrame_SetMaxPasses SampleParams.downsampling8
                 SampleRun.initialised) = 0 /\
  (is_single_section SampleRun.initialised = false ->
   (forall f,
      ProcessSections (with_ac_group_decode f Sample.env_ok) SampleRun.all_sections
        (DecodeFrame_SetMaxPasses SampleParams.downsampling8 SampleRun.initialised)
      = ProcessSections Sample.env_ok SampleRun.all_sections
          (DecodeFrame_SetMaxPasses SampleParams.downsampling8
             SampleRun.initialised)) /\
   (forall r d' st,
      ProcessSections Sample.env_ok SampleRun.all_sections
        (DecodeFrame_SetMaxPasses SampleParams.downsampling8 SampleRun.initialised)
        = SectionsReturned r d' st ->
      decoded_passes_per_ac_group_ d'
        = decoded_passes_per_ac_group_ SampleRun.initialised /\
      forall i e, SampleRun.all_sections !! i = Some e ->
                  num_dc_groups (frame_dim_ SampleRun.initialised) + 1 < id e ->
                  st !! i = Some kSkipped \/ st !! i = Some kDuplicate)).
Proof.
  apply (DecodeFrame_downsampling_cap SampleParams.downsampling8 Sample.env_ok
           SampleRun.all_sections SampleRun.initialised).
  - vm_compute. discriminate.
  - vm_compute. discriminate.
Defined.

(** The run of the witness, spelled out: the three DC-side sections
    are decoded, the two AC-group sections stay skipped. *)
Example DecodeFrame_downsampling_cap_run :
  exists d',
    ProcessSections Sample.env_ok SampleRun.all_sections
      (DecodeFrame_SetMaxPasses SampleParams.downsampling8 SampleRun.initialised)
    = SectionsReturned StatusOk d' [kDone; kDone; kDone; kSkipped; kSkipped] /\
    decoded_passes_per_ac_group_ d' = [0; 0].
Proof. eexists. vm_compute. auto. Qed.

(** C7, counterexample: with a downsampling limit of 8, (1) a
    reference-only frame keeps its pass cap at [num_passes] and has its
    AC-group sections decoded, and (2) a single-section frame, though
    capped at 0 passes, has its AC group decoded with the one section. *)
Lemma DecodeFrame_downsampling_8_still_decodes_ac :
  (DecodeFrame_max_passes SampleParams.downsampling8
     (frame_header_ SampleParams.reference_only) = 1%N /\
   exists d',
     ProcessSections Sample.env_ok SampleRun.all_sections
       (DecodeFrame_SetMaxPasses SampleParams.downsampling8
          SampleParams.reference_only)
     = SectionsReturned StatusOk d' [kDone; kDone; kDone; kDone; kDone] /\
     decoded_passes_per_ac_group_ d' = [1; 1]) /\
  (DecodeFrame_max_passes SampleParams.downsampling8
     (frame_header_ (Sample.fresh 1 1 1 0 false false)) = 0%N /\
   exists d',
     ProcessSections Sample.env_ok [Sample.sec 0]
       (DecodeFrame_SetMaxPasses SampleParams.downsampling8
          (Sample.fresh 1 1 1 0 false false))
     = SectionsReturned StatusOk d' [kDone] /\
     decoded_passes_per_ac_group_ d' = [1]).
Proof.
  split; (split; [vm_compute; reflexivity|eexists; vm_compute; auto]).
Qed.

(** ** The section scheduler: re-submitting a batch *)

Lemma MarkSections_loop_nothing sections :
  forall st d,
  (forall i x, st !! i = Some x -> not_retried x) ->
  MarkSections_loop sections st d = d.
Proof.
  induction sections as [|s rest IH]; intros st d H; simpl; [reflexivity|].
  destruct st as [|x st]; [reflexivity|].
  assert (Hx : not_retried x) by (apply (H 0); reflexivity).
  rewrite IH.
  - destruct Hx as [-> | ->]; reflexivity.
  - intros i y Hy. apply (H (S i)). exact Hy.
Qed.

Lemma insert_replicate_next {A} (y x : A) (l : list A) (i : nat) :
  <[i := y]> (replicate i y ++ x :: l) = replicate (S i) y ++ l.
Proof. induction i as [|i IH]; simpl; [reflexivity|]. now rewrite IH. Qed.

(** Classification of entries that are all processed already: each gets
    [kDuplicate], nothing else changes. *)
Lemma classify_sections_duplicates rest :
  forall i d sc,
  (forall s, s ∈ rest ->
     id s < length (processed_section_ d) /\
     processed_section_ d !! id s = Some true) ->
  classify_sections i rest
    {| dec := d;
       section_status := replicate i kDuplicate ++ replicate (length rest) kSkipped;
       sched := sc |}
  = StepNext {| dec := d;
                section_status := replicate (i + length rest) kDuplicate;
                sched := sc |}.
Proof.
  induction rest as [|s rest IH]; intros i d sc H; simpl.
  - now rewrite app_nil_r, Nat.add_0_r.
  - destruct (H s) as [Hin Hp]; [apply elem_of_cons; now left|].
    unfold classify_section. simpl.
    apply Nat.ltb_lt in Hin. rewrite Hin, Hp. simpl.
    rewrite insert_replicate_next.
    rewrite (IH (S i)).
    + now replace (S i + length rest) with (i + S (length rest)) by lia.
    + intros s' Hs'. apply H. apply elem_of_cons. now right.
Qed.

Lemma dc_group_region_idle env (sections : list SectionInfo) (l : list nat) r :
  (forall i, default (length sections) (dc_group_sec (sched (batch r)) !! i)
             = length sections) ->
  foldl (fun acc i => dc_group_body env sections i acc) r l = r.
Proof.
  intros Hz. induction l as [|g l IH]; simpl; [reflexivity|].
  unfold dc_group_body at 2. rewrite (Hz g), Nat.eqb_refl. exact IH.
Qed.

Lemma run_stages_idle env sections single b :
  idle (length sections) b -> settled b ->
  run_stages env sections single b = StepMarkAndReturn b.
Proof.
  intros [H1 H2 H3 H4] Hs. unfold run_stages.
  assert (E1 : stage_dc_global env sections b = StepNext b).
  { unfold stage_dc_global. now rewrite H1, Nat.eqb_refl. }
  rewrite E1. simpl.
  assert (E2 : stage_dc_groups env sections b = StepNext b).
  { unfold stage_dc_groups, RunOnPool.
    destruct (decoded_dc_global_ (dec b)); [|reflexivity].
    rewrite dc_group_region_idle by exact H3. reflexivity. }
  rewrite E2. simpl.
  assert (E3 : stage_finalize_dc env sections single b = StepNext b).
  { unfold stage_finalize_dc.
    destruct (forallb _ (decoded_dc_groups_ (dec b))) eqn:Hall; [|reflexivity].
    now rewrite (Hs Hall). }
  rewrite E3. simpl.
  assert (E4 : stage_ac_global env sections b = StepNext b).
  { unfold stage_ac_global. rewrite H2, Nat.eqb_refl. simpl.
    now rewrite andb_false_r. }
  rewrite E4. simpl.
  now rewrite stage_ac_groups_idle.
Qed.

Lemma Schedule_init_idle (sections : list SectionInfo) d st :
  idle (length sections)
       {| dec := d; section_status := st;
          sched := Schedule_init (length sections) d |}.
Proof.
  split; simpl; auto.
  - intros i. destruct (replicate _ _ !! i) as [x|] eqn:Hx; [|reflexivity].
    apply lookup_replicate in Hx as [-> _]. reflexivity.
  - intros g. simpl. destruct (replicate _ 0 !! g) as [x|] eqn:Hx; [|reflexivity].
    apply lookup_replicate in Hx as [-> _]. reflexivity.
Qed.

Lemma count_new_passes_none num n decoded fuel :
  count_new_passes num (replicate n num) decoded fuel 0 = 0.
Proof.
  destruct fuel as [|fuel]; simpl; [reflexivity|].
  destruct (replicate n num !! decoded) as [x|] eqn:Hx; simpl.
  - apply lookup_replicate in Hx as [-> _]. now rewrite Nat.eqb_refl.
  - now rewrite Nat.eqb_refl.
Qed.

Lemma Schedule_counted_idle (sections : list SectionInfo) d st :
  idle (length sections)
       {| dec := d; section_status := st;
          sched :=
            set_num_ac_passes
              (count_num_ac_passes (length sections) d
                 (Schedule_init (length sections) d))
              (Schedule_init (length sections) d) |}.
Proof.
  destruct (Schedule_init_idle sections d st) as [H1 H2 H3 _].
  split; auto.
  intros g. simpl. unfold count_num_ac_passes. rewrite list_lookup_imap. simpl.
  destruct (replicate _ _ !! g) as [row|] eqn:Hrow; [|reflexivity].
  apply lookup_replicate in Hrow as [-> _]. simpl.
  apply count_new_passes_none.
Qed.

Lemma MarkSections_nothing sections st d :
  (forall i x, st !! i = Some x -> not_retried x) ->
  MarkSections sections st d = set_num_sections_done (length sections) d.
Proof. intros H. unfold MarkSections. now apply MarkSections_loop_nothing. Qed.

(** A batch whose sections are all processed already, on a decoder in
    which decoded DC groups are finalised: every entry is a duplicate and
    only the count of handled sections is (re)written. *)
Lemma ProcessSections_all_processed env sections d :
  sections <> [] ->
  (forall s, s ∈ sections ->
     id s < length (processed_section_ d) /\
     processed_section_ d !! id s = Some true) ->
  (forallb (fun x => x) (decoded_dc_groups_ d) = true -> finalized_dc_ d = true) ->
  (is_single_section d = true -> exists s, sections = [s] /\ id s = 0) ->
  ProcessSections env sections d =
    SectionsReturned StatusOk (set_num_sections_done (length sections) d)
      (replicate (length sections) kDuplicate).
Proof.
  intros Hne Hproc Hsettled Hsingle. unfold ProcessSections.
  destruct (length sections =? 0) eqn:Hlen.
  { apply Nat.eqb_eq in Hlen. destruct sections; [congruence|discriminate]. }
  assert (Hdup : forall i x,
            replicate (length sections) kDuplicate !! i = Some x -> not_retried x).
  { intros i x Hx. apply lookup_replicate in Hx as [-> _]. now right. }
  unfold classify. simpl.
  destruct (is_single_section d) eqn:Hs.
  - destruct (Hsingle eq_refl) as [s [-> Hid]].
    destruct (Hproc s) as [_ Hp]; [apply elem_of_cons; now left|].
    unfold classify_single. simpl. rewrite Hid in *. rewrite Hp. simpl.
    rewrite (run_stages_idle env [s] true).
    + simpl. reflexivity.
    + apply (Schedule_init_idle [s]).
    + exact Hsettled.
  - pose proof (classify_sections_duplicates sections 0 d
                  (Schedule_init (length sections) d) Hproc) as Hc.
    simpl in Hc. unfold Batch_init. rewrite Hc. simpl.
    rewrite run_stages_idle.
    + simpl. f_equal. now apply MarkSections_nothing.
    + apply Schedule_counted_idle.
    + exact Hsettled.
Qed.

Lemma ProcessSections_single_shape env sections d r d' st :
  is_single_section d = true ->
  sections <> [] ->
  ProcessSections env sections d = SectionsReturned r d' st ->
  exists s, sections = [s] /\ id s = 0.
Proof.
  intros Hs Hne. unfold ProcessSections.
  destruct (length sections =? 0) eqn:Hlen.
  { apply Nat.eqb_eq in Hlen. destruct sections; [congruence|discriminate]. }
  unfold classify. simpl. rewrite Hs. unfold classify_single.
  destruct (length sections =? 1) eqn:H1; simpl; [|discriminate].
  destruct sections as [|s [|s' rest]]; try discriminate.
  destruct (id s =? 0) eqn:Hid; simpl; [|discriminate].
  apply Nat.eqb_eq in Hid. eauto.
Qed.

(** C5 (as the code has it): when a call of [ProcessSections] succeeds
    and leaves no entry of the batch to be retried (every status is
    [kDone] or [kDuplicate]), calling it again with the same batch succeeds
    with status [kDuplicate] for every entry and leaves the whole decoder
    unchanged.  (The section table is not empty: [InitFrame] sizes it to
    the TOC.) *)
Theorem ProcessSections_resubmit (env1 env2 : Externals)
    (sections : list SectionInfo) (d d1 : FrameDecoder)
    (st1 : list SectionStatus) :
  processed_section_ d <> [] ->
  ProcessSections env1 sections d = SectionsReturned StatusOk d1 st1 ->
  (forall i x, st1 !! i = Some x -> x = kDone \/ x = kDuplicate) ->
  ProcessSections env2 sections d1 =
    SectionsReturned StatusOk d1 (replicate (length sections) kDuplicate).
Proof.
  intros Htable Hfirst Hst.
  destruct sections as [|s0 rest].
  { injection Hfirst as <- <-. reflexivity. }
  set (sections := s0 :: rest) in *.
  assert (Hne : sections <> []) by discriminate.
  pose proof Hfirst as Htrace.
  apply ProcessSections_trace in Htrace as (bc & b & Hc & Hl & -> & Hfin); auto.
  destruct Hfin as [[Hr _]|(_ & Hsettled & ->)]; [congruence|].
  rewrite MarkSections_nothing by exact Hst.
  rewrite MarkSections_nothing in Hfirst by exact Hst.
  set (d1 := set_num_sections_done (length sections) (dec b)) in *.
  assert (Hlen : length (section_status b) = length sections).
  { rewrite (lt_status_len _ _ Hl). apply (cl_status_len _ _ _ Hc). }
  assert (Hproc : forall s, s ∈ sections ->
            id s < length (processed_section_ d1) /\
            processed_section_ d1 !! id s = Some true).
  { intros s Hs. apply list_elem_of_lookup in Hs as [i Hi].
    assert (Hp : processed_section_ (dec bc) !! id s = Some true).
    { assert (Hilt : i < length sections) by (eapply lookup_lt_Some; eauto).
      destruct (decide (i ∈ slots (sched bc))) as [Hslot|Hslot].
      - apply (cl_slots _ _ _ Hc i s Hi Hslot).
      - destruct (cl_status _ _ _ Hc i Hilt) as [H|[_ [s' [Hs' Hp]]]].
        + rewrite <- (lt_status _ _ Hl i Hslot) in H.
          destruct (Hst i kSkipped H); discriminate.
        + rewrite Hi in Hs'. injection Hs' as <-. exact Hp. }
    simpl. rewrite (lt_processed _ _ Hl).
    split; [eapply lookup_lt_Some; eauto|exact Hp]. }
  assert (Hsame : is_single_section d1 = is_single_section d).
  { unfold is_single_section, d1. simpl.
    rewrite (lt_dim _ _ Hl), (lt_header _ _ Hl), (cl_dec _ _ _ Hc). reflexivity. }
  rewrite (ProcessSections_all_processed env2 sections d1 Hne Hproc).
  - reflexivity.
  - exact Hsettled.
  - rewrite Hsame. intros Hs.
    eapply ProcessSections_single_shape; eauto.
Qed.

Lemma ProcessSections_resubmit_witness :
  ProcessSections Sample.env_ok SampleRun.all_sections SampleRun.decoded =
    SectionsReturned StatusOk SampleRun.decoded (replicate 5 kDuplicate).
Proof.
  apply (ProcessSections_resubmit Sample.env_ok Sample.env_ok
           SampleRun.all_sections SampleRun.initialised SampleRun.decoded
           (replicate 5 kDone)).
  - vm_compute. discriminate.
  - vm_compute. reflexivity.
  - intros i x Hx. apply lookup_replicate in Hx as [-> _]. now left.
Defined.

(** C5, counterexample.  (1) With the pause option, the first submission
    of the whole frame succeeds, decoding the DC sections only; the second
    submission of the same batch decodes the AC sections: not every status
    is [kDuplicate] and the decoder changes.  (2) A DC-group section
    submitted before DC-global is skipped by a successful call, and skipped
    again, not reported as duplicate, when submitted once more. *)
Lemma ProcessSections_resubmit_not_duplicate :
  (ProcessSections Sample.env_ok SampleRun.all_sections SamplePause.initialised
   = SectionsReturned StatusOk SamplePause.paused
       [kDone; kDone; kSkipped; kSkipped; kSkipped] /\
   ProcessSections Sample.env_ok SampleRun.all_sections SamplePause.paused
   = SectionsReturned StatusOk SamplePause.resumed
       [kDuplicate; kDuplicate; kDone; kDone; kDone] /\
   decoded_ac_global_ SamplePause.paused = false /\
   decoded_ac_global_ SamplePause.resumed = true) /\
  (ProcessSections Sample.env_ok [Sample.sec 1] SampleRun.initialised
   = SectionsReturned StatusOk SampleRun.initialised [kSkipped] /\
   [kSkipped] <> replicate 1 kDuplicate).
Proof.
  split; [vm_compute; auto|]. split; [vm_compute; reflexivity|discriminate].
Qed.

(** * Further properties *)

(** ** SavedAs and References *)

Lemma shiftl_16_pow2 (k : Z) : (0 <= k)%Z -> Z.shiftl 16 k = (2 ^ (4 + k))%Z.
Proof.
  intros Hk. rewrite Z.shiftl_mul_pow2 by exact Hk.
  rewrite Z.pow_add_r by lia. reflexivity.
Qed.

Lemma shiftl_1_pow2 (k : Z) : (0 <= k)%Z -> Z.shiftl 1 k = (2 ^ k)%Z.
Proof. intros Hk. rewrite Z.shiftl_mul_pow2 by exact Hk. lia. Qed.

(** X1: [SavedAs] marks a DC frame of level 1..4 with one of the bits
    16, 32, 64, 128 and a frame saved in reference slot 0..3 with one of
    the bits 1, 2, 4, 8; the two kinds of mark never collide, and a frame
    that is neither is marked 0. *)
Theorem SavedAs_bit_layout (header : FrameHeader) :
  (frame_type header = kDCFrame ->
   (1 <= dc_level header <= 4)%N ->
   SavedAs header = (2 ^ (3 + Z.of_N (dc_level header)))%Z /\
   (16 <= SavedAs header < 256)%Z) /\
  (frame_type header <> kDCFrame ->
   if CanBeReferenced header
   then save_as_reference header <= 3 ->
        SavedAs header = (2 ^ Z.of_nat (save_as_reference header))%Z /\
        (1 <= SavedAs header < 16)%Z
   else SavedAs header = 0%Z).
Proof.
  unfold SavedAs. split.
  - intros -> [Hlo Hhi]. simpl.
    rewrite shiftl_16_pow2 by lia.
    replace (4 + (Z.of_N (dc_level header) - 1))%Z
      with (3 + Z.of_N (dc_level header))%Z by lia.
    split; [reflexivity|].
    assert (H : (Z.of_N (dc_level header) = 1 \/ Z.of_N (dc_level header) = 2 \/
                 Z.of_N (dc_level header) = 3 \/ Z.of_N (dc_level header) = 4)%Z)
      by lia.
    destruct H as [-> |[-> |[-> | ->]]]; simpl; lia.
  - intros Hdc.
    replace (FrameType_eqb (frame_type header) kDCFrame) with false
      by (destruct (frame_type header); simpl; congruence).
    destruct (CanBeReferenced header); [|reflexivity].
    intros Hslot. rewrite shiftl_1_pow2 by lia. split; [reflexivity|].
    assert (H : save_as_reference header = 0 \/ save_as_reference header = 1 \/
                save_as_reference header = 2 \/ save_as_reference header = 3)
      by lia.
    destruct H as [-> |[-> |[-> | ->]]]; simpl; lia.
Qed.

Lemma SavedAs_bit_layout_witness :
  (SavedAs (frame_header_ SampleParams.reference_only) = (2 ^ Z.of_nat 1)%Z /\
   (1 <= SavedAs (frame_header_ SampleParams.reference_only) < 16)%Z).
Proof.
  apply (proj2 (SavedAs_bit_layout (frame_header_ SampleParams.reference_only))).
  - vm_compute. discriminate.
  - vm_compute. lia.
Defined.

Lemma lor_range (n a b : Z) :
  (0 <= n)%Z -> (0 <= a < 2 ^ n)%Z -> (0 <= b < 2 ^ n)%Z ->
  (0 <= Z.lor a b < 2 ^ n)%Z.
Proof.
  intros Hn [Ha0 Ha] [Hb0 Hb]. split.
  - apply Z.lor_nonneg. auto.
  - assert (Hpow : (0 < 2 ^ n)%Z) by (apply Z.pow_pos_nonneg; lia).
    destruct (Z.eq_dec (Z.lor a b) 0%Z) as [E|Hnz]; [rewrite E; exact Hpow|].
    assert (Hlor : (0 <= Z.lor a b)%Z) by (apply Z.lor_nonneg; auto).
    apply Z.log2_lt_pow2; [lia|].
    rewrite Z.log2_lor by lia.
    assert (Hlog : forall x, (0 <= x < 2 ^ n)%Z -> (Z.log2 x < n)%Z \/ x = 0%Z).
    { intros x [Hx0 Hx]. destruct (Z.eq_dec x 0%Z) as [->|Hx1]; [now right|].
      left. apply Z.log2_lt_pow2; lia. }
    destruct (Hlog a (conj Ha0 Ha)) as [HA|EA], (Hlog b (conj Hb0 Hb)) as [HB|EB].
    + lia.
    + subst b. simpl. 
      rewrite Z.max_l; [lia|]. apply Z.log2_nonneg.
    + subst a. simpl. rewrite Z.max_r; [lia|]. apply Z.log2_nonneg.
    + subst. rewrite Z.lor_0_l in Hnz. congruence.
Qed.

Lemma shiftl_1_range (k : Z) : (0 <= k < 4)%Z -> (0 <= Z.shiftl 1 k < 2 ^ 8)%Z.
Proof.
  intros Hk. rewrite shiftl_1_pow2 by lia.
  assert (H : (k = 0 \/ k = 1 \/ k = 2 \/ k = 3)%Z) by lia.
  destruct H as [-> |[-> |[-> | ->]]]; simpl; lia.
Qed.

Lemma References_extra_range cropped extra result :
  Forall (fun e => (0 <= source e < 4)%Z) extra ->
  (0 <= result < 2 ^ 8)%Z ->
  (0 <= References_extra cropped extra result < 2 ^ 8)%Z.
Proof.
  intros Hall. revert result.
  induction Hall as [|e rest He _ IH]; intros result Hr; simpl; [exact Hr|].
  apply IH. destruct (_ || _); [|exact Hr].
  apply lor_range; [lia|exact Hr|now apply shiftl_1_range].
Qed.

(** X2: for header fields in their bitstream ranges and a patch
    dictionary that names reference slots only, [References()] is a mask of
    8 bits: it is never negative and always below 256, so the [int]
    arithmetic of the code cannot overflow. *)
Theorem References_fits_8_bits (patches_GetReferences : Z) (d : FrameDecoder) :
  reference_fields_in_range (frame_header_ d) ->
  (0 <= patches_GetReferences < 16)%Z ->
  (0 <= References patches_GetReferences d < 256)%Z.
Proof.
  intros (Hsrc & Hextra & Hlevel) Hp. unfold References.
  destruct (is_finalized_ d); [lia|].
  destruct (negb (HasEverything d)); [lia|].
  set (h := frame_header_ d) in *.
  assert (H0 : (0 <= 0 < 2 ^ 8)%Z) by (simpl; lia).
  match goal with
  | |- context [if has_flag (flags h) Flags.kPatches then Z.lor ?r _ else _] =>
      assert (Hblend : (0 <= r < 2 ^ 8)%Z)
  end.
  { destruct (_ || _); [|exact H0].
    apply References_extra_range; [exact Hextra|].
    destruct (_ || _); [|exact H0].
    apply lor_range; [lia|exact H0|now apply shiftl_1_range]. }
  match goal with
  | |- context [if has_flag (flags h) Flags.kUseDcFrame then Z.lor ?r _ else _] =>
      assert (Hpatch : (0 <= r < 2 ^ 8)%Z)
  end.
  { destruct (has_flag (flags h) Flags.kPatches); [|exact Hblend].
    apply lor_range; [lia|exact Hblend|simpl; lia]. }
  change 256%Z with (2 ^ 8)%Z.
  destruct (has_flag (flags h) Flags.kUseDcFrame); [|exact Hpatch].
  apply lor_range; [lia|exact Hpatch|].
  rewrite shiftl_16_pow2 by lia.
  assert (H : (Z.of_N (dc_level h) = 0 \/ Z.of_N (dc_level h) = 1 \/
               Z.of_N (dc_level h) = 2 \/ Z.of_N (dc_level h) = 3)%Z) by lia.
  destruct H as [-> |[-> |[-> | ->]]]; simpl; lia.
Qed.

Lemma References_fits_8_bits_witness :
  (0 <= References 5 (Sample.complete Flags.kUseDcFrame) < 256)%Z.
Proof.
  apply (References_fits_8_bits 5 (Sample.complete Flags.kUseDcFrame)).
  - split; [vm_compute; split; [discriminate|reflexivity]|].
    split; [apply Forall_nil_2|vm_compute; discriminate].
  - lia.
Defined.

Lemma includes_bits_lor_r (x b : Z) : includes_bits (Z.lor x b) b.
Proof.
  unfold includes_bits. apply Z.bits_inj'. intros n Hn.
  rewrite Z.land_spec, Z.lor_spec. destruct (Z.testbit x n), (Z.testbit b n); reflexivity.
Qed.

Lemma includes_bits_lor_l (x y b : Z) :
  includes_bits x b -> includes_bits (Z.lor x y) b.
Proof.
  unfold includes_bits. intros H. apply Z.bits_inj'. intros n Hn.
  apply (f_equal (fun z => Z.testbit z n)) in H.
  rewrite Z.land_spec in H. rewrite Z.land_spec, Z.lor_spec.
  destruct (Z.testbit x n), (Z.testbit y n), (Z.testbit b n); simpl in *; congruence.
Qed.

Lemma References_extra_includes cropped extra result b :
  includes_bits result b -> includes_bits (References_extra cropped extra result) b.
Proof.
  revert result. induction extra as [|e rest IH]; intros result H; simpl; [exact H|].
  apply IH. destruct (_ || _); [now apply includes_bits_lor_l|exact H].
Qed.

(** X3: what a fully decoded, not yet finalised frame depends on is in
    [References()] under the very mark [SavedAs] gives it: a frame using a
    DC frame at level [L] references the mark of a DC frame of level
    [L+1], and a regular or skip-progressive frame that is cropped or
    blends references the mark of the frame saved in its blending source
    slot. *)
Theorem References_includes_SavedAs (patches_GetReferences : Z)
    (d : FrameDecoder) (saved : FrameHeader) :
  is_finalized_ d = false ->
  HasEverything d = true ->
  (has_flag (flags (frame_header_ d)) Flags.kUseDcFrame = true ->
   frame_type saved = kDCFrame ->
   dc_level saved = (dc_level (frame_header_ d) + 1)%N ->
   includes_bits (References patches_GetReferences d) (SavedAs saved)) /\
  (frame_type (frame_header_ d) = kRegularFrame
   \/ frame_type (frame_header_ d) = kSkipProgressive ->
   custom_size_or_origin (frame_header_ d) = true
   \/ mode (blending_info (frame_header_ d)) <> kReplace ->
   frame_type saved <> kDCFrame ->
   CanBeReferenced saved = true ->
   Z.of_nat (save_as_reference saved) = source (blending_info (frame_header_ d)) ->
   includes_bits (References patches_GetReferences d) (SavedAs saved)).
Proof.
  intros Hfin Hall. unfold References. rewrite Hfin, Hall. simpl.
  set (h := frame_header_ d). split.
  - intros Hflag Htype Hlevel. rewrite Hflag.
    unfold SavedAs. rewrite Htype, Hlevel. simpl.
    replace (Z.of_N (dc_level h + 1) - 1)%Z with (Z.of_N (dc_level h) + 1 - 1)%Z
      by lia.
    apply includes_bits_lor_r.
  - intros Htype Hblend Hndc Href Hslot.
    unfold SavedAs.
    replace (FrameType_eqb (frame_type saved) kDCFrame) with false
      by (destruct (frame_type saved); simpl; congruence).
    rewrite Href, Hslot.
    assert (Hb : custom_size_or_origin h
                 || negb (BlendMode_eqb (mode (blending_info h)) kReplace) = true).
    { destruct Hblend as [-> |Hmode]; [reflexivity|].
      destruct (mode (blending_info h)); simpl; try congruence;
        apply orb_true_r. }
    assert (Ht : FrameType_eqb (frame_type h) kRegularFrame
                 || FrameType_eqb (frame_type h) kSkipProgressive = true).
    { destruct Htype as [-> | ->]; reflexivity. }
    rewrite Ht, Hb.
    assert (Hcore : forall r,
              includes_bits r (Z.shiftl 1 (source (blending_info h))) ->
              includes_bits
                (let result :=
                   if has_flag (flags h) Flags.kPatches
                   then Z.lor r patches_GetReferences else r in
                 if has_flag (flags h) Flags.kUseDcFrame
                 then Z.lor result (Z.shiftl 16 (Z.of_N (dc_level h) + 1 - 1))
                 else result)
                (Z.shiftl 1 (source (blending_info h)))).
    { intros r Hr. simpl.
      destruct (has_flag (flags h) Flags.kPatches),
               (has_flag (flags h) Flags.kUseDcFrame);
        repeat apply includes_bits_lor_l; exact Hr. }
    apply Hcore. apply References_extra_includes. apply includes_bits_lor_r.
Qed.

Lemma References_includes_SavedAs_witness :
  includes_bits (References 0 (Sample.complete Flags.kUseDcFrame))
    (SavedAs
       {| encoding := kVarDCT; frame_type := kDCFrame; flags := 0;
          dc_level := 1; custom_size_or_origin := false;
          blending_info := {| mode := kReplace; source := 0 |};
          extra_channel_blending_info := [];
          passes := {| num_passes := 1; num_downsample := 0;
                       downsample := []; last_pass := [] |};
          is_last := false; animation_duration := 0;
          nonserialized_is_preview := false; chroma_Is444 := true;
          CanBeReferenced := false; save_as_reference := 0;
          save_before_color_transform := false |}).
Proof.
  apply (proj1 (References_includes_SavedAs 0 (Sample.complete Flags.kUseDcFrame)
                  _ eq_refl eq_refl)); reflexivity.
Defined.

(** ** MarkSections *)

Lemma MarkSections_loop_count sections :
  forall st d,
  length st = length sections ->
  num_sections_done_ (MarkSections_loop sections st d)
  = num_sections_done_ d - length (List.filter retried st).
Proof.
  induction sections as [|s rest IH]; intros st d Hlen.
  - destruct st; [|discriminate]. simpl. lia.
  - destruct st as [|x st]; [discriminate|]. simpl in Hlen.
    simpl. rewrite IH by lia. fold (retried x).
    destruct (retried x); simpl; lia.
Qed.

Lemma filter_retried_split (st : list SectionStatus) :
  length (List.filter retried st)
  + length (List.filter (fun x => negb (retried x)) st) = length st.
Proof.
  induction st as [|x st IH]; simpl; [reflexivity|].
  destruct (retried x); simpl; lia.
Qed.

(** X4: [MarkSections] leaves in [num_sections_done_] the number of
    entries of the batch whose status is neither [kSkipped] nor
    [kPartial]. *)
Theorem MarkSections_counts_done (sections : list SectionInfo)
    (st : list SectionStatus) (d : FrameDecoder) :
  length st = length sections ->
  num_sections_done_ (MarkSections sections st d)
  = length (List.filter (fun x => negb (retried x)) st).
Proof.
  intros Hlen. unfold MarkSections.
  rewrite MarkSections_loop_count by exact Hlen. simpl.
  pose proof (filter_retried_split st). lia.
Qed.

Lemma MarkSections_counts_done_witness :
  num_sections_done_
    (MarkSections SampleRun.all_sections
       [kDone; kDone; kSkipped; kPartial; kDuplicate] SampleRun.initialised)
  = length (List.filter (fun x => negb (retried x))
              [kDone; kDone; kSkipped; kPartial; kDuplicate]).
Proof.
  apply (MarkSections_counts_done SampleRun.all_sections
           [kDone; kDone; kSkipped; kPartial; kDuplicate] SampleRun.initialised).
  reflexivity.
Defined.

Lemma MarkSections_loop_table sections :
  forall st d,
  length (processed_section_ (MarkSections_loop sections st d))
  = length (processed_section_ d) /\
  (forall k, processed_section_ (MarkSections_loop sections st d) !! k = Some true ->
             processed_section_ d !! k = Some true) /\
  (forall k,
     (forall i s x, sections !! i = Some s -> st !! i = Some x ->
                    retried x = true -> id s <> k) ->
     processed_section_ (MarkSections_loop sections st d) !! k
     = processed_section_ d !! k).
Proof.
  induction sections as [|s rest IH]; intros st d; simpl; [auto|].
  destruct st as [|x st]; [auto|].
  fold (retried x).
  set (d1 := if retried x then _ else d).
  destruct (IH st d1) as (Hlen & Hmono & Hkeep).
  assert (Hlen1 : length (processed_section_ d1) = length (processed_section_ d)).
  { unfold d1. destruct (retried x); simpl; [apply length_insert|reflexivity]. }
  assert (Hmono1 : forall k, processed_section_ d1 !! k = Some true ->
                             processed_section_ d !! k = Some true).
  { unfold d1. destruct (retried x); simpl; [|auto].
    intros k Hk. destruct (decide (id s = k)) as [E|Hne].
    - subst k. assert (Hlt : id s < length (processed_section_ d)).
      { apply lookup_lt_Some in Hk. now rewrite length_insert in Hk. }
      rewrite list_lookup_insert_eq in Hk by exact Hlt. discriminate.
    - now rewrite list_lookup_insert_ne in Hk. }
  split; [congruence|]. split; [auto|].
  intros k Hk. rewrite Hkeep.
  - unfold d1. destruct (retried x) eqn:Hx; simpl; [|reflexivity].
    apply list_lookup_insert_ne. apply (Hk 0 s x); auto.
  - intros i s' x' Hs' Hx'. apply (Hk (S i)); auto.
Qed.

Lemma MarkSections_loop_clears sections :
  forall st d i s x,
  sections !! i = Some s -> st !! i = Some x -> retried x = true ->
  id s < length (processed_section_ d) ->
  processed_section_ (MarkSections_loop sections st d) !! id s = Some false.
Proof.
  induction sections as [|s0 rest IH]; intros st d0 i s x Hs Hx Hr Hin.
  - discriminate.
  - destruct st as [|x0 st]; [discriminate|]. simpl. fold (retried x0).
    destruct i as [|i]; simpl in Hs, Hx.
    + injection Hs as ->. injection Hx as ->. rewrite Hr.
      apply MarkSections_loop_keeps_false. simpl.
      now apply list_lookup_insert_eq.
    + apply (IH st _ i s x Hs Hx Hr).
      destruct (retried x0); simpl; [now rewrite length_insert|exact Hin].
Qed.

(** X5: [MarkSections] only ever clears flags of the section table.
    The flag of every entry left [kSkipped] or [kPartial] (with an id
    inside the table) is cleared, no flag is set, a flag whose id belongs
    to no such entry is untouched, and the table keeps its length. *)
Theorem MarkSections_clears_retried (sections : list SectionInfo)
    (st : list SectionStatus) (d : FrameDecoder) :
  (forall i s x, sections !! i = Some s -> st !! i = Some x ->
                 retried x = true -> id s < length (processed_section_ d) ->
     processed_section_ (MarkSections sections st d) !! id s = Some false) /\
  (forall k, processed_section_ (MarkSections sections st d) !! k = Some true ->
             processed_section_ d !! k = Some true) /\
  (forall k,
     (forall i s x, sections !! i = Some s -> st !! i = Some x ->
                    retried x = true -> id s <> k) ->
     processed_section_ (MarkSections sections st d) !! k
     = processed_section_ d !! k) /\
  length (processed_section_ (MarkSections sections st d))
  = length (processed_section_ d).
Proof.
  unfold MarkSections.
  destruct (MarkSections_loop_table sections st
              (set_num_sections_done (length sections) d)) as (Hlen & Hmono & Hkeep).
  split; [|split; [exact Hmono|split; [exact Hkeep|exact Hlen]]].
  intros i s x Hs Hx Hr Hin.
  now apply (MarkSections_loop_clears sections st _ i s x).
Qed.

(** ** ProcessSections never undoes progress *)

Lemma progress_kept_refl d : progress_kept d d.
Proof. split; eauto. Qed.

Lemma progress_kept_trans d1 d2 d3 :
  progress_kept d1 d2 -> progress_kept d2 d3 -> progress_kept d1 d3.
Proof.
  intros A B. destruct A, B. split; try congruence; auto.
  intros g n Hn. destruct (pk_passes0 g n Hn) as [n1 [H1 Hle1]].
  destruct (pk_passes1 g n1 H1) as [n2 [H2 Hle2]].
  exists n2. split; [exact H2|lia].
Qed.

Lemma progress_kept_ignores_flag_writes d0 :
  ignores_flag_writes (progress_kept d0).
Proof.
  split.
  - intros k v d H. destruct H. split; simpl; auto.
    now rewrite length_insert.
  - intros v d H. destruct H. split; simpl; auto.
Qed.

Lemma classify_section_flag_writes (P : FrameDecoder -> Prop) i s b :
  ignores_flag_writes P -> P (dec b) ->
  step_all (fun b' => P (dec b')) (classify_section i s b).
Proof.
  intros [Hp _] H. unfold classify_section.
  repeat (match goal with
          | |- context [if ?c then _ else _] => destruct c
          end; simpl; auto).
Qed.

Lemma classify_sections_flag_writes (P : FrameDecoder -> Prop) sections :
  ignores_flag_writes P ->
  forall i b, P (dec b) ->
  step_all (fun b' => P (dec b')) (classify_sections i sections b).
Proof.
  intros HP. induction sections as [|s rest IH]; intros i b H; simpl; [exact H|].
  eapply and_then_all.
  - apply classify_section_flag_writes; eauto.
  - auto.
  - auto.
  - intros b' _ Hb'. apply IH. exact Hb'.
Qed.

Lemma classify_flag_writes (P : FrameDecoder -> Prop) sections b :
  ignores_flag_writes P -> P (dec b) ->
  step_all (fun b' => P (dec b')) (classify sections b).
Proof.
  intros HP H. unfold classify. destruct (is_single_section _).
  - destruct HP as [Hp _]. unfold classify_single.
    destruct (negb _); simpl; auto.
    destruct sections as [|s rest]; simpl; auto.
    repeat (match goal with
            | |- context [if ?c then _ else _] => destruct c
            end; simpl; auto).
  - eapply and_then_all.
    + apply classify_sections_flag_writes; eauto.
    + auto.
    + auto.
    + intros b' _ Hb'. simpl. exact Hb'.
Qed.

Lemma MarkSections_flag_writes (P : FrameDecoder -> Prop) sections st d :
  ignores_flag_writes P -> P d -> P (MarkSections sections st d).
Proof.
  intros [Hp Hn] H. unfold MarkSections.
  assert (Hloop : forall sections st d, P d -> P (MarkSections_loop sections st d)).
  { clear sections st d H.
    induction sections as [|s rest IH]; intros st d H; simpl; [exact H|].
    destruct st as [|x st]; [exact H|]. apply IH.
    destruct (_ || _); auto. }
  apply Hloop. auto.
Qed.

Lemma ProcessDCGlobal_progress env reader d :
  progress_kept d (snd (ProcessDCGlobal env reader d)).
Proof.
  destruct (ProcessDCGlobal env reader d) as [st d'] eqn:H.
  apply ProcessDCGlobal_fields in H as [-> | ->]; simpl;
    [apply progress_kept_refl|split; simpl; eauto].
Qed.

Lemma ProcessDCGroup_progress env i reader d :
  progress_kept d (snd (ProcessDCGroup env i reader d)).
Proof.
  unfold ProcessDCGroup. destruct (dc_group_decode _ _ _); simpl;
    try apply progress_kept_refl.
  split; simpl; eauto.
  - apply length_insert.
  - intros j. apply lookup_insert_true.
Qed.

Lemma AllocateOutput_progress env d :
  progress_kept d (snd (AllocateOutput env d)).
Proof.
  destruct (AllocateOutput env d) as [st d'] eqn:H.
  apply AllocateOutput_fields in H as [-> | ->]; simpl;
    [apply progress_kept_refl|split; simpl; eauto].
Qed.

Lemma ProcessACGroup_progress env g readers n force_draw dc_only d :
  progress_kept d (snd (ProcessACGroup env g readers n force_draw dc_only d)).
Proof.
  unfold ProcessACGroup. destruct (ac_group_decode _ _ _ _ _ _); simpl;
    try apply progress_kept_refl.
  split; simpl; eauto.
  - apply length_insert.
  - intros g' m Hm. destruct (decide (g = g')) as [->|Hne].
    + rewrite Hm. simpl. exists (m + n). split; [|lia].
      apply list_lookup_insert_eq. eapply lookup_lt_Some; eauto.
    + exists m. split; [|lia]. now rewrite list_lookup_insert_ne.
Qed.

Lemma stage_dc_global_progress env sections d0 b :
  progress_kept d0 (dec b) ->
  step_all (fun b' => progress_kept d0 (dec b')) (stage_dc_global env sections b).
Proof.
  intros H. unfold stage_dc_global. destruct (_ =? _); [exact H|].
  pose proof (ProcessDCGlobal_progress env
                (default 0 (br <$> sections !! dc_global_sec (sched b))) (dec b)) as Hp.
  destruct (ProcessDCGlobal _ _ _) as [st d']. simpl in Hp.
  pose proof (progress_kept_trans _ _ _ H Hp) as H'.
  destruct (IsFatalError st); [exact H'|]. destruct (ok st); exact H'.
Qed.

Lemma stage_dc_groups_progress env sections d0 b :
  progress_kept d0 (dec b) ->
  step_all (fun b' => progress_kept d0 (dec b')) (stage_dc_groups env sections b).
Proof.
  intros H. unfold stage_dc_groups.
  set (r := if decoded_dc_global_ (dec b) then _ else _).
  assert (Hr : progress_kept d0 (dec (batch r))).
  { unfold r. destruct (decoded_dc_global_ (dec b)); [|exact H].
    unfold RunOnPool.
    apply (foldl_preserves (fun r => progress_kept d0 (dec (batch r)))
             (fun acc i => dc_group_body env sections i acc)); [|exact H].
    intros a i Ha. unfold dc_group_body. destruct (_ =? _); [exact Ha|].
    match goal with
    | |- context [ProcessDCGroup env i ?rd ?dd] =>
        pose proof (ProcessDCGroup_progress env i rd dd) as Hp;
        destruct (ProcessDCGroup env i rd dd) as [st d']
    end.
    simpl in Hp. pose proof (progress_kept_trans _ _ _ Ha Hp).
    destruct st; simpl; assumption. }
  destruct (has_error r); exact Hr.
Qed.

Lemma stage_finalize_dc_progress env sections single d0 b :
  progress_kept d0 (dec b) ->
  step_all (fun b' => progress_kept d0 (dec b'))
           (stage_finalize_dc env sections single b).
Proof.
  intros H. unfold stage_finalize_dc. destruct (_ && _); [|exact H].
  destruct (PreparePipeline env); try exact H.
  assert (H1 : progress_kept d0 (FinalizeDC (dec b))).
  { eapply progress_kept_trans; [exact H|]. split; simpl; eauto. }
  pose proof (AllocateOutput_progress env (FinalizeDC (dec b))) as Hp.
  destruct (AllocateOutput env (FinalizeDC (dec b))) as [sa d2]. simpl in Hp.
  pose proof (progress_kept_trans _ _ _ H1 Hp) as H2.
  destruct sa; simpl; try exact H2.
  destruct (pause_at_progressive_ d2 && negb single); [|exact H2].
  destruct (can_return_dc _ _); exact H2.
Qed.

Lemma stage_ac_global_progress env sections d0 b :
  progress_kept d0 (dec b) ->
  step_all (fun b' => progress_kept d0 (dec b')) (stage_ac_global env sections b).
Proof.
  intros H. unfold stage_ac_global. destruct (_ && _ && _); [|exact H].
  destruct (ProcessACGlobal_fields env
              (default 0 (br <$> sections !! ac_global_sec (sched b))) (dec b))
    as [-> | [[err [Herr ->]] | ->]]; [|destruct err; [congruence| |]|]; simpl; try exact H; [exact I|].
  eapply progress_kept_trans; [exact H|]. split; simpl; eauto.
Qed.

Lemma stage_ac_groups_progress env sections d0 b :
  progress_kept d0 (dec b) ->
  step_all (fun b' => progress_kept d0 (dec b')) (stage_ac_groups env sections b).
Proof.
  intros H. unfold stage_ac_groups.
  set (r := if decoded_ac_global_ (dec b) then _ else _).
  assert (Hr : match r with
               | Some r' => progress_kept d0 (dec (batch r'))
               | None => True
               end).
  { unfold r. destruct (decoded_ac_global_ (dec b)); [|exact H].
    unfold RunOnPool.
    apply (foldl_preserves
             (fun r => match r with
                       | Some r' => progress_kept d0 (dec (batch r'))
                       | None => True
                       end)
             (fun acc i => ac_group_body env sections i acc)); [|exact H].
    intros [a|] g Ha; simpl; [|exact I].
    destruct (_ =? 0); [exact Ha|]. destruct (existsb _ _); [exact I|].
    match goal with
    | |- context [ProcessACGroup env g ?rd ?n false false ?dd] =>
        pose proof (ProcessACGroup_progress env g rd n false false dd) as Hp;
        destruct (ProcessACGroup env g rd n false false dd) as [st d']
    end.
    simpl in Hp. pose proof (progress_kept_trans _ _ _ Ha Hp).
    destruct st; simpl; assumption. }
  destruct r as [r'|]; [|exact I].
  destruct (has_error r'); exact Hr.
Qed.

Lemma ProcessSections_progress env (sections : list SectionInfo) d r d' st :
  ProcessSections env sections d = SectionsReturned r d' st ->
  progress_kept d d'.
Proof.
  unfold ProcessSections.
  destruct (length sections =? 0);
    [intros [= <- <- <-]; apply progress_kept_refl|].
  match goal with
  | |- match ?s with _ => _ end = _ -> _ =>
      assert (Hs : step_all (fun b' => progress_kept d (dec b')) s);
      [|destruct s as [|r0 b0|b0|b0]; simpl in Hs; intros [= <- <- <-]]
  end.
  - eapply and_then_all;
      [apply classify_flag_writes;
       [apply progress_kept_ignores_flag_writes|apply progress_kept_refl]
      |auto|auto|].
    intros b1 _ H1. unfold run_stages.
    eapply and_then_all; [apply stage_dc_global_progress; exact H1|auto|auto|].
    intros b2 _ H2.
    eapply and_then_all; [apply stage_dc_groups_progress; exact H2|auto|auto|].
    intros b3 _ H3.
    eapply and_then_all; [apply stage_finalize_dc_progress; exact H3|auto|auto|].
    intros b4 _ H4.
    eapply and_then_all; [apply stage_ac_global_progress; exact H4|auto|auto|].
    intros b5 _ H5.
    eapply and_then_all; [apply stage_ac_groups_progress; exact H5|auto|auto|].
    intros b6 _ H6. exact H6.
  - exact Hs.
  - apply MarkSections_flag_writes;
      [apply progress_kept_ignores_flag_writes|exact Hs].
  - apply MarkSections_flag_writes;
      [apply progress_kept_ignores_flag_writes|exact Hs].
Qed.

(** X6: whatever [ProcessSections] returns, it has undone nothing: the
    header, the dimensions, the pass cap and the vector sizes are the same,
    every stage flag and DC-group flag that was set is still set, and no
    pass counter has gone down. *)
Theorem ProcessSections_keeps_progress (env : Externals)
    (sections : list SectionInfo) (d d' : FrameDecoder) (r : Status)
    (st : list SectionStatus) :
  ProcessSections env sections d = SectionsReturned r d' st ->
  progress_kept d d'.
Proof. apply ProcessSections_progress. Qed.

Lemma ProcessSections_keeps_progress_witness :
  progress_kept SampleRun.initialised SampleRun.decoded.
Proof.
  apply (ProcessSections_keeps_progress Sample.env_ok SampleRun.all_sections
           SampleRun.initialised SampleRun.decoded StatusOk (replicate 5 kDone)).
  vm_compute. reflexivity.
Defined.

(** ** Flush *)

Lemma output_of_refl d : output_of d d.
Proof. unfold output_of. destruct d; reflexivity. Qed.

Lemma output_of_trans d1 d2 d3 :
  output_of d1 d2 -> output_of d2 d3 -> output_of d1 d3.
Proof.
  unfold output_of. intros H12 H23. rewrite H23 at 1. rewrite H12.
  destruct d1; reflexivity.
Qed.

Lemma output_of_set_num_renders d d1 n :
  output_of d d1 -> output_of d (set_num_renders n d1).
Proof.
  unfold output_of. intros H. simpl.
  generalize (num_renders_ d1) (allocated_ d1) H. intros m a ->.
  destruct d; reflexivity.
Qed.

Lemma AllocateOutput_output env d st d' :
  AllocateOutput env d = (st, d') ->
  output_of d d' /\ num_renders_ d' = num_renders_ d /\
  (allocated_ d = true -> allocated_ d' = true) /\
  (st = StatusOk -> allocated_ d' = true).
Proof.
  unfold AllocateOutput. destruct (allocated_ d) eqn:Ha.
  - intros [= <- <-]. split; [apply output_of_refl|auto].
  - destruct (InitForAC env); intros [= <- <-];
      (split; [first [apply output_of_refl
                     |unfold output_of; destruct d; reflexivity]
              |simpl; repeat split; auto; discriminate]).
Qed.

(** A forced draw asks for no new pass: the decoder is as before. *)
Lemma ProcessACGroup_zero_id env g readers force_draw dc_only d :
  snd (ProcessACGroup env g readers 0 force_draw dc_only d) = d.
Proof.
  unfold ProcessACGroup. destruct (ac_group_decode _ _ _ _ _ _); simpl;
    try reflexivity.
  rewrite Nat.add_0_r, list_insert_same.
  - destruct d; reflexivity.
  - destruct (_ !! g); reflexivity.
Qed.

Lemma force_draw_region_id env l d err :
  fst (foldl (fun acc i => force_draw_body env i acc) (d, err) l) = d.
Proof.
  revert err. induction l as [|g l IH]; intros err; cbn [foldl]; [reflexivity|].
  assert (Hb : fst (force_draw_body env g (d, err)) = d).
  { unfold force_draw_body. destruct (_ =? _); [reflexivity|].
    pose proof (ProcessACGroup_zero_id env g [] true
                  (negb (decoded_ac_global_ d)) d) as Hz.
    destruct (ProcessACGroup _ _ _ _ _ _ _) as [st d1]. simpl in Hz. subst d1.
    destruct st; reflexivity. }
  destruct (force_draw_body env g (d, err)) as [d1 err1]. simpl in Hb. subst d1.
  apply IH.
Qed.

Lemma Flush_output env d st d' :
  Flush env d = (st, d') ->
  output_of d d' /\
  (allocated_ d = true -> allocated_ d' = true) /\
  (num_renders_ d' = num_renders_ d \/
   (num_renders_ d' = S (num_renders_ d) /\ st = StatusOk /\
    allocated_ d' = true)).
Proof.
  unfold Flush.
  destruct (_ && _); [intros [= <- <-]; split; [apply output_of_refl|auto]|].
  destruct (_ && _); [intros [= <- <-]; split; [apply output_of_refl|auto]|].
  destruct (decoded_IsJPEG d);
    [intros [= <- <-]; split; [apply output_of_refl|auto]|].
  destruct (AllocateOutput env d) as [sa d1] eqn:Ha.
  apply AllocateOutput_output in Ha as (Ho & Hn & Hkeep & Hok).
  destruct sa; try (intros [= <- <-]; auto).
  specialize (Hok eq_refl).
  match goal with
  | |- context [let '(_, _) := ?x in _] => destruct x as [d2 err] eqn:Hr
  end.
  assert (Hd2 : d2 = d1).
  { destruct (_ <? _).
    - unfold RunOnPool in Hr.
      pose proof (force_draw_region_id env
                    (seq 0 (length (decoded_passes_per_ac_group_ d1) - 0))
                    d1 false) as H.
      now rewrite Hr in H.
    - now injection Hr as <- <-. }
  subst d2.
  destruct err; [intros [= <- <-]; auto|].
  destruct (modular_FinalizeDecoding env); intros [= <- <-]; auto.
  split; [apply output_of_set_num_renders; exact Ho|].
  split; [exact Hkeep|]. right. simpl. rewrite Hn. auto.
Qed.

(** X7: [Flush] changes nothing of the decoder but the output buffers and
    the render count.  Buffers that were allocated stay allocated, and the
    render count is either unchanged or one more; it is one more only when
    [Flush] succeeded, and then the buffers are allocated. *)
Theorem Flush_changes_only_output (env : Externals) (d d' : FrameDecoder)
    (st : Status) :
  Flush env d = (st, d') ->
  d' = set_num_renders (num_renders_ d') (set_allocated (allocated_ d') d) /\
  (allocated_ d = true -> allocated_ d' = true) /\
  (num_renders_ d' = num_renders_ d \/
   (num_renders_ d' = S (num_renders_ d) /\ st = StatusOk /\
    allocated_ d' = true)).
Proof. intros H. exact (Flush_output env d st d' H). Qed.

Lemma Flush_changes_only_output_witness :
  SampleRun.decoded =
    set_num_renders (num_renders_ SampleRun.decoded)
      (set_allocated (allocated_ SampleRun.decoded) SampleRun.decoded) /\
  (allocated_ SampleRun.decoded = true -> allocated_ SampleRun.decoded = true) /\
  (num_renders_ (set_num_renders 1 SampleRun.decoded)
   = num_renders_ SampleRun.decoded \/
   (num_renders_ (set_num_renders 1 SampleRun.decoded)
    = S (num_renders_ SampleRun.decoded) /\ StatusOk = StatusOk /\
    allocated_ (set_num_renders 1 SampleRun.decoded) = true)).
Proof.
  pose proof (Flush_changes_only_output Sample.env_ok SampleRun.decoded
                (set_num_renders 1 SampleRun.decoded) StatusOk) as H.
  destruct H as (_ & H2 & H3); [vm_compute; reflexivity|].
  split; [vm_compute; reflexivity|]. split; [exact H2|exact H3].
Defined.

Lemma has_blending_loop_true (l : list BlendingInfo) (has : bool) :
  foldl (fun has blending_info_ec =>
           if negb (BlendMode_eqb (mode blending_info_ec) kReplace) then true
           else has) has l = true <->
  has = true \/ Exists (fun e => mode e <> kReplace) l.
Proof.
  revert has. induction l as [|e l IH]; intros has; cbn [foldl].
  - split; [auto|]. intros [H|H]; [exact H|inversion H].
  - rewrite IH. rewrite Exists_cons.
    destruct (mode e); simpl; split; intros H;
      repeat match goal with
             | H : _ \/ _ |- _ => destruct H
             end; auto; try congruence;
      left; reflexivity || (right; left; discriminate).
Qed.

Lemma has_blending_blends h : has_blending h = true <-> blends h.
Proof.
  unfold has_blending, blends. rewrite has_blending_loop_true.
  rewrite orb_true_iff.
  destruct (mode (blending_info h)); simpl; split; intros H;
    repeat match goal with
           | H : _ \/ _ |- _ => destruct H
           end; auto; try congruence;
    left; left; reflexivity.
Qed.

(** X8: as long as the frame is not finalised, [Flush] refuses to draw a
    frame that blends with the canvas (colour or any extra channel not in
    replace mode, or a frame with its own size or origin): it fails and
    leaves the decoder exactly as it is. *)
Theorem Flush_refuses_blending (env : Externals) (d : FrameDecoder) :
  is_finalized_ d = false ->
  blends (frame_header_ d) ->
  Flush env d = (StatusOfBool false, d).
Proof.
  intros Hfin Hb. apply has_blending_blends in Hb. unfold Flush.
  rewrite Hb, Hfin. reflexivity.
Qed.

Lemma Flush_refuses_blending_witness :
  Flush Sample.env_ok alpha_blended_frame
  = (StatusOfBool false, alpha_blended_frame).
Proof.
  apply (Flush_refuses_blending Sample.env_ok alpha_blended_frame).
  - reflexivity.
  - right. right. apply Exists_cons_tl. apply Exists_cons_hd. discriminate.
Defined.

(** ** FinalizeFrame on a frame in progress *)

Lemma stage_order_HasEverything d :
  stage_order d -> HasEverything d = true -> finalized_dc_ d = true.
Proof.
  intros (_ & _ & _ & Hac). rewrite HasEverything_unfold.
  intros H. apply Hac.
  destruct (decoded_dc_global_ d), (decoded_ac_global_ d); simpl in H;
    congruence.
Qed.

(** X9: on a frame in progress (reached from a successful [InitFrame] by
    calls of [ProcessSections]), [FinalizeFrame] never trips its assertion:
    it cannot find the frame complete and yet DC not finalised. *)
Theorem FinalizeFrame_never_aborts (env : Externals) (d : FrameDecoder) :
  in_progress d -> FinalizeFrame env d <> Aborted.
Proof.
  intros Hin. apply in_progress_order in Hin.
  pose proof (stage_order_HasEverything d Hin) as Hdc.
  unfold FinalizeFrame.
  destruct (is_finalized_ d); [discriminate|].
  set (d0 := set_is_finalized true d).
  destruct (decoded_IsJPEG d0); [discriminate|].
  set (d1 := if negb (finalized_dc_ d0) then _ else _).
  assert (H1 : finalized_dc_ d1 = finalized_dc_ d /\
               HasEverything d1 = HasEverything d).
  { unfold d1. destruct (negb _); split; reflexivity. }
  destruct H1 as [Hf1 He1]. clearbody d1.
  assert (Hflush : forall dx, FinalizeFrame_flush env dx <> Aborted).
  { intros dx. unfold FinalizeFrame_flush.
    destruct (Flush env dx) as [[| |m] df]; discriminate. }
  rewrite Hf1, He1.
  destruct (HasEverything d) eqn:He; simpl.
  - rewrite (Hdc eq_refl). simpl. apply Hflush.
  - destruct (allow_partial_frames_ d1); simpl; [|discriminate].
    destruct (finalized_dc_ d); simpl; [apply Hflush|].
    destruct (AllocateOutput env d1) as [[| |m] da]; try discriminate.
    apply Hflush.
Qed.

Lemma FinalizeFrame_never_aborts_witness :
  FinalizeFrame Sample.env_ok SampleRun.initialised <> Aborted.
Proof.
  apply (FinalizeFrame_never_aborts Sample.env_ok SampleRun.initialised).
  exact SampleRun_initialised_in_progress.
Defined.

(** Apart from the output buffers and the render count, what a call of
    [FinalizeFrame] that gets past its first two tests does to the
    decoder. *)
Lemma FinalizeFrame_fields (env : Externals) (d d' : FrameDecoder)
    (st : Status) :
  is_finalized_ d = false ->
  decoded_IsJPEG d = false ->
  FinalizeFrame env d = Returned st d' ->
  d' =
    set_reference_frames
      (if ok st && CanBeReferenced (frame_header_ d)
       then <[save_as_reference (frame_header_ d) :=
                {| ib_is_in_xyb := save_before_color_transform (frame_header_ d);
                   has_frame := true |}]> (reference_frames d)
       else reference_frames d)
      (set_num_renders (num_renders_ d')
         (set_allocated (allocated_ d')
            (set_epf_iters (if finalized_dc_ d then epf_iters d else 0)
               (set_is_finalized true d)))).
Proof.
  intros Hfin Hjpeg. unfold FinalizeFrame. rewrite Hfin.
  cbn [decoded_IsJPEG set_is_finalized]. rewrite Hjpeg.
  cbn [finalized_dc_ set_is_finalized].
  set (d1 := if negb (finalized_dc_ d) then _ else _).
  assert (H1 : d1 = set_epf_iters (if finalized_dc_ d then epf_iters d else 0)
                      (set_is_finalized true d)).
  { unfold d1. destruct (finalized_dc_ d); simpl; [|reflexivity].
    destruct d; reflexivity. }
  clearbody d1.
  assert (Hhdr : frame_header_ d1 = frame_header_ d) by (subst d1; reflexivity).
  assert (Hrefs : reference_frames d1 = reference_frames d)
    by (subst d1; reflexivity).
  assert (Hfail : forall dx e, output_of d1 dx -> ok e = false ->
            dx = set_reference_frames
                   (if ok e && CanBeReferenced (frame_header_ d)
                    then <[save_as_reference (frame_header_ d) :=
                             {| ib_is_in_xyb :=
                                  save_before_color_transform (frame_header_ d);
                                has_frame := true |}]> (reference_frames d)
                    else reference_frames d)
                   (set_num_renders (num_renders_ dx)
                      (set_allocated (allocated_ dx) d1))).
  { intros dx e Ho ->. simpl. rewrite <- Hrefs.
    unfold output_of in Ho. rewrite Ho at 1. destruct d1; reflexivity. }
  assert (Hflush : forall da, output_of d1 da ->
            FinalizeFrame_flush env da = Returned st d' ->
            d' = set_reference_frames
                   (if ok st && CanBeReferenced (frame_header_ d)
                    then <[save_as_reference (frame_header_ d) :=
                             {| ib_is_in_xyb :=
                                  save_before_color_transform (frame_header_ d);
                                has_frame := true |}]> (reference_frames d)
                    else reference_frames d)
                   (set_num_renders (num_renders_ d')
                      (set_allocated (allocated_ d') d1))).
  { intros da Hoa. unfold FinalizeFrame_flush.
    destruct (Flush env da) as [sf df] eqn:Hf.
    apply Flush_output in Hf as [Hof _].
    pose proof (output_of_trans _ _ _ Hoa Hof) as Hodf.
    destruct sf; try (intros [= <- <-]; apply Hfail; [exact Hodf|reflexivity]).
    assert (Hh : frame_header_ df = frame_header_ d).
    { unfold output_of in Hodf. rewrite Hodf. simpl. exact Hhdr. }
    assert (Hr : reference_frames df = reference_frames d).
    { unfold output_of in Hodf. rewrite Hodf. simpl. exact Hrefs. }
    rewrite Hh, Hr. intros [= <- <-]. simpl.
    destruct (CanBeReferenced (frame_header_ d)); simpl.
    - unfold output_of in Hodf. rewrite Hodf at 1. destruct d1; reflexivity.
    - rewrite <- Hrefs. unfold output_of in Hodf. rewrite Hodf at 1.
      destruct d1; reflexivity. }
  rewrite <- H1.
  destruct (negb (HasEverything d1) && negb (allow_partial_frames_ d1)).
  { intros [= <- <-]. apply Hfail; [apply output_of_refl|reflexivity]. }
  destruct (negb (finalized_dc_ d1)).
  - destruct (negb (allow_partial_frames_ d1)); [discriminate|].
    destruct (AllocateOutput env d1) as [sa da] eqn:Ha.
    apply AllocateOutput_output in Ha as [Ho _].
    destruct sa; try (intros [= <- <-]; apply Hfail; [exact Ho|reflexivity]).
    apply Hflush. exact Ho.
  - apply Hflush. apply output_of_refl.
Qed.

(** [AllocateOutput] leaves the buffers allocated exactly when they were
    or [InitForAC] succeeds, and that is when it succeeds. *)
Lemma AllocateOutput_exact env d st d' :
  AllocateOutput env d = (st, d') ->
  allocated_ d' = allocated_ d || ok (InitForAC env) /\
  num_renders_ d' = num_renders_ d /\
  ok st = allocated_ d || ok (InitForAC env).
Proof.
  unfold AllocateOutput. destruct (allocated_ d) eqn:Ha.
  - intros [= <- <-]. rewrite Ha. auto.
  - destruct (InitForAC env); intros [= <- <-]; simpl; rewrite ?Ha; auto.
Qed.

(** [Flush] on a finalised frame that is not a JPEG reconstruction: the
    buffers are allocated if they were or [InitForAC] succeeds, and the
    render count goes up exactly when [Flush] succeeds. *)
Lemma Flush_finalized_exact env d st d' :
  is_finalized_ d = true -> decoded_IsJPEG d = false ->
  Flush env d = (st, d') ->
  allocated_ d' = allocated_ d || ok (InitForAC env) /\
  num_renders_ d' = if ok st then S (num_renders_ d) else num_renders_ d.
Proof.
  intros Hfin Hjpeg. unfold Flush. rewrite Hfin, Hjpeg.
  cbn [negb]. rewrite !andb_false_r.
  destruct (AllocateOutput env d) as [sa d1] eqn:Ha.
  apply AllocateOutput_exact in Ha as (Hal & Hn & Hok).
  destruct sa; try (intros [= <- <-]; auto).
  match goal with
  | |- context [let '(_, _) := ?x in _] => destruct x as [d2 err] eqn:Hr
  end.
  assert (Hd2 : d2 = d1).
  { destruct (_ <? _).
    - unfold RunOnPool in Hr.
      pose proof (force_draw_region_id env
                    (seq 0 (length (decoded_passes_per_ac_group_ d1) - 0))
                    d1 false) as H.
      now rewrite Hr in H.
    - now injection Hr as <- <-. }
  subst d2.
  destruct err; [intros [= <- <-]; auto|].
  destruct (modular_FinalizeDecoding env); intros [= <- <-]; auto.
  simpl. rewrite Hn. auto.
Qed.

(** X10: the complete effect of a call of [FinalizeFrame] that gets past
    its first two tests.  The frame is finalised; the edge-preserving
    filter is switched off when DC was not finalised; the output buffers
    are allocated if they were before, or if the call got past the test
    for a complete frame and [InitForAC] succeeded; the render count is
    one more exactly when the call succeeded; and the frame is entered in
    its reference slot exactly when the call succeeded and the header says
    the frame can be referenced.  Nothing else changes. *)
Theorem FinalizeFrame_effect (env : Externals) (d d' : FrameDecoder)
    (st : Status) :
  is_finalized_ d = false ->
  decoded_IsJPEG d = false ->
  FinalizeFrame env d = Returned st d' ->
  d' =
    set_reference_frames
      (if ok st && CanBeReferenced (frame_header_ d)
       then <[save_as_reference (frame_header_ d) :=
                {| ib_is_in_xyb := save_before_color_transform (frame_header_ d);
                   has_frame := true |}]> (reference_frames d)
       else reference_frames d)
      (set_num_renders (if ok st then S (num_renders_ d) else num_renders_ d)
         (set_allocated
            (allocated_ d
             || (HasEverything d || allow_partial_frames_ d) && ok (InitForAC env))
            (set_epf_iters (if finalized_dc_ d then epf_iters d else 0)
               (set_is_finalized true d)))).
Proof.
  intros Hfin Hjpeg Hres.
  rewrite (FinalizeFrame_fields env d d' st Hfin Hjpeg Hres) at 1.
  assert (H : allocated_ d' =
              allocated_ d
              || (HasEverything d || allow_partial_frames_ d) && ok (InitForAC env)
              /\ num_renders_ d' =
                 if ok st then S (num_renders_ d) else num_renders_ d).
  { clear -Hfin Hjpeg Hres. revert Hres. unfold FinalizeFrame. rewrite Hfin.
    cbn [decoded_IsJPEG set_is_finalized]. rewrite Hjpeg.
    cbn [finalized_dc_ set_is_finalized].
    set (d1 := if negb (finalized_dc_ d) then _ else _).
    assert (H1 : is_finalized_ d1 = true /\ decoded_IsJPEG d1 = false /\
                 allocated_ d1 = allocated_ d /\
                 num_renders_ d1 = num_renders_ d /\
                 HasEverything d1 = HasEverything d /\
                 allow_partial_frames_ d1 = allow_partial_frames_ d /\
                 frame_header_ d1 = frame_header_ d).
    { unfold d1. destruct (negb _); simpl; rewrite Hjpeg; auto 10. }
    clearbody d1. destruct H1 as (F1 & J1 & A1 & N1 & E1 & P1 & Hh).
    rewrite E1, P1, <- A1, <- N1.
    assert (Hflush : forall da,
              is_finalized_ da = true -> decoded_IsJPEG da = false ->
              FinalizeFrame_flush env da = Returned st d' ->
              allocated_ d' = allocated_ da || ok (InitForAC env) /\
              num_renders_ d' =
                if ok st then S (num_renders_ da) else num_renders_ da).
    { intros da Hf Hj. unfold FinalizeFrame_flush.
      destruct (Flush env da) as [sf df] eqn:HF.
      apply (Flush_finalized_exact env da sf df Hf Hj) in HF as [Ha Hn].
      destruct sf; intros [= <- <-]; simpl in *; [|auto..].
      destruct (CanBeReferenced _); simpl; auto. }
    destruct (HasEverything d || allow_partial_frames_ d) eqn:Hc.
    2:{ apply orb_false_iff in Hc as [-> ->]. simpl. intros [= <- <-]. simpl.
        rewrite orb_false_r. auto. }
    replace (negb (HasEverything d) && negb (allow_partial_frames_ d)) with false
      by (destruct (HasEverything d), (allow_partial_frames_ d);
          simpl in *; congruence).
    cbn [andb].
    destruct (negb (finalized_dc_ d1)); [|now apply Hflush].
    destruct (negb (allow_partial_frames_ d)); [discriminate|].
    destruct (AllocateOutput env d1) as [sa da] eqn:Ha.
    pose proof (AllocateOutput_exact _ _ _ _ Ha) as (Hal & Hn & Hok).
    assert (Hda : is_finalized_ da = true /\ decoded_IsJPEG da = false).
    { apply AllocateOutput_fields in Ha as [-> | ->]; auto. }
    destruct sa; try (intros [= <- <-]; simpl; auto).
    intros Hfl. apply Hflush in Hfl as [H1 H2]; [|tauto..].
    rewrite Hal, Hn in *. split; [|exact H2]. rewrite H1.
    destruct (allocated_ d1), (ok (InitForAC env)); reflexivity. }
  destruct H as [-> ->]. reflexivity.
Qed.

Lemma FinalizeFrame_effect_witness :
  set_num_renders 1 (set_is_finalized true (Sample.complete 0)) =
    set_reference_frames
      (if ok StatusOk && CanBeReferenced (frame_header_ (Sample.complete 0))
       then <[save_as_reference (frame_header_ (Sample.complete 0)) :=
                {| ib_is_in_xyb :=
                     save_before_color_transform (frame_header_ (Sample.complete 0));
                   has_frame := true |}]> (reference_frames (Sample.complete 0))
       else reference_frames (Sample.complete 0))
      (set_num_renders
         (if ok StatusOk then S (num_renders_ (Sample.complete 0))
          else num_renders_ (Sample.complete 0))
         (set_allocated
            (allocated_ (Sample.complete 0)
             || (HasEverything (Sample.complete 0)
                 || allow_partial_frames_ (Sample.complete 0))
                && ok (InitForAC Sample.env_ok))
            (set_epf_iters
               (if finalized_dc_ (Sample.complete 0)
                then epf_iters (Sample.complete 0) else 0)
               (set_is_finalized true (Sample.complete 0))))).
Proof.
  apply (FinalizeFrame_effect Sample.env_ok (Sample.complete 0)
           (set_num_renders 1 (set_is_finalized true (Sample.complete 0)))
           StatusOk).
  - reflexivity.
  - reflexivity.
  - vm_compute. reflexivity.
Defined.

(** ** InitFrame: what a call leaves behind *)

Lemma InitFrame_toc_progress ext reader decoded ip apf apdg d :
  match InitFrame_toc ext reader decoded ip apf apdg d with
  | inl (Returned st d') =>
      st <> StatusOk /\ same_progress d d' /\ is_finalized_ d' = is_finalized_ d
  | inl Aborted => False
  | inr (d', _, _) =>
      same_progress d d' /\ is_finalized_ d' = is_finalized_ d /\
      frame_dim_ d' = ToFrameDimensions ext (frame_header_ d') /\
      allow_partial_frames_ d' = apf /\ allow_partial_dc_global_ d' = apdg
  end.
Proof.
  unfold InitFrame_toc.
  destruct (InitFrame_header _ _ _ _ _) as [sh h].
  destruct (negb (ok sh)) eqn:Hok.
  { split; [intros ->; discriminate|]. split; [split|]; reflexivity. }
  cbn [frame_dim_ set_frame_dim xsize ysize].
  destruct (VerifyDimensions _ _ _) eqn:Hv;
    try (split; [discriminate|split; [split|]; reflexivity]).
  destruct (ReadGroupOffsets _ _) as [ts [[offs szs] tot]].
  destruct (negb (ok ts || apf)).
  - split; [discriminate|]. split; [split|]; reflexivity.
  - split; [split|]; repeat split; reflexivity.
Qed.

(** X11: [InitFrame] opens the frame (clears the finalised flag) exactly
    when it returns success and the output was asked for.  In every other
    case the frame stays closed and the decoding progress of the decoder
    (stage flags, group vectors, section table, counters) is left as it
    was. *)
Theorem InitFrame_opens_frame (ext : InitExternals) (reader : ReaderState)
    (decoded : ImageBundle)
    (is_preview allow_partial_frames allow_partial_dc_global output_needed : bool)
    (d d' : FrameDecoder) (st : Status) :
  InitFrame ext reader decoded is_preview allow_partial_frames
    allow_partial_dc_global output_needed d = Returned st d' ->
  is_finalized_ d' = negb (ok st && output_needed) /\
  (ok st && output_needed = false -> same_progress d d').
Proof.
  unfold InitFrame. destruct (is_finalized_ d) eqn:Hfin; [|discriminate].
  cbn [negb].
  pose proof (InitFrame_toc_progress ext reader decoded is_preview
                allow_partial_frames allow_partial_dc_global d) as Htoc.
  destruct (InitFrame_toc _ _ _ _ _ _ _) as [[|s0 d0]|[[d1 gcb] total]].
  - contradiction.
  - intros [= <- <-]. destruct Htoc as (Hne & Hsp & Hf).
    destruct s0; [congruence| |]; simpl; (split; [congruence|auto]).
  - destruct Htoc as (Hsp & Hf & _). rewrite Hfin in Hf.
    unfold InitFrame_checks.
    destruct (_ <? _)%N; [intros [= <- <-]; simpl; auto|].
    destruct (_ && _ && _); [intros [= <- <-]; simpl; auto|].
    destruct output_needed; cbn [negb].
    2:{ intros [= <- <-]. rewrite andb_false_r. simpl. auto. }
    assert (Hsp' : same_progress d (set_epf_iters (shared_epf_iters ext) d1)).
    { destruct Hsp. split; assumption. }
    destruct (InitializePassesSharedState ext);
      try (intros [= <- <-]; simpl; auto).
    destruct (dec_state_Init ext); try (intros [= <- <-]; simpl; auto).
    destruct (InitFrame_jpeg _ _); intros [= <- <-]; simpl; auto.
    split; [reflexivity|discriminate].
Qed.

Lemma InitFrame_opens_frame_witness :
  is_finalized_ SampleRun.initialised = negb (ok StatusOk && true) /\
  (ok StatusOk && true = false ->
   same_progress SampleInit.idle SampleRun.initialised).
Proof.
  apply (InitFrame_opens_frame (SampleInit.ext true 0 80)
           (SampleInit.reader 4096) SampleInit.bundle false false false true
           SampleInit.idle SampleRun.initialised StatusOk).
  vm_compute. reflexivity.
Defined.

(** X12: a frame that [InitFrame] accepts satisfies the constraints the
    function tests: a VarDCT frame has 4:4:4 chroma or skips adaptive DC
    smoothing, and when the output is prepared for a JPEG reconstruction the
    frame is VarDCT, the JPEG has one or three components and the image is
    not XYB encoded.  The dimensions are those derived from the header and
    the two partial-decoding options are the ones passed in. *)
Theorem InitFrame_accepted_frame (ext : InitExternals) (reader : ReaderState)
    (decoded : ImageBundle)
    (is_preview allow_partial_frames allow_partial_dc_global output_needed : bool)
    (d d' : FrameDecoder) :
  InitFrame ext reader decoded is_preview allow_partial_frames
    allow_partial_dc_global output_needed d = Returned StatusOk d' ->
  (encoding (frame_header_ d') = kVarDCT ->
   chroma_Is444 (frame_header_ d') = true \/
   has_flag (flags (frame_header_ d')) Flags.kSkipAdaptiveDCSmoothing = true) /\
  (output_needed = true -> IsJPEG decoded = true ->
   encoding (frame_header_ d') = kVarDCT /\
   (jpeg_num_components decoded = 1 \/ jpeg_num_components decoded = 3) /\
   xyb_encoded decoded = false) /\
  frame_dim_ d' = ToFrameDimensions ext (frame_header_ d') /\
  allow_partial_frames_ d' = allow_partial_frames /\
  allow_partial_dc_global_ d' = allow_partial_dc_global.
Proof.
  unfold InitFrame. destruct (negb _); [discriminate|].
  pose proof (InitFrame_toc_progress ext reader decoded is_preview
                allow_partial_frames allow_partial_dc_global d) as Htoc.
  destruct (InitFrame_toc _ _ _ _ _ _ _) as [[|s0 d0]|[[d1 gcb] total]].
  - contradiction.
  - intros [= -> ->]. destruct Htoc as [Hne _]. congruence.
  - destruct Htoc as (_ & _ & Hdim & Hapf & Hapdg).
    unfold InitFrame_checks.
    destruct (_ <? _)%N; [discriminate|].
    destruct (negb (chroma_Is444 (frame_header_ d1))
              && negb (has_flag (flags (frame_header_ d1))
                         Flags.kSkipAdaptiveDCSmoothing)
              && FrameEncoding_eqb (encoding (frame_header_ d1)) kVarDCT)
      eqn:Hchroma; [discriminate|].
    assert (Hc : encoding (frame_header_ d1) = kVarDCT ->
                 chroma_Is444 (frame_header_ d1) = true \/
                 has_flag (flags (frame_header_ d1))
                   Flags.kSkipAdaptiveDCSmoothing = true).
    { intros He. rewrite He in Hchroma. simpl in Hchroma.
      rewrite andb_true_r in Hchroma.
      destruct (chroma_Is444 (frame_header_ d1)); [now left|].
      destruct (has_flag _ _); [now right|discriminate]. }
    destruct output_needed; cbn [negb].
    2:{ intros [= <-]. repeat split; auto; discriminate. }
    destruct (InitializePassesSharedState ext); try discriminate.
    destruct (dec_state_Init ext); try discriminate.
    destruct (InitFrame_jpeg _ _) eqn:Hj; try discriminate.
    intros [= <-]. cbn [frame_header_ clear_state set_epf_iters frame_dim_
                        allow_partial_frames_ allow_partial_dc_global_].
    split; [exact Hc|]. split; [|auto].
    intros _ Hjpeg. unfold InitFrame_jpeg in Hj. rewrite Hjpeg in Hj.
    cbn [frame_header_ set_epf_iters] in Hj.
    destruct (encoding (frame_header_ d1)); simpl in Hj; [|discriminate].
    split; [reflexivity|].
    destruct (jpeg_num_components decoded =? 1) eqn:H1;
      destruct (jpeg_num_components decoded =? 3) eqn:H3;
      simpl in Hj; try discriminate;
      (destruct (xyb_encoded decoded); [discriminate|]);
      (split; [|reflexivity]).
    + left. now apply Nat.eqb_eq.
    + left. now apply Nat.eqb_eq.
    + right. now apply Nat.eqb_eq.
Qed.

Lemma InitFrame_accepted_frame_witness :
  (encoding (frame_header_ SampleRun.initialised) = kVarDCT ->
   chroma_Is444 (frame_header_ SampleRun.initialised) = true \/
   has_flag (flags (frame_header_ SampleRun.initialised))
     Flags.kSkipAdaptiveDCSmoothing = true) /\
  (true = true -> IsJPEG SampleInit.bundle = true ->
   encoding (frame_header_ SampleRun.initialised) = kVarDCT /\
   (jpeg_num_components SampleInit.bundle = 1 \/
    jpeg_num_components SampleInit.bundle = 3) /\
   xyb_encoded SampleInit.bundle = false) /\
  frame_dim_ SampleRun.initialised
  = ToFrameDimensions (SampleInit.ext true 0 80)
      (frame_header_ SampleRun.initialised) /\
  allow_partial_frames_ SampleRun.initialised = false /\
  allow_partial_dc_global_ SampleRun.initialised = false.
Proof.
  apply (InitFrame_accepted_frame (SampleInit.ext true 0 80)
           (SampleInit.reader 4096) SampleInit.bundle false false false true
           SampleInit.idle SampleRun.initialised).
  vm_compute. reflexivity.
Defined.

(** ** Frames in progress *)



(** ** The pass policy of [DecodeFrame], continued *)

Lemma wrap32_le (x : N) : (wrap32 x <= x)%N.
Proof. unfold wrap32. apply N.Div0.mod_le. Qed.

Lemma clip_max_passes_le h md steps :
  forall m, (clip_max_passes h md steps m <= m)%N.
Proof.
  induction steps as [|i rest IH]; intros m; simpl; [lia|].
  etransitivity; [apply IH|].
  destruct (_ <=? _)%N; simpl; [|lia].
  destruct (N.ltb_spec (default 0%N (last_pass (passes h) !! i)) m); [|lia].
  etransitivity; [apply wrap32_le|lia].
Qed.

(** X14: the pass cap that [DecodeFrame] hands to the decoder.  For a
    reference-only frame it is the header's number of passes, whatever the
    parameters say.  For any other frame it exceeds neither the header's
    number of passes nor the caller's [max_passes]: the downsampling steps
    only ever lower it. *)
Theorem DecodeFrame_pass_cap_bounds (dparams : DecompressParams)
    (d : FrameDecoder) :
  let cap := max_passes_ (DecodeFrame_SetMaxPasses dparams d) in
  if FrameType_eqb (frame_type (frame_header_ d)) kReferenceOnly
  then cap = num_passes (passes (frame_header_ d))
  else cap <= num_passes (passes (frame_header_ d)) /\
       (N.of_nat cap <= max_passes dparams)%N.
Proof.
  cbv zeta. unfold DecodeFrame_SetMaxPasses, SetMaxPasses, DecodeFrame_max_passes.
  cbn [max_passes_ set_max_passes].
  set (np := num_passes (passes (frame_header_ d))).
  destruct (FrameType_eqb _ _).
  - rewrite N.min_id, Nat2N.id. apply Nat.min_id.
  - set (m := if (8 <=? _)%N then _ else _).
    assert (Hm : (m <= max_passes dparams)%N).
    { unfold m. destruct (8 <=? _)%N; [lia|apply clip_max_passes_le]. }
    split; lia.
Qed.

Lemma clip_max_passes_mono h md1 md2 steps :
  last_pass_in_range h -> (md1 <= md2)%N ->
  forall m1 m2, (m2 <= m1)%N ->
  (clip_max_passes h md2 steps m2 <= clip_max_passes h md1 steps m1)%N.
Proof.
  intros Hlp Hmd. induction steps as [|i rest IH]; intros m1 m2 Hm; simpl;
    [exact Hm|].
  apply IH.
  set (ds := default 0%N (downsample (passes h) !! i)).
  set (lp := default 0%N (last_pass (passes h) !! i)).
  assert (Hw : wrap32 (lp + 1) = (lp + 1)%N).
  { unfold wrap32. apply N.mod_small. unfold lp.
    destruct (last_pass (passes h) !! i) as [x|] eqn:Hx; simpl.
    - eapply Hlp; eauto.
    - reflexivity. }
  rewrite Hw.
  destruct (N.leb_spec ds md1), (N.leb_spec ds md2),
           (N.ltb_spec lp m1), (N.ltb_spec lp m2); simpl; lia.
Qed.

(** X15: asking for more downsampling never raises the pass cap: of two
    parameter sets that differ only in [max_downsampling], the one with the
    larger value gets a cap that is no larger. *)
Theorem DecodeFrame_more_downsampling_fewer_passes
    (dp1 dp2 : DecompressParams) (h : FrameHeader) :
  last_pass_in_range h ->
  max_passes dp1 = max_passes dp2 ->
  (max_downsampling dp1 <= max_downsampling dp2)%N ->
  (DecodeFrame_max_passes dp2 h <= DecodeFrame_max_passes dp1 h)%N.
Proof.
  intros Hlp Hmp Hmd. unfold DecodeFrame_max_passes.
  destruct (FrameType_eqb _ _); [lia|].
  apply N.min_le_compat_r. rewrite Hmp.
  set (k := (dc_level h * 3)%N).
  assert (Hs : (N.max (N.shiftr (max_downsampling dp1) k) 1
                <= N.max (N.shiftr (max_downsampling dp2) k) 1)%N).
  { apply N.max_le_compat_r. rewrite !N.shiftr_div_pow2.
    apply N.Div0.div_le_mono. exact Hmd. }
  destruct (N.leb_spec 8 (N.max (N.shiftr (max_downsampling dp2) k) 1)).
  - destruct (8 <=? _)%N; lia.
  - destruct (N.leb_spec 8 (N.max (N.shiftr (max_downsampling dp1) k) 1)); [lia|].
    apply clip_max_passes_mono; auto; lia.
Qed.

Lemma DecodeFrame_more_downsampling_fewer_passes_witness :
  (DecodeFrame_max_passes (params_with 3 4) progressive_header
   <= DecodeFrame_max_passes (params_with 3 2) progressive_header)%N.
Proof.
  apply (DecodeFrame_more_downsampling_fewer_passes
           (params_with 3 2) (params_with 3 4) progressive_header).
  - intros [|[|i]] lp; simpl; intros [= <-] || discriminate; reflexivity.
  - reflexivity.
  - vm_compute. discriminate.
Defined.

(** ** The section windows of [DecodeFrame] and [GetReaderForSection] *)

Lemma wrap64_small (x : N) : (x < 2 ^ 64)%N -> wrap64 x = x.
Proof. apply N.mod_small. Qed.

Lemma wrap64_add_sub (a b : N) :
  (b <= a)%N -> (a - b < 2 ^ 64)%N -> wrap64 (2 ^ 64 + a - b) = (a - b)%N.
Proof.
  intros Hle Hlt. unfold wrap64.
  replace (2 ^ 64 + a - b)%N with ((a - b) + 1 * 2 ^ 64)%N by lia.
  rewrite N.Div0.mod_add. now apply N.mod_small.
Qed.

(** The difference [e - b] of the section loop is the section's size
    even when [b + sz] wraps. *)
Lemma wrap64_end_minus_begin (b sz : N) :
  (b < 2 ^ 64)%N ->
  wrap64 (2 ^ 64 + wrap64 (b + sz) - b) = wrap64 sz.
Proof.
  intros Hb. unfold wrap64.
  pose proof (N.Div0.div_mod (b + sz) (2 ^ 64)) as Hdm.
  pose proof (N.mod_upper_bound (b + sz) (2 ^ 64) ltac:(discriminate)) as Hub.
  set (q := ((b + sz) / 2 ^ 64)%N) in *.
  set (e := ((b + sz) mod 2 ^ 64)%N) in *.
  assert (Hq : (2 ^ 64 + e - b + q * 2 ^ 64 = sz + 1 * 2 ^ 64)%N) by lia.
  rewrite <- (N.Div0.mod_add (2 ^ 64 + e - b) q (2 ^ 64)), Hq.
  apply N.Div0.mod_add.
Qed.



Lemma DecodeFrame_section_id dparams encoding pos total_bytes i b sz i' w :
  DecodeFrame_section dparams encoding pos total_bytes i b sz
  = Some (Some (i', w)) -> i' = i.
Proof.
  unfold DecodeFrame_section. destruct (_ || _); [now intros [= <- _]|].
  destruct (negb _); discriminate.
Qed.

Lemma DecodeFrame_section_strict dparams encoding pos total_bytes i b sz :
  allow_partial_files dparams = false ->
  DecodeFrame_section dparams encoding pos total_bytes i b sz <> Some None.
Proof.
  intros Hapf. unfold DecodeFrame_section. rewrite Hapf.
  destruct (_ || _); discriminate.
Qed.

Lemma DecodeFrame_sections_ids dparams encoding pos total_bytes offsets :
  forall sizes i skip0 batch skip,
  DecodeFrame_sections dparams encoding pos total_bytes i offsets sizes skip0
  = Some (batch, skip) ->
  batch.*1 `sublist_of` seq i (Nat.min (length offsets) (length sizes)) /\
  (allow_partial_files dparams = false ->
   batch.*1 = seq i (Nat.min (length offsets) (length sizes))).
Proof.
  induction offsets as [|b offsets IH]; intros sizes i skip0 batch skip.
  { simpl. intros [= <- _]. split; [constructor|reflexivity]. }
  destruct sizes as [|sz sizes].
  { simpl. intros [= <- _]. split; [constructor|reflexivity]. }
  cbn [DecodeFrame_sections length Nat.min seq].
  destruct (DecodeFrame_section dparams encoding pos total_bytes i b sz)
    as [entry|] eqn:Hentry; [|discriminate].
  destruct (DecodeFrame_sections _ _ _ _ (S i) offsets sizes _)
    as [[batch' skip']|] eqn:Hrest; [|discriminate].
  apply IH in Hrest as [Hsub Hall].
  intros [= <- <-]. destruct entry as [[i' w]|].
  - apply DecodeFrame_section_id in Hentry as ->. simpl. split.
    + now apply sublist_skip.
    + intros Hapf. cbn [fmap list_fmap fst]. f_equal. exact (Hall Hapf).
  - split.
    + now apply sublist_cons.
    + intros Hapf. exfalso.
      eapply DecodeFrame_section_strict; eauto.
Qed.

(** X17: the batch that [DecodeFrame] builds lists section ids in
    increasing order without repetition, each of them an index of the TOC;
    and unless partial files are allowed, a batch that is built at all
    contains every section of the frame. *)
Theorem DecodeFrame_sections_batch (dparams : DecompressParams)
    (encoding : FrameEncoding) (pos total_bytes : N)
    (offsets sizes : list N) (batch : list (nat * Span)) (skip : N) :
  DecodeFrame_sections dparams encoding pos total_bytes 0 offsets sizes 0
  = Some (batch, skip) ->
  batch.*1 `sublist_of` seq 0 (Nat.min (length offsets) (length sizes)) /\
  (allow_partial_files dparams = false ->
   batch.*1 = seq 0 (Nat.min (length offsets) (length sizes))).
Proof. apply DecodeFrame_sections_ids. Qed.

Lemma DecodeFrame_sections_batch_witness :
  [(0, {| span_first := 100; span_size := 16 |});
   (1, {| span_first := 116; span_size := 16 |})].*1
    `sublist_of` seq 0 (Nat.min (length [0; 16]%N) (length [16; 16]%N)) /\
  (allow_partial_files (params_with 3 1) = false ->
   [(0, {| span_first := 100; span_size := 16 |});
    (1, {| span_first := 116; span_size := 16 |})].*1
   = seq 0 (Nat.min (length [0; 16]%N) (length [16; 16]%N))).
Proof.
  apply (DecodeFrame_sections_batch (params_with 3 1) kVarDCT 100 4096
           [0; 16]%N [16; 16]%N _ 32%N).
  vm_compute. reflexivity.
Defined.

Lemma DecodeFrame_sections_skip dparams encoding pos total_bytes offsets :
  forall sizes i skip0 batch skip,
  length offsets = length sizes ->
  Forall (fun b => (b < 2 ^ 64)%N) offsets ->
  (skip0 < 2 ^ 64)%N ->
  DecodeFrame_sections dparams encoding pos total_bytes i offsets sizes skip0
  = Some (batch, skip) ->
  skip = wrap64 (skip0 + foldr N.add 0%N sizes).
Proof.
  induction offsets as [|b offsets IH];
    intros sizes i skip0 batch skip Hlen Hoff Hskip0.
  { destruct sizes; [|discriminate]. simpl. intros [= _ <-].
    rewrite N.add_0_r. symmetry. now apply wrap64_small. }
  destruct sizes as [|sz sizes]; [discriminate|].
  injection Hlen as Hlen. inversion Hoff as [|? ? Hb Hoff']; subst.
  cbn [DecodeFrame_sections foldr].
  destruct (DecodeFrame_section dparams encoding pos total_bytes i b sz)
    as [entry|]; [|discriminate].
  destruct (DecodeFrame_sections _ _ _ _ (S i) offsets sizes _)
    as [[batch' skip']|] eqn:Hrest; [|discriminate].
  apply IH in Hrest; auto.
  2:{ apply N.mod_upper_bound. discriminate. }
  intros [= _ <-]. rewrite Hrest.
  rewrite wrap64_end_minus_begin by exact Hb.
  unfold wrap64.
  set (S := foldr N.add 0%N sizes).
  rewrite N.Div0.add_mod_idemp_l.
  replace (skip0 + sz mod 2 ^ 64 + S)%N with (sz mod 2 ^ 64 + (skip0 + S))%N
    by lia.
  rewrite N.Div0.add_mod_idemp_l. f_equal. lia.
Qed.

(** X18: the number of bytes that [DecodeFrame] skips in its reader
    after building the batch is the sum of the sizes of all sections of the
    TOC (in 64-bit arithmetic), whether or not a section went into the
    batch. *)
Theorem DecodeFrame_skips_all_sections (dparams : DecompressParams)
    (encoding : FrameEncoding) (pos total_bytes : N)
    (offsets sizes : list N) (batch : list (nat * Span)) (skip : N) :
  length offsets = length sizes ->
  Forall (fun b => (b < 2 ^ 64)%N) offsets ->
  DecodeFrame_sections dparams encoding pos total_bytes 0 offsets sizes 0
  = Some (batch, skip) ->
  skip = wrap64 (foldr N.add 0%N sizes).
Proof.
  intros Hlen Hoff H.
  apply DecodeFrame_sections_skip in H; auto. reflexivity.
Qed.

Lemma DecodeFrame_skips_all_sections_witness :
  32%N = wrap64 (foldr N.add 0%N [16; 16]%N).
Proof.
  apply (DecodeFrame_skips_all_sections
           {| max_passes := 3; max_downsampling := 1;
              allow_partial_files := true;
              allow_more_progressive_steps := false |}
           kVarDCT 100 120 [0; 16]%N [16; 16]%N
           [(0, {| span_first := 100; span_size := 16 |})] 32%N).
  - reflexivity.
  - repeat constructor.
  - vm_compute. reflexivity.
Defined.

Lemma DecodeFrame_statuses_ok dparams section_sizes ids :
  forall statuses i p,
  (exists n, DecodeFrame_statuses dparams section_sizes i ids statuses p = inr n)
  <-> (forall k s, k < length ids -> statuses !! k = Some s ->
                   accepted_status dparams s).
Proof.
  induction ids as [|id0 ids IH]; intros statuses i p.
  { simpl. split; [intros _ k s Hk; lia|eauto]. }
  destruct statuses as [|s0 statuses].
  { simpl. split; [intros _ k s _ Hs; discriminate|eauto]. }
  assert (Hstep : forall p',
            (exists n, DecodeFrame_statuses dparams section_sizes (S i) ids
                         statuses p' = inr n) ->
            accepted_status dparams s0 ->
            forall k s, k < length (id0 :: ids) ->
                        (s0 :: statuses) !! k = Some s ->
                        accepted_status dparams s).
  { intros p' Hex H0 [|k] s Hk Hs.
    - injection Hs as <-. exact H0.
    - simpl in Hk, Hs. apply (proj1 (IH statuses (S i) p') Hex k s); [lia|exact Hs]. }
  assert (Hrest : forall p',
            (forall k s, k < length (id0 :: ids) ->
                         (s0 :: statuses) !! k = Some s ->
                         accepted_status dparams s) ->
            exists n, DecodeFrame_statuses dparams section_sizes (S i) ids
                        statuses p' = inr n).
  { intros p' H. apply IH. intros k s Hk Hs.
    apply (H (S k) s); [simpl; lia|exact Hs]. }
  cbn [DecodeFrame_statuses].
  destruct s0; cbn [SectionStatus_eqb andb].
  - split; [intros H; eapply Hstep; [exact H|now left]|apply Hrest].
  - rewrite andb_false_r.
    destruct (N.ltb_spec 1 (max_downsampling dparams)) as [Hmd|Hmd]; cbn [andb].
    + split; [intros H; eapply Hstep; [exact H|right; right; auto]|apply Hrest].
    + split; [intros [n Hn]; discriminate|].
      intros H. destruct (H 0 kSkipped) as [H0|[[_ H0]|[H0 _]]];
        [simpl; lia|reflexivity|discriminate|discriminate|lia].
  - rewrite !andb_false_r. split; [intros [n Hn]; discriminate|].
    intros H. destruct (H 0 kDuplicate) as [H0|[[_ H0]|[_ H0]]];
      [simpl; lia|reflexivity|discriminate..].
  - rewrite andb_true_r, andb_false_r.
    destruct (allow_more_progressive_steps dparams) eqn:Hamps.
    + split; [intros H; eapply Hstep; [exact H|right; left; auto]|apply Hrest].
    + split; [intros [n Hn]; discriminate|].
      intros H. destruct (H 0 kPartial) as [H0|[[H0 _]|[_ H0]]];
        [simpl; lia|reflexivity|congruence..].
Qed.

(** X19: the loop of [DecodeFrame] over the statuses returned by
    [ProcessSections] runs to its end exactly when every section of the batch
    is done, or is partial while more progressive steps are allowed, or is
    skipped while downsampling is asked for; in particular a duplicate
    section always makes [DecodeFrame] fail. *)
Theorem DecodeFrame_statuses_accepted (dparams : DecompressParams)
    (section_sizes : list N) (ids : list nat) (statuses : list SectionStatus)
    (processed_bytes : N) :
  (exists n, DecodeFrame_statuses dparams section_sizes 0 ids statuses
               processed_bytes = inr n)
  <-> (forall k s, k < length ids -> statuses !! k = Some s ->
         s = kDone \/
         (allow_more_progressive_steps dparams = true /\ s = kPartial) \/
         ((1 < max_downsampling dparams)%N /\ s = kSkipped)).
Proof. apply DecodeFrame_statuses_ok. Qed.

(** X20: the window that [GetReaderForSection] gives to a section of a
    frame with more than one section, when the section lies inside the
    parent reader: it starts at the section's first byte, covers the whole
    section and at most eight bytes more, and ends inside the parent. *)
Theorem GetReaderForSection_window (num_groups num_passes : nat)
    (group_codes_begin : N) (group_offsets group_sizes : list N)
    (total_bytes : N) (index : nat) (off sz : N) :
  (num_groups =? 1) && (num_passes =? 1) = false ->
  group_offsets !! index = Some off ->
  group_sizes !! index = Some sz ->
  (group_codes_begin + off + sz <= total_bytes)%N ->
  (total_bytes + 8 < 2 ^ 64)%N ->
  exists w,
    GetReaderForSection num_groups num_passes group_codes_begin
      group_offsets group_sizes total_bytes index = StoreReader w /\
    span_first w = (group_codes_begin + off)%N /\
    (sz <= span_size w <= sz + 8)%N /\
    (span_first w + span_size w <= total_bytes)%N.
Proof.
  intros Hmulti Hoff Hsz Hfit Htot. unfold GetReaderForSection.
  rewrite Hmulti, Hoff, Hsz. cbv zeta. cbn [default from_option Datatypes.id].
  rewrite (wrap64_small (group_codes_begin + off)) by lia.
  rewrite (wrap64_small (group_codes_begin + off + sz)) by lia.
  rewrite (wrap64_add_sub (group_codes_begin + off + sz)
             (group_codes_begin + off)) by lia.
  rewrite (wrap64_add_sub total_bytes (group_codes_begin + off)) by lia.
  rewrite (wrap64_small (group_codes_begin + off + sz
                         - (group_codes_begin + off) + 8)) by lia.
  eexists. split; [reflexivity|]. simpl. lia.
Qed.

Lemma GetReaderForSection_window_witness :
  exists w,
    GetReaderForSection 2 1 16 [0; 16; 32; 48; 64]%N [16; 16; 16; 16; 16]%N
      4096 3 = StoreReader w /\
    span_first w = (16 + 48)%N /\
    (16 <= span_size w <= 16 + 8)%N /\
    (span_first w + span_size w <= 4096)%N.
Proof.
  apply (GetReaderForSection_window 2 1 16 [0; 16; 32; 48; 64]%N
           [16; 16; 16; 16; 16]%N 4096 3 48 16); try reflexivity.
  vm_compute. discriminate.
Defined.

(** ** The pass counters stay within the header's number of passes *)






















(** ** ProcessSections trips no assertion on a valid batch *)















(** The check on the quantisation tables is needed: with a JPEG target
    whose data names a table that is not there, the same batch stops the
    process in [ProcessACGlobal], where it runs to the end with the tables
    in place. *)
Example ProcessSections_missing_quant_table_aborts :
  ProcessSections env_missing_quant_table SampleRun.all_sections
    (Sample.fresh 1 2 1 0 true false) = SectionsAborted /\
  exists d' st,
    ProcessSections Sample.env_ok SampleRun.all_sections
      (Sample.fresh 1 2 1 0 true false) = SectionsReturned StatusOk d' st /\
    HasEverything d' = true.
Proof. split; [|eexists _, _]; vm_compute; auto. Qed.

(** ** What a successful call of ProcessSections tells its caller *)

(** X23: after a successful call of [ProcessSections] on a non-empty
    batch (the section table not being empty) there is one status per
    section, [num_sections_done_] is the number of sections that need not be
    submitted again, and every section reported [kSkipped] or [kPartial] is
    marked as not processed, so that a later call takes it up again. *)
Theorem ProcessSections_reports_retries (env : Externals)
    (sections : list SectionInfo) (d d' : FrameDecoder)
    (st : list SectionStatus) :
  sections <> [] ->
  processed_section_ d <> [] ->
  ProcessSections env sections d = SectionsReturned StatusOk d' st ->
  length st = length sections /\
  num_sections_done_ d'
  = length (List.filter (fun x => negb (retried x)) st) /\
  (forall i s x, sections !! i = Some s -> st !! i = Some x ->
                 retried x = true -> id s < length (processed_section_ d) ->
                 processed_section_ d' !! id s = Some false).
Proof.
  intros Hne Htable Hps.
  apply ProcessSections_trace in Hps as (bc & b & Hc & Hl & -> & Hfin); auto.
  destruct Hfin as [[Hr _]|(_ & _ & ->)]; [congruence|].
  assert (Hlen : length (section_status b) = length sections).
  { rewrite (lt_status_len _ _ Hl). apply (cl_status_len _ _ _ Hc). }
  split; [exact Hlen|]. split.
  - unfold MarkSections. rewrite MarkSections_loop_count by exact Hlen. simpl.
    pose proof (filter_retried_split (section_status b)). lia.
  - intros i s x Hs Hx Hr Hin. unfold MarkSections.
    apply (MarkSections_loop_clears sections _ _ i s x Hs Hx Hr). simpl.
    rewrite (lt_processed _ _ Hl), (cl_len _ _ _ Hc). exact Hin.
Qed.

Lemma ProcessSections_reports_retries_witness :
  length [kDone; kDone; kSkipped; kSkipped; kSkipped]
  = length SampleRun.all_sections /\
  num_sections_done_ SamplePause.paused
  = length (List.filter (fun x => negb (retried x))
              [kDone; kDone; kSkipped; kSkipped; kSkipped]) /\
  (forall i s x, SampleRun.all_sections !! i = Some s ->
                 [kDone; kDone; kSkipped; kSkipped; kSkipped] !! i = Some x ->
                 retried x = true ->
                 id s < length (processed_section_ SamplePause.initialised) ->
                 processed_section_ SamplePause.paused !! id s = Some false).
Proof.
  apply (ProcessSections_reports_retries Sample.env_ok SampleRun.all_sections
           SamplePause.initialised SamplePause.paused
           [kDone; kDone; kSkipped; kSkipped; kSkipped]).
  - discriminate.
  - vm_compute. discriminate.
  - vm_compute. reflexivity.
Defined.

Lemma progress_kept_HasEverything d d' :
  progress_kept d d' -> HasEverything d = true -> HasEverything d' = true.
Proof.
  intros Hk. rewrite !HasEverything_unfold, !andb_true_iff.
  intros [[[Hdc Hac] Hgroups] Hpasses].
  split; [split; [split|]|].
  - now apply (pk_dc_global _ _ Hk).
  - now apply (pk_ac_global _ _ Hk).
  - apply forallb_lookup. intros i x Hi.
    assert (Hlt : i < length (decoded_dc_groups_ d)).
    { rewrite <- (pk_dc_len _ _ Hk). eapply lookup_lt_Some; eauto. }
    apply lookup_lt_is_Some in Hlt as [y Hy].
    pose proof (proj1 (forallb_lookup _ _) Hgroups i y Hy) as Ht. simpl in Ht.
    subst y. rewrite (pk_dc_groups _ _ Hk i Hy) in Hi. congruence.
  - apply forallb_lookup. intros g n' Hg.
    assert (Hlt : g < length (decoded_passes_per_ac_group_ d)).
    { rewrite <- (pk_passes_len _ _ Hk). eapply lookup_lt_Some; eauto. }
    apply lookup_lt_is_Some in Hlt as [n Hn].
    pose proof (proj1 (forallb_lookup _ _) Hpasses g n Hn) as Hle.
    simpl in Hle. apply Nat.leb_le in Hle.
    destruct (pk_passes _ _ Hk g n Hn) as [n2 [Hn2 Hle2]].
    rewrite Hn2 in Hg. injection Hg as <-.
    apply Nat.leb_le. rewrite (pk_max _ _ Hk). lia.
Qed.

(** X24: a frame that has everything keeps having everything: no call of
    [ProcessSections] and no call of [Flush], whatever they return, makes
    [HasEverything] false again. *)
Theorem HasEverything_is_stable (env : Externals) (d : FrameDecoder) :
  HasEverything d = true ->
  (forall sections r d' st,
     ProcessSections env sections d = SectionsReturned r d' st ->
     HasEverything d' = true) /\
  (forall r d', Flush env d = (r, d') -> HasEverything d' = true).
Proof.
  intros He. split.
  - intros sections r d' st Hps.
    apply (progress_kept_HasEverything d d'); [|exact He].
    eapply ProcessSections_progress; eauto.
  - intros r d' Hf. apply Flush_same in Hf.
    now rewrite (same_decoding_HasEverything _ _ Hf).
Qed.

Lemma HasEverything_is_stable_witness :
  (forall sections r d' st,
     ProcessSections Sample.env_ok sections SampleRun.decoded
     = SectionsReturned r d' st ->
     HasEverything d' = true) /\
  (forall r d', Flush Sample.env_ok SampleRun.decoded = (r, d') ->
                HasEverything d' = true).
Proof.
  apply (HasEverything_is_stable Sample.env_ok SampleRun.decoded).
  vm_compute. reflexivity.
Defined.

(** ** The names of the lossless round-trip tests *)

Lemma pretty_N_go_no_b (x : N) :
  forall s, mentions "b"%char s = false -> mentions "b"%char (pretty_N_go x s) = false.
Proof.
  induction (N.lt_wf_0 x) as [x _ IH]; intros s Hs.
  destruct (N.eq_dec x 0%N) as [->|Hx]; [now rewrite pretty_N_go_0|].
  rewrite pretty_N_go_step by lia. apply IH.
  - apply N.div_lt; lia.
  - simpl. rewrite Hs, orb_false_r. unfold pretty_N_char.
    repeat case_match; reflexivity.
Qed.

Lemma pretty_Z_no_b (x : Z) : mentions "b"%char (pretty x) = false.
Proof.
  assert (HN : forall p, mentions "b"%char (pretty (Npos p)) = false).
  { intros p. unfold pretty, pretty_N. destruct (decide _); [reflexivity|].
    now apply pretty_N_go_no_b. }
  destruct x as [|p|p]; [reflexivity|apply HN|].
  unfold pretty, pretty_Z. simpl. apply HN.
Qed.

Lemma append_cons (a : ascii) (s t : string) :
  String a s +:+ t = String a (s +:+ t).
Proof. reflexivity. Qed.

Lemma append_assoc (s1 s2 s3 : string) :
  (s1 +:+ s2) +:+ s3 = s1 +:+ (s2 +:+ s3).
Proof.
  induction s1 as [|a s1 IH]; [reflexivity|].
  rewrite !append_cons. f_equal. exact IH.
Qed.

Lemma append_split_at (c : ascii) (d1 : string) :
  forall d2 s1 s2,
  mentions c d1 = false -> mentions c d2 = false ->
  d1 +:+ String c s1 = d2 +:+ String c s2 -> d1 = d2 /\ s1 = s2.
Proof.
  induction d1 as [|a d1 IH]; intros [|a2 d2] s1 s2 H1 H2;
    rewrite ?append_cons; change ("" +:+ ?x) with x; simpl in H1, H2.
  - intros [= E]. auto.
  - intros [= E1 E2]. subst a2. rewrite Ascii.eqb_refl in H2. discriminate.
  - intros [= E1 E2]. subst a. rewrite Ascii.eqb_refl in H1. discriminate.
  - intros [= E1 E2]. subst a2.
    apply orb_false_iff in H1 as [_ H1], H2 as [_ H2].
    destruct (IH d2 s1 s2 H1 H2 E2) as [-> ->]. auto.
Qed.

Lemma LosslessTestDescription_inj c1 c2 :
  LosslessTestDescription c1 = LosslessTestDescription c2 ->
  bitdepth c1 = bitdepth c2 /\
  (responsive c1 =? 0)%Z = (responsive c2 =? 0)%Z.
Proof.
  unfold LosslessTestDescription. cbv zeta.
  assert (Hgen : forall t1 t2,
            pretty (bitdepth c1) +:+ String "b"%char t1
            = pretty (bitdepth c2) +:+ String "b"%char t2 ->
            bitdepth c1 = bitdepth c2 /\ t1 = t2).
  { intros t1 t2 H.
    apply append_split_at in H as [Hp Ht]; try apply pretty_Z_no_b.
    split; [|exact Ht]. now apply (inj pretty). }
  destruct (responsive c1 =? 0)%Z, (responsive c2 =? 0)%Z; cbn [negb];
    rewrite ?append_assoc; intros H; apply Hgen in H as [Hb Ht];
    (split; [exact Hb|]); try reflexivity; discriminate.
Qed.

(** X25: the test names are faithful to the parameters: two parameter
    records with the same description have the same bit depth and agree on
    whether [responsive] is set. *)
Theorem LosslessTestDescription_distinguishes
    (c1 c2 : RoundtripLosslessConfig) :
  LosslessTestDescription c1 = LosslessTestDescription c2 ->
  bitdepth c1 = bitdepth c2 /\
  (responsive c1 =? 0)%Z = (responsive c2 =? 0)%Z.
Proof. apply LosslessTestDescription_inj. Qed.

Lemma LosslessTestDescription_distinguishes_witness :
  bitdepth {| bitdepth := 8; responsive := 1 |}
  = bitdepth {| bitdepth := 8; responsive := 2 |} /\
  (responsive {| bitdepth := 8; responsive := 1 |} =? 0)%Z
  = (responsive {| bitdepth := 8; responsive := 2 |} =? 0)%Z.
Proof.
  apply (LosslessTestDescription_distinguishes
           {| bitdepth := 8; responsive := 1 |}
           {| bitdepth := 8; responsive := 2 |}).
  vm_compute. reflexivity.
Defined.




(** ** The JPEG quantisation tables *)

(** X27: the loops over [x] and [y] store the raw table transposed:
    entry [x * 8 + y] of the JPEG table is entry [y * 8 + x] of the raw
    table of component [quant_c]. *)
Theorem set_quant_values_transposes (qtable : list Z) (quant_c : nat)
    (values : list Z) :
  length values = 64 ->
  set_quant_values qtable quant_c values
  = (fun k => default 0%Z (qtable !! (quant_c * 64 + (k mod 8) * 8 + k / 8)))
    <$> seq 0 64.
Proof.
  intros Hlen.
  do 64 (destruct values as [|? values]; [discriminate|]).
  destruct values; [|discriminate].
  reflexivity.
Qed.

Lemma set_quant_values_transposes_witness :
  set_quant_values (Z.of_nat <$> seq 0 192) 1 (replicate 64 0%Z)
  = (fun k => default 0%Z
                (((Z.of_nat <$> seq 0 192) : list Z)
                 !! (1 * 64 + (k mod 8) * 8 + k / 8)))
    <$> seq 0 64.
Proof.
  apply (set_quant_values_transposes (Z.of_nat <$> seq 0 192) 1
           (replicate 64 0%Z)).
  reflexivity.
Defined.

Lemma land_shiftl_1_testbit (x i : Z) :
  (0 <= i)%Z ->
  negb (Z.land x (Z.shiftl 1 i) =? 0)%Z = Z.testbit x i.
Proof.
  intros Hi. rewrite Z.shiftl_1_l.
  assert (H : Z.land x (2 ^ i) = if Z.testbit x i then (2 ^ i)%Z else 0%Z).
  { apply Z.bits_inj'. intros n Hn.
    rewrite Z.land_spec, Z.pow2_bits_eqb by exact Hi.
    destruct (Z.eqb_spec i n) as [->|Hne].
    - destruct (Z.testbit x n) eqn:Hx; simpl.
      + rewrite Z.pow2_bits_eqb by exact Hn. now rewrite Z.eqb_refl.
      + now rewrite Z.bits_0.
    - rewrite andb_false_r. destruct (Z.testbit x i).
      + rewrite Z.pow2_bits_eqb by exact Hi.
        symmetry. now apply Z.eqb_neq.
      + now rewrite Z.bits_0. }
  rewrite H. destruct (Z.testbit x i); [|reflexivity].
  assert (0 < 2 ^ i)%Z by (apply Z.pow_pos_nonneg; lia).
  destruct (Z.eqb_spec (2 ^ i) 0); [lia|reflexivity].
Qed.

Lemma set_component_tables_spec qtable is_gray jpeg_c_map quant_idx cs :
  forall qt_set quant,
  Forall (fun q => q < length quant) (used_positions jpeg_c_map quant_idx cs) ->
  exists qt_set' quant',
    set_component_tables qtable is_gray jpeg_c_map quant_idx cs qt_set quant
    = Some (qt_set', quant') /\
    length quant' = length quant /\
    forall i, Z.testbit qt_set' (Z.of_nat i) = true <->
              Z.testbit qt_set (Z.of_nat i) = true \/
              i ∈ used_positions jpeg_c_map quant_idx cs.
Proof.
  induction cs as [|c rest IH]; intros qt_set quant Hall.
  - exists qt_set, quant. split; [reflexivity|]. split; [reflexivity|].
    intros i. split; [auto|]. intros [H|H]; [exact H|inversion H].
  - cbn [used_positions fmap list_fmap] in Hall.
    inversion Hall as [|q qs Hq Hrest]; subst.
    cbn [set_component_tables].
    destruct (Nat.eqb_spec (component_qpos jpeg_c_map quant_idx c)
                (length quant)) as [E|_]; [lia|].
    destruct (IH (Z.lor qt_set
                    (Z.shiftl 1 (Z.of_nat (component_qpos jpeg_c_map quant_idx c))))
                 (<[component_qpos jpeg_c_map quant_idx c :=
                      set_quant_values qtable (if is_gray then 1 else c)
                        (default [] (quant !! component_qpos jpeg_c_map quant_idx c))]>
                    quant))
      as (qt' & quant' & Hrun & Hlen & Hbits).
    { rewrite length_insert. exact Hrest. }
    exists qt', quant'. split; [exact Hrun|].
    split; [now rewrite Hlen, length_insert|].
    intros i. rewrite Hbits, Z.lor_spec, orb_true_iff, Z.shiftl_1_l.
    rewrite Z.pow2_bits_eqb by lia.
    cbn [used_positions fmap list_fmap]. rewrite elem_of_cons.
    rewrite Z.eqb_eq. split.
    + intros [[H|H]|H]; [now left|right; left; lia|right; right; exact H].
    + intros [H|[H|H]]; [left; now left|left; right; lia|right; exact H].
Qed.

Lemma copy_unused_tables_spec qt_set (n : nat) :
  forall k quant st quant',
  copy_unused_tables qt_set (seq k n) quant = (st, quant') ->
  length quant' = length quant /\
  (st = StatusOk \/ st = JXL_FAILURE "First quant table unused.") /\
  (st = StatusOk <-> (k = 0 -> 0 < n -> Z.testbit qt_set 0 = true)) /\
  (forall j, j < k -> quant' !! j = quant !! j) /\
  (st = StatusOk ->
   forall i, k <= i < k + n -> Z.testbit qt_set (Z.of_nat i) = false ->
             i < length quant -> quant' !! i = quant' !! (i - 1)).
Proof.
  induction n as [|n IH]; intros k quant st quant'.
  { simpl. intros [= <- <-]. repeat split; auto; intros; lia. }
  cbn [seq copy_unused_tables].
  rewrite land_shiftl_1_testbit by lia.
  destruct (Z.testbit qt_set (Z.of_nat k)) eqn:Hbit.
  - intros Hrun. apply IH in Hrun as (Hlen & Hst & Hok & Hpre & Hcopy).
    split; [exact Hlen|]. split; [exact Hst|]. split; [|split].
    + split.
      * intros _ -> _. exact Hbit.
      * intros _. apply Hok. intros E. discriminate.
    + intros j Hj. apply Hpre. lia.
    + intros Hs i Hi Hu Hlt. destruct (decide (i = k)) as [->|Hne];
        [congruence|]. apply Hcopy; auto. lia.
  - destruct (Nat.eqb_spec k 0) as [->|Hk].
    + intros [= <- <-]. split; [reflexivity|]. split; [now right|].
      split; [|split; [reflexivity|discriminate]].
      split; [discriminate|]. intros H. specialize (H eq_refl ltac:(lia)).
      change (Z.of_nat 0) with 0%Z in Hbit. congruence.
    + intros Hrun. apply IH in Hrun as (Hlen & Hst & Hok & Hpre & Hcopy).
      rewrite length_insert in Hlen.
      split; [exact Hlen|]. split; [exact Hst|]. split; [|split].
      * split; [intros _ E; lia|]. intros _. apply Hok. intros E. discriminate.
      * intros j Hj. rewrite Hpre by lia. apply list_lookup_insert_ne. lia.
      * intros Hs i Hi Hu Hlt. destruct (decide (i = k)) as [->|Hne].
        -- rewrite !Hpre by lia.
           rewrite list_lookup_insert_eq by exact Hlt.
           rewrite list_lookup_insert_ne by lia.
           destruct (lookup_lt_is_Some_2 quant (k - 1) ltac:(lia)) as [t Ht].
           now rewrite Ht.
        -- apply Hcopy; auto; [lia|]. now rewrite length_insert.
Qed.

(** X28: the quantisation tables that [ProcessACGlobal] leaves in the
    JPEG target, when every component's table position lies inside the
    tables.  The assertion holds and the number of tables is unchanged; the
    code fails with "First quant table unused." exactly when there are tables
    and no component uses table 0; and when it succeeds every table that no
    component uses is equal to the table before it. *)
Theorem set_jpeg_quant_tables_result (qtable : list Z)
    (jpeg_c_map quant_idx : list nat) (quant : list (list Z)) :
  Forall (fun q => q < length quant)
    (used_positions jpeg_c_map quant_idx (seq 0 (length quant_idx))) ->
  exists st quant',
    set_jpeg_quant_tables qtable jpeg_c_map quant_idx quant = Some (st, quant') /\
    length quant' = length quant /\
    (st = StatusOk \/ st = JXL_FAILURE "First quant table unused.") /\
    (st = StatusOk <->
     quant = [] \/
     0 ∈ used_positions jpeg_c_map quant_idx (seq 0 (length quant_idx))) /\
    (st = StatusOk ->
     forall i, 0 < i < length quant ->
       i ∉ used_positions jpeg_c_map quant_idx (seq 0 (length quant_idx)) ->
       quant' !! i = quant' !! (i - 1)).
Proof.
  intros Hall. unfold set_jpeg_quant_tables.
  destruct (set_component_tables_spec qtable (length quant_idx =? 1)
              jpeg_c_map quant_idx (seq 0 (length quant_idx)) 0%Z quant Hall)
    as (qt & q1 & Hrun & Hlen1 & Hbits).
  rewrite Hrun.
  destruct (copy_unused_tables qt (seq 0 (length q1)) q1) as [st quant'] eqn:Hcopy.
  apply copy_unused_tables_spec in Hcopy as (Hlen & Hst & Hok & _ & Hprev).
  exists st, quant'. split; [reflexivity|].
  split; [congruence|]. split; [exact Hst|]. split; [|].
  - rewrite Hok. split.
    + intros H. destruct quant as [|t quant]; [now left|right].
      specialize (H eq_refl ltac:(rewrite Hlen1; simpl; lia)).
      apply (Hbits 0) in H as [H|H]; [|exact H].
      rewrite Z.bits_0 in H. discriminate.
    + intros [->|H] _ Hpos.
      * rewrite Hlen1 in Hpos. simpl in Hpos. lia.
      * apply (Hbits 0). now right.
  - intros Hs i Hi Hu. apply Hprev; auto; [lia| |lia].
    destruct (Z.testbit qt (Z.of_nat i)) eqn:Hb; [|reflexivity].
    apply Hbits in Hb as [Hb|Hb]; [|contradiction].
    rewrite Z.bits_0 in Hb. discriminate.
Qed.

Lemma set_jpeg_quant_tables_result_witness :
  exists st quant',
    set_jpeg_quant_tables (Z.of_nat <$> seq 0 192) [0; 1; 2] [0; 1; 1]
      (replicate 3 (replicate 64 0%Z)) = Some (st, quant') /\
    length quant' = length (replicate 3 (replicate 64 0%Z)) /\
    (st = StatusOk \/ st = JXL_FAILURE "First quant table unused.") /\
    (st = StatusOk <->
     replicate 3 (replicate 64 0%Z) = [] \/
     0 ∈ used_positions [0; 1; 2] [0; 1; 1] (seq 0 (length [0; 1; 1]))) /\
    (st = StatusOk ->
     forall i, 0 < i < length (replicate 3 (replicate 64 0%Z)) ->
       i ∉ used_positions [0; 1; 2] [0; 1; 1] (seq 0 (length [0; 1; 1])) ->
       quant' !! i = quant' !! (i - 1)).
Proof.
  apply (set_jpeg_quant_tables_result (Z.of_nat <$> seq 0 192) [0; 1; 2]
           [0; 1; 1] (replicate 3 (replicate 64 0%Z))).
  vm_compute. repeat constructor.
Defined.

(** ** A complete frame is decoded completely *)

Lemma ac_index_split (D G k g p : nat) :
  g < G -> k = D + 2 + p * G + g ->
  (k - (D + 1) - 1) mod G = g /\ (k - (D + 1) - 1) / G = p.
Proof.
  intros Hg ->.
  replace (D + 2 + p * G + g - (D + 1) - 1) with (g + p * G) by lia.
  split.
  - rewrite Nat.Div0.mod_add. now apply Nat.mod_small.
  - rewrite Nat.div_add by lia. rewrite Nat.div_small by exact Hg. lia.
Qed.

Lemma classify_section_fills D G P n d0 k s b :
  D = num_dc_groups (frame_dim_ d0) ->
  G = num_groups (frame_dim_ d0) ->
  P = num_passes (passes (frame_header_ d0)) ->
  max_passes_ d0 = P ->
  n = 2 + D + G * P ->
  id s = k -> k < n ->
  filled_below D G P n d0 k b ->
  exists b', classify_section k s b = StepNext b' /\
             filled_below D G P n d0 (S k) b'.
Proof.
  intros HD HG HP Hmax Hn Hid Hk Hb.
  destruct Hb as [Hdec Hlen Hun [Hdl Hal Hrows Hdg Hdgs Hag Hags]].
  assert (Hhdr : frame_header_ (dec b) = frame_header_ d0)
    by (rewrite Hdec; reflexivity).
  assert (Hdim : frame_dim_ (dec b) = frame_dim_ d0)
    by (rewrite Hdec; reflexivity).
  assert (Hmx : max_passes_ (dec b) = max_passes_ d0)
    by (rewrite Hdec; reflexivity).
  assert (Hmark : forall st sc,
            tables_filled D G P n (S k) sc ->
            filled_below D G P n d0 (S k)
              {| dec := set_processed_section
                          (<[k := true]> (processed_section_ (dec b))) (dec b);
                 section_status := st; sched := sc |}).
  { intros st sc Hsc. split; cbn [dec sched].
    - simpl. generalize (<[k := true]> (processed_section_ (dec b))).
      intros X. rewrite Hdec. reflexivity.
    - simpl. now rewrite length_insert.
    - intros j Hj Hjn. simpl. rewrite list_lookup_insert_ne by lia.
      apply Hun; lia.
    - exact Hsc. }
  unfold classify_section. rewrite Hid, Hlen, Hhdr, Hdim, Hmx.
  rewrite <- HD, <- HG, <- HP, Hmax.
  destruct (Nat.ltb_spec k n) as [_|]; [|lia]. cbn [negb].
  rewrite (Hun k) by lia. cbn [default from_option Datatypes.id].
  destruct (Nat.eqb_spec k 0) as [E0|N0].
  { eexists. split; [reflexivity|]. apply Hmark.
    split; cbn [dc_global_sec ac_global_sec dc_group_sec ac_group_sec
                set_dc_global_sec]; auto; intros; lia. }
  destruct (Nat.ltb_spec k (D + 1)) as [Hdc|Hndc].
  { eexists. split; [reflexivity|]. apply Hmark.
    split; cbn [dc_global_sec ac_global_sec dc_group_sec ac_group_sec
                set_dc_group_sec].
    - now rewrite length_insert.
    - exact Hal.
    - exact Hrows.
    - intros _. apply Hdg. lia.
    - intros i Hi Hik. destruct (decide (i = k - 1)) as [->|Hne].
      + rewrite list_lookup_insert_eq by lia. simpl. lia.
      + rewrite list_lookup_insert_ne by lia. apply Hdgs; lia.
    - intros Hlt. lia.
    - intros g p Hg Hp Hlt. lia. }
  destruct (Nat.eqb_spec k (D + 1)) as [Eag|Nag].
  { eexists. split; [reflexivity|]. apply Hmark.
    split; cbn [dc_global_sec ac_global_sec dc_group_sec ac_group_sec
                set_ac_global_sec].
    - exact Hdl.
    - exact Hal.
    - exact Hrows.
    - intros _. apply Hdg. lia.
    - intros i Hi Hik. apply Hdgs; lia.
    - intros _. lia.
    - intros g p Hg Hp Hlt. lia. }
  set (a := k - (D + 1) - 1).
  assert (Ha : a < G * P) by (unfold a; lia).
  assert (HG0 : 0 < G) by (destruct G; simpl in Ha; lia).
  assert (Hacp : a / G < P).
  { apply Nat.Div0.div_lt_upper_bound. exact Ha. }
  assert (Hacg : a mod G < G) by (apply Nat.mod_upper_bound; lia).
  destruct (Nat.ltb_spec (a / G) P) as [_|]; [|lia]. cbn [negb].
  destruct (lookup_lt_is_Some_2 (ac_group_sec (sched b)) (a mod G)
              ltac:(lia)) as [row Hrow].
  pose proof (Hrows _ _ Hrow) as Hrl.
  eexists. split; [reflexivity|]. apply Hmark.
  split; cbn [dc_global_sec ac_global_sec dc_group_sec ac_group_sec
              set_ac_group_sec].
  - exact Hdl.
  - now rewrite length_insert.
  - intros g row' Hg'. destruct (decide (g = a mod G)) as [->|Hne].
    + rewrite list_lookup_insert_eq in Hg' by lia. injection Hg' as <-.
      rewrite Hrow. simpl. now rewrite length_insert.
    + rewrite list_lookup_insert_ne in Hg' by lia. eauto.
  - intros _. apply Hdg. lia.
  - intros i Hi Hik. apply Hdgs; lia.
  - intros _. apply Hag. lia.
  - intros g p Hg Hp Hlt.
    destruct (decide (g = a mod G)) as [->|Hne].
    + rewrite list_lookup_insert_eq by lia. rewrite Hrow. simpl.
      destruct (decide (p = a / G)) as [->|Hnp].
      * rewrite list_lookup_insert_eq by lia. simpl. lia.
      * rewrite list_lookup_insert_ne by lia.
        specialize (Hags (a mod G) p Hg Hp). rewrite Hrow in Hags. simpl in Hags.
        apply Hags.
        destruct (decide (D + 2 + p * G + a mod G = k)) as [E|]; [|lia].
        destruct (ac_index_split D G k (a mod G) p Hg (eq_sym E)) as [_ E2].
        fold a in E2. congruence.
    + rewrite list_lookup_insert_ne by lia. apply Hags; auto.
      destruct (decide (D + 2 + p * G + g = k)) as [E|]; [|lia].
      destruct (ac_index_split D G k g p Hg (eq_sym E)) as [E1 _].
      fold a in E1. congruence.
Qed.

Lemma classify_sections_fills D G P n d0 (sections : list SectionInfo) :
  D = num_dc_groups (frame_dim_ d0) ->
  G = num_groups (frame_dim_ d0) ->
  P = num_passes (passes (frame_header_ d0)) ->
  max_passes_ d0 = P ->
  n = 2 + D + G * P ->
  forall k b,
  id <$> sections = seq k (length sections) ->
  k + length sections = n ->
  filled_below D G P n d0 k b ->
  exists b', classify_sections k sections b = StepNext b' /\
             filled_below D G P n d0 n b'.
Proof.
  intros HD HG HP Hmax Hn.
  induction sections as [|s rest IH]; intros k b Hids Hlen Hb.
  - simpl in Hlen. exists b. split; [reflexivity|].
    assert (E : k = n) by lia. rewrite E in Hb. exact Hb.
  - cbn [fmap list_fmap length seq] in Hids. injection Hids as Hid Hrest.
    simpl in Hlen.
    destruct (classify_section_fills D G P n d0 k s b HD HG HP Hmax Hn Hid
                ltac:(lia) Hb) as (b1 & E1 & Hb1).
    cbn [classify_sections]. rewrite E1. cbn [and_then].
    apply IH; [exact Hrest|lia|exact Hb1].
Qed.

Lemma count_new_passes_full num row decoded fuel :
  forall j,
  (forall i, j <= i < j + fuel -> default num (row !! (i + decoded)) <> num) ->
  count_new_passes num row decoded fuel j = j + fuel.
Proof.
  induction fuel as [|f IH]; intros j H; simpl; [lia|].
  destruct (Nat.eqb_spec (default num (row !! (j + decoded))) num) as [E|_].
  - exfalso. apply (H j); [lia|exact E].
  - rewrite IH; [lia|]. intros i Hi. apply H. lia.
Qed.

Lemma dc_group_region_all sections sc (l : list nat) :
  forall r,
  sched (batch r) = sc -> has_error r = false ->
  (forall i, i ∈ l ->
     i < length (decoded_dc_groups_ (dec (batch r))) /\
     default (length sections) (dc_group_sec sc !! i) <> length sections) ->
  exists r' L,
    foldl (fun acc i => dc_group_body Sample.env_ok sections i acc) r l = r' /\
    has_error r' = false /\ sched (batch r') = sc /\
    dec (batch r') = set_decoded_dc_groups L (dec (batch r)) /\
    length L = length (decoded_dc_groups_ (dec (batch r))) /\
    forall i, i ∈ l \/ decoded_dc_groups_ (dec (batch r)) !! i = Some true ->
              L !! i = Some true.
Proof.
  induction l as [|i l IH]; intros r Hsc Herr Hall; cbn [foldl].
  - exists r, (decoded_dc_groups_ (dec (batch r))).
    repeat split; auto.
    + destruct (dec (batch r)); reflexivity.
    + intros i [Hi|Hi]; [inversion Hi|exact Hi].
  - destruct (Hall i ltac:(apply elem_of_cons; now left)) as [Hi Hsec].
    set (r1 := dc_group_body Sample.env_ok sections i r).
    assert (H1 : has_error r1 = false /\ sched (batch r1) = sc /\
                 dec (batch r1)
                 = set_decoded_dc_groups
                     (<[i := true]> (decoded_dc_groups_ (dec (batch r))))
                     (dec (batch r))).
    { unfold r1, dc_group_body. rewrite Hsc.
      destruct (Nat.eqb_spec (default (length sections) (dc_group_sec sc !! i))
                  (length sections)) as [E|_]; [contradiction|].
      simpl. auto. }
    destruct H1 as (Herr1 & Hsc1 & Hdec1).
    destruct (IH r1 Hsc1 Herr1) as (r' & L & Hfold & Herr' & Hsc' & Hdec' & Hlen & Htrue).
    { intros j Hj. rewrite Hdec1. simpl. rewrite length_insert.
      apply Hall. apply elem_of_cons. now right. }
    exists r', L. split; [exact Hfold|]. split; [exact Herr'|].
    split; [exact Hsc'|]. split; [|split].
    + rewrite Hdec', Hdec1. reflexivity.
    + rewrite Hlen, Hdec1. simpl. apply length_insert.
    + intros j Hj. apply Htrue. rewrite Hdec1. simpl.
      destruct (decide (j = i)) as [->|Hne].
      * right. now apply list_lookup_insert_eq.
      * destruct Hj as [Hj|Hj].
        -- apply elem_of_cons in Hj as [Hj|Hj]; [contradiction|now left].
        -- right. now rewrite list_lookup_insert_ne.
Qed.

Lemma ac_group_region_all sections sc P (l : list nat) :
  NoDup l ->
  forall r,
  sched (batch r) = sc -> has_error r = false ->
  (forall g, g ∈ l ->
     decoded_passes_per_ac_group_ (dec (batch r)) !! g = Some 0 /\
     default 0 (num_ac_passes sc !! g) = P /\
     forall i, i < P ->
       default (length sections) (default [] (ac_group_sec sc !! g) !! (0 + i))
       <> length sections) ->
  exists r' C,
    foldl (fun acc g => ac_group_body Sample.env_ok sections g acc) (Some r) l
    = Some r' /\
    has_error r' = false /\ sched (batch r') = sc /\
    dec (batch r') = set_decoded_passes_per_ac_group C (dec (batch r)) /\
    length C = length (decoded_passes_per_ac_group_ (dec (batch r))) /\
    (forall g, g ∈ l -> C !! g = Some P) /\
    (forall g, g ∉ l ->
       C !! g = decoded_passes_per_ac_group_ (dec (batch r)) !! g).
Proof.
  induction l as [|g l IH]; intros Hnd r Hsc Herr Hall; cbn [foldl].
  - exists r, (decoded_passes_per_ac_group_ (dec (batch r))).
    repeat split; auto.
    + destruct (dec (batch r)); reflexivity.
    + intros g Hg. inversion Hg.
  - apply NoDup_cons in Hnd as [Hg Hnd].
    destruct (Hall g ltac:(apply elem_of_cons; now left)) as (Hzero & Hnum & Hrow).
    assert (H1 : exists r1,
               ac_group_body Sample.env_ok sections g (Some r) = Some r1 /\
               has_error r1 = false /\ sched (batch r1) = sc /\
               dec (batch r1)
               = set_decoded_passes_per_ac_group
                   (<[g := P]> (decoded_passes_per_ac_group_ (dec (batch r))))
                   (dec (batch r))).
    { unfold ac_group_body. rewrite Hsc, Hnum, Hzero.
      cbn [default from_option Datatypes.id].
      destruct (Nat.eqb_spec P 0) as [E|Hne].
      - exists r. split; [reflexivity|]. split; [exact Herr|].
        split; [exact Hsc|]. rewrite E.
        rewrite list_insert_id by exact Hzero.
        destruct (dec (batch r)); reflexivity.
      - destruct (existsb _ _) eqn:Hex.
        { exfalso. apply existsb_exists in Hex as [sec [Hin Hsec]].
          apply Nat.eqb_eq in Hsec. apply list_elem_of_In in Hin.
          apply list_elem_of_fmap in Hin as [i [-> Hi]].
          apply elem_of_seq in Hi. apply (Hrow i); [lia|exact Hsec]. }
        unfold ProcessACGroup. simpl. rewrite Hzero. simpl.
        eexists. split; [reflexivity|]. simpl. auto. }
    destruct H1 as (r1 & E1 & Herr1 & Hsc1 & Hdec1).
    rewrite E1.
    destruct (IH Hnd r1 Hsc1 Herr1)
      as (r' & C & Hfold & Herr' & Hsc' & Hdec' & Hlen & Hin & Hout).
    { intros g' Hg'. destruct (Hall g' ltac:(apply elem_of_cons; now right))
        as (Hz' & Hrest).
      split; [|exact Hrest]. rewrite Hdec1. simpl.
      rewrite list_lookup_insert_ne; [exact Hz'|]. intros E. subst g'. contradiction. }
    exists r', C. split; [exact Hfold|]. split; [exact Herr'|].
    split; [exact Hsc'|]. split; [|split; [|split]].
    + rewrite Hdec', Hdec1. reflexivity.
    + rewrite Hlen, Hdec1. simpl. apply length_insert.
    + intros g' Hg'. apply elem_of_cons in Hg' as [->|Hg']; [|now apply Hin].
      rewrite (Hout g Hg), Hdec1. simpl. apply list_lookup_insert_eq.
      eapply lookup_lt_Some; eauto.
    + intros g' Hg'. rewrite Hout, Hdec1.
      * simpl. apply list_lookup_insert_ne. intros E. subst g'.
        apply Hg'. apply elem_of_cons. now left.
      * intros Hin'. apply Hg'. apply elem_of_cons. now right.
Qed.

Lemma forallb_all_true (L : list bool) :
  (forall i, i < length L -> L !! i = Some true) ->
  forallb (fun x => x) L = true.
Proof.
  intros H. apply forallb_lookup. intros i x Hi.
  rewrite (H i) in Hi by (eapply lookup_lt_Some; eauto). congruence.
Qed.

(** The stages, run with sub-decoders that all succeed on a freshly
    opened frame whose tables are filled, decode everything. *)
(** With every sub-decoder succeeding and the JPEG data in place,
    [ProcessACGlobal] succeeds once DC is finalised. *)
Lemma ProcessACGlobal_env_ok reader d :
  finalized_dc_ d = true ->
  ProcessACGlobal Sample.env_ok reader d
  = Returned StatusOk (set_decoded_ac_global true d).
Proof.
  intros Hf. unfold ProcessACGlobal. rewrite Hf. cbn [negb].
  change (ac_global_decode Sample.env_ok reader) with StatusOk.
  destruct (FrameEncoding_eqb _ _); cbv iota;
    (destruct (decoded_IsJPEG d); [|reflexivity]);
    vm_compute; reflexivity.
Qed.

Lemma run_stages_complete (sections : list SectionInfo) D G P b :
  length sections = 2 + D + G * P ->
  tables_filled D G P (length sections) (length sections) (sched b) ->
  (forall g, g < G -> default 0 (num_ac_passes (sched b) !! g) = P) ->
  finalized_dc_ (dec b) = false ->
  decoded_ac_global_ (dec b) = false ->
  length (decoded_dc_groups_ (dec b)) = D ->
  decoded_passes_per_ac_group_ (dec b) = replicate G 0 ->
  max_passes_ (dec b) = P ->
  pause_at_progressive_ (dec b) = false ->
  exists b', run_stages Sample.env_ok sections false b = StepMarkAndReturn b' /\
             HasEverything (dec b') = true.
Proof.
  intros Hn [Hdl Hal Hrows Hdg Hdgs Hag Hags] Hnum Hfd Hacg Hgroups Hpasses
         Hmax Hpause.
  set (n := length sections) in *.
  unfold run_stages.
  (* DC global *)
  assert (E1 : stage_dc_global Sample.env_ok sections b
               = StepNext (set_status (dc_global_sec (sched b)) kDone
                             (set_dec (set_decoded_dc_global true (dec b)) b))).
  { unfold stage_dc_global. fold n.
    destruct (Nat.eqb_spec (dc_global_sec (sched b)) n) as [E|_]; [|reflexivity].
    exfalso. apply Hdg; [lia|exact E]. }
  rewrite E1. cbn [and_then]. clear E1.
  set (b1 := set_status _ _ _).
  assert (S1 : sched b1 = sched b) by reflexivity.
  assert (D1 : dec b1 = set_decoded_dc_global true (dec b)) by reflexivity.
  clearbody b1.
  (* DC groups *)
  destruct (dc_group_region_all sections (sched b)
              (seq 0 (length (dc_group_sec (sched b1)) - 0))
              {| batch := b1; has_error := false |} S1 eq_refl)
    as (r2 & L & E2 & Herr2 & S2 & D2 & HlenL & HL).
  { intros i Hi. apply elem_of_seq in Hi. rewrite S1, Hdl in Hi.
    cbn [batch]. rewrite D1. simpl. rewrite Hgroups.
    split; [lia|]. apply Hdgs; lia. }
  assert (E2' : stage_dc_groups Sample.env_ok sections b1 = StepNext (batch r2)).
  { unfold stage_dc_groups. rewrite D1. cbn [decoded_dc_global_ set_decoded_dc_global].
    unfold RunOnPool. rewrite E2, Herr2. reflexivity. }
  rewrite E2'. cbn [and_then]. clear E2 E2'.
  cbn [batch] in D2, HlenL, HL.
  set (b2 := batch r2) in *. clearbody b2. clear r2 Herr2.
  assert (HLtrue : forallb (fun x => x) L = true).
  { apply forallb_all_true. intros i Hi. apply HL. left.
    apply elem_of_seq. rewrite S1, Hdl.
    rewrite HlenL, D1 in Hi. simpl in Hi. lia. }
  (* finalize DC *)
  assert (E3 : exists d3,
             stage_finalize_dc Sample.env_ok sections false b2
             = StepNext (set_dec d3 b2) /\
             (d3 = FinalizeDC (dec b2) \/
              d3 = set_allocated true (FinalizeDC (dec b2)))).
  { unfold stage_finalize_dc. rewrite D2, D1.
    cbn [decoded_dc_groups_ set_decoded_dc_groups finalized_dc_
         set_decoded_dc_global].
    rewrite HLtrue, Hfd. cbn [negb andb].
    change (PreparePipeline Sample.env_ok) with StatusOk. cbv iota.
    unfold AllocateOutput.
    destruct (allocated_ _) eqn:Hal0.
    - eexists. split; [|left; reflexivity].
      cbn [pause_at_progressive_ FinalizeDC set_finalized_dc
           set_decoded_dc_groups set_decoded_dc_global].
      rewrite Hpause. reflexivity.
    - change (InitForAC Sample.env_ok) with StatusOk. cbv iota.
      eexists. split; [|right; reflexivity].
      cbn [pause_at_progressive_ FinalizeDC set_finalized_dc set_allocated
           set_decoded_dc_groups set_decoded_dc_global].
      rewrite Hpause. reflexivity. }
  destruct E3 as (d3 & E3 & Hd3). rewrite E3. cbn [and_then]. clear E3.
  set (b3 := set_dec d3 b2).
  assert (S3 : sched b3 = sched b) by (unfold b3; simpl; congruence).
  assert (D3 : dec b3 = d3) by reflexivity.
  clearbody b3.
  assert (F3 : finalized_dc_ d3 = true /\ decoded_ac_global_ d3 = false /\
               decoded_dc_global_ d3 = true /\ decoded_dc_groups_ d3 = L /\
               decoded_passes_per_ac_group_ d3 = replicate G 0 /\
               max_passes_ d3 = P).
  { destruct Hd3 as [-> | ->]; rewrite D2, D1; simpl; auto 10. }
  destruct F3 as (F3fd & F3ag & F3dg & F3L & F3p & F3m).
  (* AC global *)
  assert (E4 : stage_ac_global Sample.env_ok sections b3
               = StepNext (set_status (ac_global_sec (sched b3)) kDone
                             (set_dec (set_decoded_ac_global true d3) b3))).
  { unfold stage_ac_global. rewrite D3, F3fd, F3ag, S3. fold n.
    destruct (Nat.eqb_spec (ac_global_sec (sched b)) n) as [E|_].
    { exfalso. apply Hag; [lia|exact E]. }
    cbn [negb andb]. rewrite (ProcessACGlobal_env_ok _ _ F3fd). reflexivity. }
  rewrite E4. cbn [and_then]. clear E4.
  set (b4 := set_status _ _ _).
  assert (S4 : sched b4 = sched b) by (unfold b4; simpl; exact S3).
  assert (D4 : dec b4 = set_decoded_ac_global true d3) by reflexivity.
  clearbody b4.
  (* AC groups *)
  destruct (ac_group_region_all sections (sched b) P
              (seq 0 (length (ac_group_sec (sched b4)) - 0))
              (NoDup_seq _ _)
              {| batch := b4; has_error := false |} S4 eq_refl)
    as (r5 & C & E5 & Herr5 & S5 & D5 & HlenC & HC & _).
  { intros g Hg. apply elem_of_seq in Hg. rewrite S4, Hal in Hg.
    cbn [batch]. rewrite D4. simpl. rewrite F3p.
    split; [apply lookup_replicate_2; lia|].
    split; [apply Hnum; lia|].
    intros i Hi. apply Hags; [lia|exact Hi|]. fold n. nia. }
  assert (E5' : stage_ac_groups Sample.env_ok sections b4 = StepNext (batch r5)).
  { unfold stage_ac_groups. rewrite D4.
    cbn [decoded_ac_global_ set_decoded_ac_global].
    unfold RunOnPool. rewrite E5, Herr5. reflexivity. }
  rewrite E5'. cbn [and_then].
  exists (batch r5). split; [reflexivity|].
  cbn [batch] in D5, HlenC, HC.
  rewrite D5, D4, HasEverything_unfold.
  cbn [decoded_dc_global_ decoded_ac_global_ decoded_dc_groups_
       decoded_passes_per_ac_group_ max_passes_
       set_decoded_passes_per_ac_group set_decoded_ac_global].
  rewrite F3dg, F3L, HLtrue, F3m. cbn [andb].
  apply forallb_lookup. intros g x Hg.
  assert (Hlt : g < G).
  { apply lookup_lt_Some in Hg. rewrite HlenC, D4 in Hg. simpl in Hg.
    rewrite F3p, length_replicate in Hg. exact Hg. }
  rewrite HC in Hg.
  - injection Hg as <-. apply Nat.leb_refl.
  - apply elem_of_seq. rewrite S4, Hal. lia.
Qed.

(** X29: a complete frame is decoded completely.  On a frame of more
    than one section that [InitFrame] has just opened, with the pause option
    off, a single call of [ProcessSections] that is given all sections of
    the TOC in order, and whose sub-decoders all succeed, returns success
    and leaves a decoder for which [HasEverything()] holds. *)
Theorem ProcessSections_decodes_complete_frame (ext : InitExternals)
    (reader : ReaderState) (decoded : ImageBundle)
    (is_preview allow_partial_frames allow_partial_dc_global : bool)
    (d0 d : FrameDecoder) (sections : list SectionInfo) :
  InitFrame ext reader decoded is_preview allow_partial_frames
    allow_partial_dc_global true d0 = Returned StatusOk d ->
  is_single_section d = false ->
  0 < num_dc_groups (frame_dim_ d) ->
  pause_at_progressive_ d = false ->
  length (processed_section_ d)
  = NumTocEntries (num_groups (frame_dim_ d)) (num_dc_groups (frame_dim_ d))
      (num_passes (passes (frame_header_ d))) ->
  id <$> sections = seq 0 (length (processed_section_ d)) ->
  exists d' st,
    ProcessSections Sample.env_ok sections d = SectionsReturned StatusOk d' st /\
    HasEverything d' = true.
Proof.
  intros Hinit Hsingle HD0 Hpause Htoc Hids.
  apply InitFrame_cleared in Hinit as [d1 Hd].
  set (D := num_dc_groups (frame_dim_ d)) in *.
  set (G := num_groups (frame_dim_ d)) in *.
  set (P := num_passes (passes (frame_header_ d))) in *.
  set (n := length (processed_section_ d)) in *.
  assert (Hn : n = 2 + D + G * P).
  { unfold NumTocEntries in Htoc. unfold is_single_section in Hsingle.
    fold G P in Hsingle. rewrite Hsingle in Htoc. exact Htoc. }
  assert (Hlen : length sections = n).
  { rewrite <- (length_fmap id), Hids. apply length_seq. }
  assert (Hfresh : finalized_dc_ d = false /\ decoded_ac_global_ d = false /\
                   decoded_dc_groups_ d = replicate D false /\
                   decoded_passes_per_ac_group_ d = replicate G 0 /\
                   max_passes_ d = P /\
                   processed_section_ d = replicate n false).
  { unfold D, G, P, n. rewrite Hd. simpl. rewrite length_replicate. auto 10. }
  destruct Hfresh as (Ffd & Fag & Fgroups & Fpasses & Fmax & Ftable).
  assert (Hstart : filled_below D G P n d 0 (Batch_init sections d)).
  { split; cbn [dec sched Batch_init].
    - rewrite Hd. reflexivity.
    - reflexivity.
    - intros j _ Hj. rewrite Ftable. now apply lookup_replicate_2.
    - split; cbn [Schedule_init dc_global_sec ac_global_sec dc_group_sec
                  ac_group_sec]; try (intros; lia).
      + apply length_replicate.
      + apply length_replicate.
      + intros g row Hrow. apply lookup_replicate in Hrow as [-> _].
        apply length_replicate. }
  destruct (classify_sections_fills D G P n d sections eq_refl eq_refl eq_refl
              Fmax Hn 0 (Batch_init sections d)
              ltac:(rewrite Hlen; exact Hids) ltac:(lia) Hstart)
    as (bc & Ecl & [Hdec Htl _ Htables]).
  assert (Fbc : finalized_dc_ (dec bc) = false /\
                decoded_ac_global_ (dec bc) = false /\
                decoded_dc_groups_ (dec bc) = replicate D false /\
                decoded_passes_per_ac_group_ (dec bc) = replicate G 0 /\
                max_passes_ (dec bc) = P /\
                pause_at_progressive_ (dec bc) = false).
  { rewrite Hdec. simpl. auto 10. }
  destruct Fbc as (Bfd & Bag & Bgroups & Bpasses & Bmax & Bpause).
  set (b := {| dec := dec bc; section_status := section_status bc;
               sched := set_num_ac_passes
                          (count_num_ac_passes (length sections) (dec bc)
                             (sched bc)) (sched bc) |}).
  destruct (run_stages_complete sections D G P b) as (b' & Erun & Hall).
  - lia.
  - rewrite Hlen. destruct Htables as [T1 T2 T3 T4 T5 T6 T7]. split; assumption.
  - intros g Hg. unfold b. cbn [sched num_ac_passes set_num_ac_passes].
    unfold count_num_ac_passes. rewrite list_lookup_imap, Bpasses, Bmax.
    destruct Htables as [T1 T2 T3 T4 T5 T6 T7].
    destruct (lookup_lt_is_Some_2 (ac_group_sec (sched bc)) g ltac:(lia))
      as [row Hrow].
    rewrite Hrow. simpl. rewrite lookup_replicate_2 by exact Hg. simpl.
    rewrite Nat.sub_0_r. rewrite count_new_passes_full; [reflexivity|].
    intros i Hi. rewrite Nat.add_0_r.
    specialize (T7 g i Hg ltac:(lia) ltac:(nia)).
    rewrite Hrow in T7. simpl in T7. rewrite Hlen. exact T7.
  - exact Bfd.
  - exact Bag.
  - unfold b. cbn [dec]. rewrite Bgroups. apply length_replicate.
  - exact Bpasses.
  - exact Bmax.
  - exact Bpause.
  - exists (MarkSections sections (section_status b') (dec b')),
           (section_status b').
    split.
    + unfold ProcessSections. rewrite Hlen.
      destruct (Nat.eqb_spec n 0) as [E|_]; [lia|].
      unfold classify. cbn [dec Batch_init]. rewrite Hsingle, Ecl.
      cbn [and_then]. fold b. rewrite Erun. reflexivity.
    + apply (MarkSections_preserves (fun d' => HasEverything d' = true));
        [split; intros v d2 H; exact H|exact Hall].
Qed.

Lemma ProcessSections_decodes_complete_frame_witness :
  exists d' st,
    ProcessSections Sample.env_ok SampleRun.all_sections SampleRun.initialised
    = SectionsReturned StatusOk d' st /\
    HasEverything d' = true.
Proof.
  apply (ProcessSections_decodes_complete_frame (SampleInit.ext true 0 80)
           (SampleInit.reader 4096) SampleInit.bundle false false false
           SampleInit.idle SampleRun.initialised SampleRun.all_sections).
  - vm_compute. reflexivity.
  - vm_compute. reflexivity.
  - vm_compute. lia.
  - vm_compute. reflexivity.
  - vm_compute. reflexivity.
  - vm_compute. reflexivity.
Defined.

(** ** The pause after DC *)

Lemma pausing_dc_global env sections d b :
  pausing_before_dc d (dec b) ->
  step_all (fun b' => pausing_before_dc d (dec b'))
           (stage_dc_global env sections b).
Proof.
  intros H. unfold stage_dc_global. destruct (_ =? _); [exact H|].
  destruct (ProcessDCGlobal _ _ _) as [st d'] eqn:Hp.
  assert (H' : pausing_before_dc d d').
  { apply ProcessDCGlobal_fields in Hp as [-> | ->]; exact H. }
  destruct (IsFatalError st); [exact H'|]. destruct (ok st); exact H'.
Qed.

Lemma pausing_dc_groups env sections d b :
  pausing_before_dc d (dec b) ->
  step_all (fun b' => pausing_before_dc d (dec b'))
           (stage_dc_groups env sections b).
Proof.
  intros H. unfold stage_dc_groups.
  set (r := if decoded_dc_global_ (dec b) then _ else _).
  assert (Hr : pausing_before_dc d (dec (batch r))).
  { unfold r. destruct (decoded_dc_global_ (dec b)); [|exact H].
    unfold RunOnPool.
    apply (foldl_preserves (fun r => pausing_before_dc d (dec (batch r)))
             (fun acc i => dc_group_body env sections i acc)); [|exact H].
    intros a i Ha. unfold dc_group_body. destruct (_ =? _); [exact Ha|].
    unfold ProcessDCGroup. destruct (dc_group_decode _ _ _); exact Ha. }
  destruct (has_error r); exact Hr.
Qed.

Lemma pausing_finalize_dc env sections d b :
  pausing_before_dc d (dec b) ->
  match stage_finalize_dc env sections false b with
  | StepAbort => True
  | StepReturn _ b' | StepMarkAndReturn b' => ac_untouched d (dec b')
  | StepNext b' => pausing_before_dc d (dec b')
  end.
Proof.
  intros H. pose proof H as (Hac & Hfd & Hpause & Hec & Henc).
  unfold stage_finalize_dc. destruct (_ && _); [|exact H].
  destruct (PreparePipeline env); try exact Hac.
  destruct (AllocateOutput env (FinalizeDC (dec b))) as [sa d2] eqn:Hal.
  assert (H2 : ac_untouched d d2 /\ pause_at_progressive_ d2 = true /\
               can_return_dc false d2 = true).
  { unfold can_return_dc.
    apply AllocateOutput_fields in Hal as [-> | ->]; simpl;
      rewrite Hec, Henc; auto. }
  destruct H2 as (Hac2 & Hp2 & Hcan).
  destruct sa; cbn [set_dec dec]; try exact Hac2.
  rewrite Hp2, Hcan. exact Hac2.
Qed.

(** X30: the pause after DC.  With the pause option set, on a VarDCT
    frame of more than one section without extra channels whose DC is not
    final yet, no call of [ProcessSections] decodes an AC section, whatever
    the batch holds: either DC does not become final in the call, or the
    call returns as soon as it has. *)
Theorem ProcessSections_pauses_before_ac (env : Externals)
    (sections : list SectionInfo) (d d' : FrameDecoder) (r : Status)
    (st : list SectionStatus) :
  pause_at_progressive_ d = true ->
  is_single_section d = false ->
  decoded_has_extra_channels d = false ->
  encoding (frame_header_ d) = kVarDCT ->
  finalized_dc_ d = false ->
  decoded_ac_global_ d = false ->
  ProcessSections env sections d = SectionsReturned r d' st ->
  decoded_ac_global_ d' = false /\
  decoded_passes_per_ac_group_ d' = decoded_passes_per_ac_group_ d.
Proof.
  intros Hpause Hsingle Hec Henc Hfd Hag.
  assert (H0 : pausing_before_dc d d) by (repeat split; assumption).
  assert (Hbook : ignores_bookkeeping (pausing_before_dc d)).
  { split; intros v d1 H; exact H. }
  assert (Hbook' : ignores_bookkeeping (ac_untouched d)).
  { split; intros v d1 H; exact H. }
  unfold ProcessSections.
  destruct (length sections =? 0); [intros [= <- <-]; split; auto|].
  rewrite Hsingle.
  match goal with
  | |- match ?s with _ => _ end = _ -> _ =>
      assert (Hs : step_all (fun b' => ac_untouched d (dec b')) s);
      [|destruct s as [|r0 b0|b0|b0]; simpl in Hs; intros [= <- <- <-]]
  end.
  - eapply (and_then_all (fun b' => pausing_before_dc d (dec b'))).
    + apply classify_preserves; [exact Hbook|exact H0].
    + intros ? ? _ H. apply H.
    + intros ? _ H. apply H.
    + intros b1 _ H1. unfold run_stages.
      eapply (and_then_all (fun b' => pausing_before_dc d (dec b')));
        [now apply pausing_dc_global
        |intros ? ? _ H; apply H|intros ? _ H; apply H|].
      intros b2 _ H2.
      eapply (and_then_all (fun b' => pausing_before_dc d (dec b')));
        [now apply pausing_dc_groups
        |intros ? ? _ H; apply H|intros ? _ H; apply H|].
      intros b3 _ H3.
      pose proof (pausing_finalize_dc env sections d b3 H3) as H4.
      destruct (stage_finalize_dc env sections false b3) as [|r4 b4|b4|b4];
        cbn [and_then step_all]; auto.
      destruct H4 as (Hac4 & Hfd4 & _).
      unfold stage_ac_global. rewrite Hfd4. cbn [andb and_then].
      unfold stage_ac_groups. destruct Hac4 as [Hag4 Hc4]. rewrite Hag4.
      cbn [has_error batch and_then step_all]. split; assumption.
  - exact Hs.
  - apply MarkSections_preserves; assumption.
  - apply MarkSections_preserves; assumption.
Qed.

Lemma ProcessSections_pauses_before_ac_witness :
  decoded_ac_global_ SamplePause.paused = false /\
  decoded_passes_per_ac_group_ SamplePause.paused
  = decoded_passes_per_ac_group_ SamplePause.initialised.
Proof.
  apply (ProcessSections_pauses_before_ac Sample.env_ok SampleRun.all_sections
           SamplePause.initialised SamplePause.paused StatusOk
           [kDone; kDone; kSkipped; kSkipped; kSkipped]);
    vm_compute; reflexivity.
Defined.
